(** * SHSH: a shallow embedding of [main.c]

    The shell reads a line, splits it into tokens, cuts the token array at
    every ["|"] token and runs each stage through [lsh_launch], which either
    calls a built-in handler or forks and [execvp]s an external program.

    Modelling conventions.
    - A C string is a [string] holding no NUL byte; a [char *] cell of the
      token array is a [cell]: [None] is the null pointer.
    - [char **args] is the list of cells from the pointer to the end of the
      allocation.  Reading or writing beyond it, passing a null pointer to
      [strcmp] or to [printf]'s [%s], and the other undefined behaviours
      met in the source are the outcome [Fault].
    - Built-in handlers run in a small state-and-error monad over [hstate]
      (working directory, argument array, standard streams).
    - Processes are run to completion at the point they are forked; a
      channel keeps every byte written to it until it is read.  [pipe] and
      [malloc] are taken to succeed; [fork] succeeds when the environment's
      [fork_ok] says so. *)

From Stdlib Require Import ZArith Ascii String DecimalString Sorted Permutation Lia.
From stdpp Require Import base tactics option list strings sorting.

Local Open Scope Z_scope.
Local Open Scope string_scope.

(** ** C strings *)

Definition nl : string := String "010"%char EmptyString.
Definition sp : string := String " "%char EmptyString.
Definition dquote : string := String "034"%char EmptyString.
Definition NUL : ascii := "000"%char.

(** The bytes of a buffer up to its first NUL: what the C library sees. *)
Fixpoint cstr (s : string) : string :=
  match s with
  | EmptyString => EmptyString
  | String c r => if Ascii.eqb c NUL then EmptyString else String c (cstr r)
  end.

(** [strcmp]: bytes compared as [unsigned char]; only the sign of the result
    is specified by C, so the model returns -1, 0 or 1. *)
Fixpoint strcmp (a b : string) : Z :=
  match a, b with
  | EmptyString, EmptyString => 0
  | EmptyString, String _ _ => -1
  | String _ _, EmptyString => 1
  | String c a', String d b' =>
      if Ascii.eqb c d then strcmp a' b'
      else if (nat_of_ascii c <? nat_of_ascii d)%nat then -1 else 1
  end.

(** [printf("%d", i)] for a non-negative [i]. *)
Definition decimal (i : nat) : string := NilZero.string_of_uint (Nat.to_uint i).

(** ** Outcomes *)

Inductive fault : Set :=
| NullString      (* a null pointer used as a string *)
| OutOfBounds     (* an access outside the allocated array *)
| NoStatus.       (* [status] read although no child was waited for *)

Inductive outcome (A : Type) : Type :=
| Ok (a : A)
| Fault (f : fault).
Arguments Ok {A} a.
Arguments Fault {A} f.

(** ** The machine around the shell *)

Abbreviation cell := (option string) (only parsing).

Inductive errno : Set := ENOENT | ENOTDIR | EACCES | ERANGE | EAGAIN | ENOEXEC.

(** What a program started by [execvp] does: it reads some of its standard
    input and writes to its standard output and error, then exits. *)
Record run := {
  r_rest : string;      (* standard input left unread *)
  r_out : string;
  r_err : string;
  r_code : Z
}.

Record env := {
  getenv : string -> option string;
  sys_chdir : string -> string -> errno + string;   (* cwd, path: new cwd *)
  sys_open : string -> string -> option string;     (* cwd, path: contents *)
  sys_exec : string -> list string -> string -> errno + run;
                                                    (* cwd, argv, stdin *)
  strerror : errno -> string;
  fork_ok : nat -> bool;         (* does the n-th call of fork succeed? *)
  heap : nat -> cell             (* what cell k of a fresh allocation holds *)
}.

(** ** Handler state *)

Record hstate := {
  h_cwd : string;
  h_args : list cell;
  h_in : string;        (* bytes available on standard input *)
  h_out : string;       (* bytes written to standard output *)
  h_err : string        (* bytes written to standard error *)
}.

(** State passing with faults, over a state [S]. *)
Definition St (S A : Type) : Type := S -> outcome (A * S).

Definition ret {S A} (a : A) : St S A := fun h => Ok (a, h).
Definition bind {S A B} (m : St S A) (k : A -> St S B) : St S B :=
  fun h => match m h with
           | Ok (a, h') => k a h'
           | Fault f => Fault f
           end.
Definition raise {S A} (f : fault) : St S A := fun _ => Fault f.

Definition M (A : Type) : Type := St hstate A.

Declare Scope sh_scope.
Delimit Scope sh_scope with sh.
Notation "x <- m ;; k" := (bind m (fun x => k))
  (at level 100, m at next level, right associativity) : sh_scope.
Notation "m ;;; k" := (bind m (fun _ => k))
  (at level 100, right associativity) : sh_scope.
Local Open Scope sh_scope.

(** [args[i]] *)
Definition arg (i : nat) : M cell :=
  fun h => match h_args h !! i with
           | Some c => Ok (c, h)
           | None => Fault OutOfBounds
           end.

(** [args[i] = c] *)
Definition set_arg (i : nat) (c : cell) : M unit :=
  fun h => if decide (i < length (h_args h))%nat
           then Ok (tt, {| h_cwd := h_cwd h; h_args := <[i:=c]> (h_args h);
                           h_in := h_in h; h_out := h_out h; h_err := h_err h |})
           else Fault OutOfBounds.

Definition put_out (s : string) : M unit :=
  fun h => Ok (tt, {| h_cwd := h_cwd h; h_args := h_args h; h_in := h_in h;
                      h_out := h_out h ++ s; h_err := h_err h |}).

Definition put_err (s : string) : M unit :=
  fun h => Ok (tt, {| h_cwd := h_cwd h; h_args := h_args h; h_in := h_in h;
                      h_out := h_out h; h_err := h_err h ++ s |}).

(** [printf("%s", p)] *)
Definition printf_s (p : cell) : M unit :=
  match p with
  | Some s => put_out s
  | None => raise NullString
  end.

Definition get_cwd : M string := fun h => Ok (h_cwd h, h).
Definition set_cwd (d : string) : M unit :=
  fun h => Ok (tt, {| h_cwd := d; h_args := h_args h; h_in := h_in h;
                      h_out := h_out h; h_err := h_err h |}).
Definition args_size : M nat := fun h => Ok (length (h_args h), h).

Section Builtins.
Variable E : env.

(** [perror(tag)] after a call that failed with [e]. *)
Definition perror (tag : string) (e : errno) : M unit :=
  put_err (tag ++ ": " ++ strerror E e ++ nl).

(** [chdir(path)]: [None] stands for a result of 0, [Some e] for -1 with
    [errno] set to [e]. *)
Definition chdir (path : string) : M (option errno) :=
  d <- get_cwd ;;
  match sys_chdir E d path with
  | inr d' => set_cwd d' ;;; ret None
  | inl e => ret (Some e)
  end.

Definition lsh_cd : M Z :=
  a0 <- arg 0 ;;
  match a0 with
  | None =>
      put_err ("lsh: expected argument to " ++ dquote ++ "cd" ++ dquote ++ nl) ;;;
      ret 1
  | Some p =>
      failed <- chdir p ;;
      match failed with
      | None => ret tt
      | Some e => perror "lsh" e
      end ;;;
      ret 1
  end.

Definition LSH_PATHSIZE : nat := 1024.

Definition lsh_pwd : M Z :=
  a0 <- arg 0 ;;
  match a0 with
  | None => put_out nl ;;; ret 1
  | Some _ =>
      d <- get_cwd ;;
      (if decide (String.length d < LSH_PATHSIZE)%nat
       then put_out (d ++ nl)
       else perror "lsh" ERANGE) ;;;
      ret 1
  end.

(** [args[i][0] == '$'] and [args[i] + 1] *)
Definition is_dollar (s : string) : bool :=
  match s with
  | String c _ => Ascii.eqb c "$"%char
  | EmptyString => false
  end.
Definition str_tail (s : string) : string :=
  match s with
  | String _ r => r
  | EmptyString => EmptyString
  end.

(** The [while (args[i] != NULL)] loop of [lsh_echo], with its test of
    [args[i++ + 1]]; it stops at the null cell, or faults on leaving the
    array. *)
Fixpoint echo_loop (fuel i : nat) : M unit :=
  match fuel with
  | O => raise OutOfBounds
  | S fuel' =>
      a <- arg i ;;
      match a with
      | None => ret tt
      | Some s =>
          (if is_dollar s then printf_s (getenv E (str_tail s))
           else printf_s (Some s)) ;;;
          nxt <- arg (i + 1) ;;
          (match nxt with
           | Some _ => put_out sp
           | None => put_out nl
           end) ;;;
          echo_loop fuel' (S i)
      end
  end.

Definition lsh_echo : M Z :=
  a0 <- arg 0 ;;
  match a0 with
  | None => put_out nl ;;; ret 1
  | Some _ =>
      n <- args_size ;;
      echo_loop (S n) 1 ;;;
      ret 1
  end.

(** [while (args[len] != NULL) len++]: it stops at the null cell, or
    faults on leaving the array. *)
Fixpoint count_args (fuel len : nat) : M nat :=
  match fuel with
  | O => raise OutOfBounds
  | S fuel' =>
      a <- arg len ;;
      match a with
      | None => ret len
      | Some _ => count_args fuel' (S len)
      end
  end.

Definition args_len : M nat :=
  n <- args_size ;; count_args (S n) 0.

(** The [for] loop of [lsh_cat], [n] files to go from index [i]; [false]
    when a file could not be opened and the handler returned early. *)
Fixpoint cat_loop (n i : nat) : M bool :=
  match n with
  | O => ret true
  | S n' =>
      a <- arg i ;;
      match a with
      | None => raise NullString
      | Some path =>
          d <- get_cwd ;;
          match sys_open E d path with
          | None =>
              put_err ("Error: " ++ path ++ ": file not found" ++ nl) ;;;
              ret false
          | Some bytes => put_out bytes ;;; cat_loop n' (S i)
          end
      end
  end.

Definition lsh_cat : M Z :=
  len <- args_len ;;
  if decide (len < 2)%nat
  then put_err ("Error: usage: cat filename" ++ nl) ;;; ret 1
  else cat_loop (len - 1) 1 ;;; ret 1.

Definition builtin_str : list string :=
  ["cd"; "cat"; "echo"; "help"; "exit"; "pwd"; "sort"].

Definition lsh_num_builtins : nat := length builtin_str.

Definition lsh_help : M Z :=
  put_out ("Shunsuke Haga's SHSH" ++ nl) ;;;
  put_out ("the forked project from Stephen Brennan's LSH" ++ nl) ;;;
  put_out ("Type program names and arguments, and hit enter." ++ nl) ;;;
  put_out ("The following are built in:" ++ nl) ;;;
  put_out (String.concat EmptyString
             (map (fun s => "  " ++ s ++ nl) builtin_str)) ;;;
  put_out ("Use the man command for information on other programs." ++ nl) ;;;
  ret 1.

Definition lsh_exit : M Z := ret 0.

(** *** sort *)

Definition LSH_RL_BUFSIZE : nat := 1024.

(** [fgets] reads at most [k] bytes and stops after a newline. *)
Fixpoint fgets_aux (k : nat) (s : string) : string * string :=
  match k, s with
  | O, _ => (EmptyString, s)
  | S _, EmptyString => (EmptyString, EmptyString)
  | S k', String c r =>
      if Ascii.eqb c "010"%char then (String c EmptyString, r)
      else let '(a, b) := fgets_aux k' r in (String c a, b)
  end.

(** [fgets(buffer, n, stdin)]: [None] at end of input. *)
Definition fgets (n : nat) : M (option string) :=
  fun h => match h_in h with
           | EmptyString => Ok (None, h)
           | _ =>
               let '(chunk, rest) := fgets_aux (n - 1) (h_in h) in
               Ok (Some chunk,
                   {| h_cwd := h_cwd h; h_args := h_args h; h_in := rest;
                      h_out := h_out h; h_err := h_err h |})
           end.

(** [buffer[strcspn(buffer, "\n")] = 0; strdup(buffer)]: the bytes before
    the first newline or NUL. *)
Fixpoint line_of (s : string) : string :=
  match s with
  | EmptyString => EmptyString
  | String c r =>
      if Ascii.eqb c "010"%char || Ascii.eqb c NUL then EmptyString
      else String c (line_of r)
  end.

(** The reading loop: every chunk [fgets] returns is stored at
    [args[position++]]; the loop ends with the input, or faults on leaving
    the array.  The buffer grows once [position] has reached its size. *)
Fixpoint sort_read (fuel bufsize position : nat) : M unit :=
  match fuel with
  | O => raise OutOfBounds
  | S fuel' =>
      c <- fgets bufsize ;;
      match c with
      | None => ret tt
      | Some buffer =>
          set_arg position (Some (line_of buffer)) ;;;
          let position' := S position in
          let bufsize' := if decide (bufsize <= position')%nat
                          then (bufsize + LSH_RL_BUFSIZE)%nat else bufsize in
          sort_read fuel' bufsize' position'
      end
  end.

(** [if (strcmp(args[i], args[j]) > 0)] swap the two cells. *)
Definition cmp_swap (i j : nat) : M unit :=
  ai <- arg i ;;
  aj <- arg j ;;
  match ai, aj with
  | Some x, Some y =>
      if (0 <? strcmp x y)%Z then set_arg i aj ;;; set_arg j ai else ret tt
  | _, _ => raise NullString
  end.

(** [for (j = ...; j < len; ++j)], [n] iterations to go. *)
Fixpoint sort_inner (n i j : nat) : M unit :=
  match n with
  | O => ret tt
  | S n' => cmp_swap i j ;;; sort_inner n' i (S j)
  end.

(** [for (i = ...; i < len; ++i)], [n] iterations to go. *)
Fixpoint sort_outer (n len i : nat) : M unit :=
  match n with
  | O => ret tt
  | S n' => sort_inner (len - S i) i (S i) ;;; sort_outer n' len (S i)
  end.

(** [for (i = ...; i < len; i++) printf("[%d]: %s\n", i, args[i])] *)
Fixpoint sort_print (n i : nat) : M unit :=
  match n with
  | O => ret tt
  | S n' =>
      a <- arg i ;;
      match a with
      | None => raise NullString
      | Some s => put_out ("[" ++ decimal i ++ "]: " ++ s ++ nl)
      end ;;;
      sort_print n' (S i)
  end.

Definition lsh_sort : M Z :=
  a1 <- arg 1 ;;
  (match a1 with
   | None => n <- args_size ;; sort_read (S n) LSH_RL_BUFSIZE 1
   | Some _ => ret tt
   end) ;;;
  len <- args_len ;;
  sort_outer (len - 1) len 1 ;;;
  sort_print (len - 1) 1 ;;;
  ret 1.

Definition builtin_func : list (M Z) :=
  [lsh_cd; lsh_cat; lsh_echo; lsh_help; lsh_exit; lsh_pwd; lsh_sort].

End Builtins.

(** ** Processes, descriptors and channels *)

Inductive endpoint : Set :=
| TermIn | TermOut | TermErr       (* the terminal the shell was started on *)
| PipeR (k : nat) | PipeW (k : nat).   (* the two ends of channel [k] *)

Record world := {
  w_in : string;            (* terminal input not read yet *)
  w_out : string;           (* written to the terminal through [TermOut] *)
  w_err : string;           (* written to the terminal through [TermErr] *)
  w_pipes : list string;    (* channel [k]: bytes written and not read yet *)
  w_forks : nat;            (* calls of [fork] so far *)
  w_procs : nat             (* processes created so far *)
}.

(** A process: its working directory, its descriptor table (index = file
    descriptor) and its copy of the token array. *)
Record pstate := {
  s_cwd : string;
  s_fds : list (option endpoint);
  s_args : list cell;
  s_world : world
}.

Definition P (A : Type) : Type := St pstate A.

Definition ep_write (ep : endpoint) (s : string) (w : world) : world :=
  match ep with
  | TermOut =>
      {| w_in := w_in w; w_out := w_out w ++ s; w_err := w_err w;
         w_pipes := w_pipes w; w_forks := w_forks w; w_procs := w_procs w |}
  | TermErr =>
      {| w_in := w_in w; w_out := w_out w; w_err := w_err w ++ s;
         w_pipes := w_pipes w; w_forks := w_forks w; w_procs := w_procs w |}
  | PipeW k =>
      {| w_in := w_in w; w_out := w_out w; w_err := w_err w;
         w_pipes := alter (fun b => b ++ s) k (w_pipes w);
         w_forks := w_forks w; w_procs := w_procs w |}
  | TermIn | PipeR _ => w
  end.

Definition ep_avail (ep : endpoint) (w : world) : string :=
  match ep with
  | TermIn => w_in w
  | PipeR k => default EmptyString (w_pipes w !! k)
  | _ => EmptyString
  end.

Definition ep_set_avail (ep : endpoint) (rest : string) (w : world) : world :=
  match ep with
  | TermIn =>
      {| w_in := rest; w_out := w_out w; w_err := w_err w;
         w_pipes := w_pipes w; w_forks := w_forks w; w_procs := w_procs w |}
  | PipeR k =>
      {| w_in := w_in w; w_out := w_out w; w_err := w_err w;
         w_pipes := <[k:=rest]> (w_pipes w);
         w_forks := w_forks w; w_procs := w_procs w |}
  | _ => w
  end.

Definition fd_lookup (fds : list (option endpoint)) (fd : nat) : option endpoint :=
  default None (fds !! fd).

(** Writes and reads through a descriptor; a closed descriptor makes the
    call fail, which the source never checks. *)
Definition fd_write (fds : list (option endpoint)) (fd : nat) (s : string)
    (w : world) : world :=
  match fd_lookup fds fd with
  | Some ep => ep_write ep s w
  | None => w
  end.

Definition fd_avail (fds : list (option endpoint)) (fd : nat) (w : world) : string :=
  match fd_lookup fds fd with
  | Some ep => ep_avail ep w
  | None => EmptyString
  end.

Definition fd_set_avail (fds : list (option endpoint)) (fd : nat) (rest : string)
    (w : world) : world :=
  match fd_lookup fds fd with
  | Some ep => ep_set_avail ep rest w
  | None => w
  end.

(** The lowest free descriptor. *)
Fixpoint free_fd (fds : list (option endpoint)) : nat :=
  match fds with
  | [] => O
  | None :: _ => O
  | Some _ :: r => S (free_fd r)
  end.

Definition fd_set (fd : nat) (v : option endpoint) (fds : list (option endpoint))
    : list (option endpoint) :=
  if decide (fd < length fds)%nat then <[fd:=v]> fds
  else fds ++ replicate (fd - length fds) None ++ [v].

Definition with_fds (f : list (option endpoint) -> list (option endpoint)) : P unit :=
  fun s => Ok (tt, {| s_cwd := s_cwd s; s_fds := f (s_fds s);
                      s_args := s_args s; s_world := s_world s |}).

Definition with_world (f : world -> world) : P unit :=
  fun s => Ok (tt, {| s_cwd := s_cwd s; s_fds := s_fds s;
                      s_args := s_args s; s_world := f (s_world s) |}).

(** [close(fd)] *)
Definition sys_close (fd : nat) : P unit :=
  with_fds (fun fds => if decide (fd < length fds)%nat
                       then <[fd:=None]> fds else fds).

(** [dup2(old, new)] *)
Definition sys_dup2 (old new : nat) : P unit :=
  with_fds (fun fds => match fd_lookup fds old with
                       | Some ep => fd_set new (Some ep) fds
                       | None => fds
                       end).

(** [pipe(p)]: a new channel, its read end on the lowest free descriptor and
    its write end on the next; the pair is what the call stores in [p]. *)
Definition sys_pipe : P (nat * nat) :=
  fun s =>
    let w := s_world s in
    let k := length (w_pipes w) in
    let r := free_fd (s_fds s) in
    let fds1 := fd_set r (Some (PipeR k)) (s_fds s) in
    let wr := free_fd fds1 in
    let fds2 := fd_set wr (Some (PipeW k)) fds1 in
    Ok ((r, wr),
        {| s_cwd := s_cwd s; s_fds := fds2; s_args := s_args s;
           s_world := {| w_in := w_in w; w_out := w_out w; w_err := w_err w;
                         w_pipes := w_pipes w ++ [EmptyString];
                         w_forks := w_forks w; w_procs := w_procs w |} |}).

(** How a child ended, as [waitpid] reports it. *)
Inductive wstatus : Set :=
| Exited (code : Z)
| Signaled.

(** [WEXITSTATUS]: bits 8 to 15 of the status word, which are 0 when the
    child was ended by a signal. *)
Definition WEXITSTATUS (st : wstatus) : Z :=
  match st with
  | Exited c => c mod 256
  | Signaled => 0
  end.

Definition EXIT_FAILURE : Z := 1.

Section Engine.
Variable E : env.

Definition count_fork (made : bool) (w : world) : world :=
  {| w_in := w_in w; w_out := w_out w; w_err := w_err w; w_pipes := w_pipes w;
     w_forks := S (w_forks w);
     w_procs := if made then S (w_procs w) else w_procs w |}.

(** [fork()], the child running [child] and ending with [exit] of its
    result.  The child starts from a copy of the caller's state and shares
    the world; it is run to its end here, and its status is what a later
    [wait] collects.  A fault in the child ends the child only; its effects
    are then left out.  [None]: the call failed and returned -1. *)
Definition fork (child : P Z) : P (option wstatus) :=
  fun s =>
    let w := s_world s in
    if fork_ok E (w_forks w) then
      let s1 := {| s_cwd := s_cwd s; s_fds := s_fds s; s_args := s_args s;
                   s_world := count_fork true w |} in
      match child s1 with
      | Ok (code, s') =>
          Ok (Some (Exited code),
              {| s_cwd := s_cwd s; s_fds := s_fds s; s_args := s_args s;
                 s_world := s_world s' |})
      | Fault _ => Ok (Some Signaled, s1)
      end
    else
      Ok (None, {| s_cwd := s_cwd s; s_fds := s_fds s; s_args := s_args s;
                   s_world := count_fork false w |}).

(** A built-in handler called on [args + off]: it sees the cells from
    [off] on and the process's standard streams. *)
Definition call_builtin (f : M Z) (off : nat) : P Z :=
  fun s =>
    let h := {| h_cwd := s_cwd s; h_args := drop off (s_args s);
                h_in := fd_avail (s_fds s) 0 (s_world s);
                h_out := EmptyString; h_err := EmptyString |} in
    match f h with
    | Ok (r, h') =>
        Ok (r, {| s_cwd := h_cwd h'; s_fds := s_fds s;
                  s_args := take off (s_args s) ++ h_args h';
                  s_world := fd_write (s_fds s) 2 (h_err h')
                               (fd_write (s_fds s) 1 (h_out h')
                                  (fd_set_avail (s_fds s) 0 (h_in h') (s_world s))) |})
    | Fault e => Fault e
    end.

(** The loop over [builtin_str] in [lsh_launch]. *)
Fixpoint find_builtin (name : string) (names : list string) (funcs : list (M Z))
    : option (M Z) :=
  match names, funcs with
  | n :: names', f :: funcs' =>
      if (strcmp name n =? 0)%Z then Some f else find_builtin name names' funcs'
  | _, _ => None
  end.

(** The strings [execvp] is given: the cells up to the first null one. *)
Fixpoint argv_of (l : list cell) : list string :=
  match l with
  | Some s :: r => s :: argv_of r
  | _ => []
  end.

(** The child branch of [lsh_launch]: [execvp], or [perror] and
    [exit(EXIT_FAILURE)]. *)
Definition exec_child (off : nat) (name : string) : P Z :=
  fun s =>
    let w := s_world s in
    match sys_exec E (s_cwd s) (argv_of (drop off (s_args s)))
            (fd_avail (s_fds s) 0 w) with
    | inr r =>
        Ok (r_code r,
            {| s_cwd := s_cwd s; s_fds := s_fds s; s_args := s_args s;
               s_world := fd_write (s_fds s) 2 (r_err r)
                            (fd_write (s_fds s) 1 (r_out r)
                               (fd_set_avail (s_fds s) 0 (r_rest r) w)) |})
    | inl e =>
        Ok (EXIT_FAILURE,
            {| s_cwd := s_cwd s; s_fds := s_fds s; s_args := s_args s;
               s_world := fd_write (s_fds s) 2
                            ("lsh: " ++ strerror E e ++ nl) w |})
    end.

(** [lsh_launch(args + off)] *)
Definition lsh_launch (off : nat) : P Z :=
  fun s =>
    match s_args s !! off with
    | None => Fault OutOfBounds
    | Some None => Fault NullString
    | Some (Some name) =>
        match find_builtin name builtin_str (builtin_func E) with
        | Some f => call_builtin f off s
        | None =>
            (pid <- fork (exec_child off name) ;;
             match pid with
             | None =>
                 with_world (fun w => fd_write (s_fds s) 2
                                        ("lsh: " ++ strerror E EAGAIN ++ nl) w) ;;;
                 ret 1
             | Some _ => ret 1
             end) s
        end
    end.

(** [args[i]] and [args[i] = c] in a process. *)
Definition parg (i : nat) : P cell :=
  fun s => match s_args s !! i with
           | Some c => Ok (c, s)
           | None => Fault OutOfBounds
           end.

Definition pset_arg (i : nat) (c : cell) : P unit :=
  fun s => if decide (i < length (s_args s))%nat
           then Ok (tt, {| s_cwd := s_cwd s; s_fds := s_fds s;
                           s_args := <[i:=c]> (s_args s); s_world := s_world s |})
           else Fault OutOfBounds.

Definition pargs_size : P nat := fun s => Ok (length (s_args s), s).

(** [while (args[len] != NULL) len++] in [lsh_execute] *)
Fixpoint pcount_args (fuel len : nat) : P nat :=
  match fuel with
  | O => raise OutOfBounds
  | S fuel' =>
      a <- parg len ;;
      match a with
      | None => ret len
      | Some _ => pcount_args fuel' (S len)
      end
  end.

(** [int pipe_locate[10]] with [pipe_locate[0] = -1]; the other entries are
    written before they are read. *)
Definition pipe_locate0 : list Z := (-1)%Z :: replicate 9 0%Z.

(** [int pfd[9][2]] *)
Definition pfd0 : list (nat * nat) := replicate 9 (O, O).

(** The loop that looks for ["|"]: every one found is counted, recorded
    in [pipe_locate] and overwritten by a null pointer. *)
Fixpoint scan_pipes (fuel i pipe_count : nat) (pipe_locate : list Z)
    : P (nat * list Z) :=
  match fuel with
  | O => raise OutOfBounds
  | S fuel' =>
      a <- parg i ;;
      match a with
      | None => ret (pipe_count, pipe_locate)
      | Some t =>
          if (strcmp t "|" =? 0)%Z then
            let pipe_count' := S pipe_count in
            if decide (pipe_count' < length pipe_locate)%nat then
              pset_arg i None ;;;
              scan_pipes fuel' (S i) pipe_count'
                (<[pipe_count' := Z.of_nat i]> pipe_locate)
            else raise OutOfBounds
          else scan_pipes fuel' (S i) pipe_count pipe_locate
      end
  end.

Definition at_index {A} (l : list A) (i : nat) : P A :=
  match l !! i with
  | Some x => ret x
  | None => raise OutOfBounds
  end.

(** What the child of stage [i] does to its descriptors: its standard
    streams are put on the channels and every other copy is closed. *)
Definition wire_stage (i pipe_count : nat) (pfd : list (nat * nat)) : P unit :=
  if decide (i = 0)%nat then
    p0 <- at_index pfd 0 ;;
    sys_dup2 (snd p0) 1 ;;;
    sys_close (fst p0) ;;; sys_close (snd p0)
  else if decide (i = pipe_count) then
    pp <- at_index pfd (i - 1) ;;
    sys_dup2 (fst pp) 0 ;;;
    sys_close (fst pp) ;;; sys_close (snd pp)
  else
    pp <- at_index pfd (i - 1) ;;
    pi <- at_index pfd i ;;
    sys_dup2 (fst pp) 0 ;;;
    sys_dup2 (snd pi) 1 ;;;
    sys_close (fst pp) ;;; sys_close (snd pp) ;;;
    sys_close (fst pi) ;;; sys_close (snd pi).

(** The child of stage [i]: the stage is launched on [args +
    pipe_locate[i] + 1], and the child ends with [exit(0)]. *)
Definition stage_child (i pipe_count : nat) (pipe_locate : list Z)
    (pfd : list (nat * nat)) : P Z :=
  wire_stage i pipe_count pfd ;;;
  loc <- at_index pipe_locate i ;;
  lsh_launch (Z.to_nat (loc + 1)) ;;;
  ret 0%Z.

(** The loop that creates the stages, [n] iterations to go from [i]. *)
Fixpoint spawn_stages (n i pipe_count : nat) (pipe_locate : list Z)
    (pfd : list (nat * nat)) : P unit :=
  match n with
  | O => ret tt
  | S n' =>
      pfd' <- (if decide (i <> pipe_count) then
                 ends <- sys_pipe ;;
                 if decide (i < length pfd)%nat then ret (<[i:=ends]> pfd)
                 else raise OutOfBounds
               else ret pfd) ;;
      fork (stage_child i pipe_count pipe_locate pfd') ;;;
      (if decide (0 < i)%nat then
         pp <- at_index pfd' (i - 1) ;;
         sys_close (fst pp) ;;; sys_close (snd pp)
       else ret tt) ;;;
      spawn_stages n' (S i) pipe_count pipe_locate pfd'
  end.

(** [for (...) wait(&status)]: the children have run to their end when
    they were created, and the statuses are not looked at. *)
Definition wait_stages (n : nat) : P unit := ret tt.

(** [lsh_execute(args)], [args] being the process's token array.  The
    interactive process has no child left from earlier commands, so that
    after a failed [fork] the [waitpid] of the single-command branch fails
    too and [status] is read without having been set. *)
Definition lsh_execute : P Z :=
  a0 <- parg 0 ;;
  match a0 with
  | None => ret 1%Z
  | Some _ =>
      n <- pargs_size ;;
      pcount_args (S n) 0 ;;;
      found <- scan_pipes (S n) 0 0 pipe_locate0 ;;
      let '(pipe_count, pipe_locate) := found in
      if decide (pipe_count = 0)%nat then
        pid <- fork (lsh_launch 0) ;;
        match pid with
        | Some status => ret (WEXITSTATUS status)
        | None => raise NoStatus
        end
      else
        spawn_stages (pipe_count + 1) 0 pipe_count pipe_locate pfd0 ;;;
        wait_stages (pipe_count + 1) ;;;
        ret 1%Z
  end.

(** *** The interactive loop *)

(** [lsh_read_line]: the bytes before the next newline, or [None] when
    the input ends first (the program then exits). *)
Fixpoint lsh_read_line (input : string) : option (string * string) :=
  match input with
  | EmptyString => None
  | String c r =>
      if Ascii.eqb c "010"%char then Some (EmptyString, r)
      else match lsh_read_line r with
           | Some (l, rest) => Some (String c l, rest)
           | None => None
           end
  end.

Definition LSH_TOK_BUFSIZE : nat := 64.

(** The bytes of [LSH_TOK_DELIM]: space, tab, CR, LF, BEL. *)
Definition is_delim (c : ascii) : bool :=
  Ascii.eqb c " "%char || Ascii.eqb c "009"%char || Ascii.eqb c "013"%char
  || Ascii.eqb c "010"%char || Ascii.eqb c "007"%char.

(** Successive [strtok] results: the maximal runs of bytes that are not
    delimiters; [cur] is the run being read. *)
Fixpoint strtok_all (s cur : string) : list string :=
  match s with
  | EmptyString =>
      match cur with EmptyString => [] | _ => [cur] end
  | String c r =>
      if is_delim c then
        match cur with
        | EmptyString => strtok_all r EmptyString
        | _ => cur :: strtok_all r EmptyString
        end
      else strtok_all r (cur ++ String c EmptyString)
  end.

(** [lsh_split_line]: the tokens, a null pointer, and the rest of the
    allocation, which [malloc] and [realloc] leave as it was. *)
Definition lsh_split_line (line : string) : list cell :=
  let toks := strtok_all (cstr line) EmptyString in
  let n := length toks in
  let bufsize := (LSH_TOK_BUFSIZE * (n / LSH_TOK_BUFSIZE + 1))%nat in
  (Some <$> toks) ++ [None] ++ (heap E <$> seq (S n) (bufsize - S n)).

Inductive ending : Set :=
| EndOfInput      (* [exit(EXIT_SUCCESS)] in [lsh_read_line] *)
| LoopLeft.       (* [lsh_loop] returned *)

(** [lsh_loop]; [None] when [fuel] iterations were not enough. *)
Fixpoint lsh_loop (fuel : nat) : P (option ending) :=
  match fuel with
  | O => ret None
  | S fuel' =>
      (fun s =>
         let w := fd_write (s_fds s) 1 "shsh!% " (s_world s) in
         match lsh_read_line (fd_avail (s_fds s) 0 w) with
         | None =>
             Ok (Some EndOfInput,
                 {| s_cwd := s_cwd s; s_fds := s_fds s; s_args := s_args s;
                    s_world := w |})
         | Some (line, rest) =>
             (status <- lsh_execute ;;
              if (status =? 0)%Z then ret (Some LoopLeft) else lsh_loop fuel')
               {| s_cwd := s_cwd s; s_fds := s_fds s;
                  s_args := lsh_split_line line;
                  s_world := fd_set_avail (s_fds s) 0 rest w |}
         end)
  end.

End Engine.

(** [setenv(name, value, 1)] *)
Definition setenv (name value : string) (E : env) : env :=
  {| getenv := fun n => if String.eqb n name then Some value else getenv E n;
     sys_chdir := sys_chdir E; sys_open := sys_open E; sys_exec := sys_exec E;
     strerror := strerror E; fork_ok := fork_ok E; heap := heap E |}.

(** [main] *)
Definition main (E : env) (fuel : nat) : P (option ending) :=
  lsh_loop (setenv "SHELL" "- SHSH" (setenv "0" "- SHSH" E)) fuel.

(** ** A small machine to run examples on

    One directory [/tmp], a directory [cd] inside [/home], one file [f],
    the programs [true], [false] and [ls]; every [fork] succeeds and fresh
    memory is zeroed. *)
Definition lab : env :=
  {| getenv := fun n => if String.eqb n "HOME" then Some "/root" else None;
     sys_chdir := fun d p =>
       if String.eqb p "/tmp" then inr "/tmp"
       else if String.eqb d "/home" && String.eqb p "cd" then inr "/home/cd"
       else inl ENOENT;
     sys_open := fun d p => if String.eqb p "f" then Some "hello" else None;
     sys_exec := fun d argv input =>
       match argv with
       | "true" :: _ =>
           inr {| r_rest := input; r_out := EmptyString;
                  r_err := EmptyString; r_code := 0 |}
       | "false" :: _ =>
           inr {| r_rest := input; r_out := EmptyString;
                  r_err := EmptyString; r_code := 1 |}
       | "ls" :: _ =>
           inr {| r_rest := input; r_out := "b" ++ nl ++ "a" ++ nl;
                  r_err := EmptyString; r_code := 0 |}
       | _ => inl ENOENT
       end;
     strerror := fun e =>
       match e with
       | ENOENT => "No such file or directory"
       | ENOTDIR => "Not a directory"
       | EACCES => "Permission denied"
       | ERANGE => "Numerical result out of range"
       | EAGAIN => "Resource temporarily unavailable"
       | ENOEXEC => "Exec format error"
       end;
     fork_ok := fun _ => true;
     heap := fun _ => None |}.

(** A handler state with nothing written yet. *)
Definition fresh (cwd : string) (args : list cell) (input : string) : hstate :=
  {| h_cwd := cwd; h_args := args; h_in := input;
     h_out := EmptyString; h_err := EmptyString |}.

(** The interactive process with descriptors 0, 1 and 2 on the terminal,
    as the shell is started, holding the token array [args]. *)
Definition booted (cwd : string) (args : list cell) (input : string) : pstate :=
  {| s_cwd := cwd; s_fds := [Some TermIn; Some TermOut; Some TermErr];
     s_args := args;
     s_world := {| w_in := input; w_out := EmptyString; w_err := EmptyString;
                   w_pipes := []; w_forks := O; w_procs := O |} |}.

(** ** Vocabulary of the statements *)

(** A computation that never writes to the argument array. *)
Definition keeps_args {A} (m : M A) : Prop :=
  forall h a h', m h = Ok (a, h') -> h_args h' = h_args h.

(** A computation that may write to the cells after element 0 only. *)
Definition keeps_head {A} (m : M A) : Prop :=
  forall h a h', m h = Ok (a, h') ->
    length (h_args h') = length (h_args h) /\ h_args h' !! O = h_args h !! O.

(** [strcmp(a, b) <= 0]: the order the sort built-in sorts by. *)
Definition le_str (a b : string) : Prop := (strcmp a b <= 0)%Z.

(** The lines [lsh_sort] prints for the strings [l], numbered from [i]. *)
Fixpoint numbered (i : nat) (l : list string) : string :=
  match l with
  | [] => EmptyString
  | s :: r => ("[" ++ decimal i ++ "]: " ++ s ++ nl) ++ numbered (S i) r
  end.

(** The exchange sort of [lsh_sort] on the strings alone, with indices
    counted from the first string. *)
Definition swap_if (i j : nat) (l : list string) : list string :=
  match l !! i, l !! j with
  | Some x, Some y => if (0 <? strcmp x y)%Z then <[j:=x]> (<[i:=y]> l) else l
  | _, _ => l
  end.

Fixpoint inner_pass (n i j : nat) (l : list string) : list string :=
  match n with
  | O => l
  | S n' => inner_pass n' i (S j) (swap_if i j l)
  end.

Fixpoint outer_pass (n i : nat) (l : list string) : list string :=
  match n with
  | O => l
  | S n' => outer_pass n' (S i) (inner_pass (length l - S i) i (S i) l)
  end.

Definition exchange_sort (l : list string) : list string :=
  outer_pass (length l) O l.

(** The cells before [i] are in their final place: each is below every
    cell after it. *)
Definition settled (i : nat) (l : list string) : Prop :=
  forall p q x y, (p < i)%nat -> (p < q)%nat ->
    l !! p = Some x -> l !! q = Some y -> le_str x y.

(** The handler state [h] with another argument array, or more output. *)
Definition with_args (h : hstate) (a : list cell) : hstate :=
  {| h_cwd := h_cwd h; h_args := a; h_in := h_in h;
     h_out := h_out h; h_err := h_err h |}.

Definition with_out (h : hstate) (o : string) : hstate :=
  {| h_cwd := h_cwd h; h_args := h_args h; h_in := h_in h;
     h_out := o; h_err := h_err h |}.

(** An argument array: element 0, the strings [l], and what follows. *)
Definition arr (c0 : cell) (l : list string) (rest : list cell) : list cell :=
  c0 :: (Some <$> l) ++ rest.

(** The bytes of the lines [ls], each ended by a newline. *)
Fixpoint feed (ls : list string) : string :=
  match ls with
  | [] => EmptyString
  | l :: r => l ++ nl ++ feed r
  end.

(** The lines of an input: [ls], each ended by a newline, and what is left
    behind the last newline, [tl], when the input does not end with one. *)
Definition last_line (tl : string) : list string :=
  match tl with
  | EmptyString => []
  | _ => [tl]
  end.

Definition lines_of (ls : list string) (tl : string) : list string :=
  (ls ++ last_line tl)%list.

(** A string of [n] bytes [c]. *)
Fixpoint bytes (n : nat) (c : ascii) : string :=
  match n with
  | O => EmptyString
  | S n' => String c (bytes n' c)
  end.

(** A line that [fgets] returns whole from a buffer of [LSH_RL_BUFSIZE]
    bytes: no newline or NUL inside, and at most 1022 bytes. *)
Fixpoint plain (s : string) : bool :=
  match s with
  | EmptyString => true
  | String c r =>
      negb (Ascii.eqb c "010"%char) && negb (Ascii.eqb c NUL) && plain r
  end.

Definition short_line (s : string) : Prop :=
  plain s = true /\ (String.length s < LSH_RL_BUFSIZE - 1)%nat.

(** The state [lsh_sort] ends in when the array holds the strings [l]. *)
Definition sorted_state (h : hstate) (name : string) (l : list string)
    (rest : list cell) : hstate :=
  with_out (with_args h (arr (Some name) (exchange_sort l) (None :: rest)))
           (h_out h ++ numbered 1 (exchange_sort l)).

(** *** Tokens, separators and stages *)

(** What the scan of [lsh_execute] leaves in the cell of a token. *)
Definition cut (t : string) : cell :=
  if (strcmp t "|" =? 0)%Z then None else Some t.

(** The indices of the ["|"] tokens, the first token having index [i]. *)
Fixpoint pipe_positions (i : nat) (toks : list string) : list nat :=
  match toks with
  | [] => []
  | t :: r =>
      if (strcmp t "|" =? 0)%Z then i :: pipe_positions (S i) r
      else pipe_positions (S i) r
  end.

(** The number of separators. *)
Definition pipes_of (toks : list string) : nat :=
  length (pipe_positions O toks).

(** [pipe_locate] after the positions [ps] were stored from entry [k] on. *)
Fixpoint record (k : nat) (ps : list nat) (loc : list Z) : list Z :=
  match ps with
  | [] => loc
  | p :: r => record (S k) r (<[k:=Z.of_nat p]> loc)
  end.

(** Where the stages start: at the first token and after every separator. *)
Definition stage_offsets (toks : list string) : list nat :=
  O :: (S <$> pipe_positions O toks).

(** The processes [lsh_launch(args + off)] creates: one for a command that
    is no built-in, none for a built-in or for a null cell. *)
Definition launch_forks (E : env) (args : list cell) (off : nat) : nat :=
  match args !! off with
  | Some (Some name) =>
      match find_builtin name builtin_str (builtin_func E) with
      | Some _ => O
      | None => 1%nat
      end
  | _ => O
  end.

(** The number of stages of [toks] whose command is no built-in. *)
Definition external_stages (E : env) (toks : list string) : nat :=
  sum_list (launch_forks E ((cut <$> toks) ++ [None])%list <$> stage_offsets toks).

(** A token sequence with an empty stage: a separator in front, at the
    end, or next to another one. *)
Definition empty_stage (toks : list string) : Prop :=
  head toks = Some "|" \/ last toks = Some "|"
  \/ exists p, toks !! p = Some "|" /\ toks !! S p = Some "|".

(** *** Descriptors *)

Definition is_pipe (ep : endpoint) : bool :=
  match ep with
  | PipeR _ | PipeW _ => true
  | _ => false
  end.

(** No descriptor of the table is an end of a channel. *)
Definition pipe_free (fds : list (option endpoint)) : Prop :=
  forall fd ep, fds !! fd = Some (Some ep) -> is_pipe ep = false.

(** The descriptors of the table that are ends of channels are among
    [allowed]. *)
Definition pipes_within (allowed : list nat) (fds : list (option endpoint))
    : Prop :=
  forall fd ep, fds !! fd = Some (Some ep) -> is_pipe ep = true ->
                fd ∈ allowed.

(** A process state with another world. *)
Definition with_w (s : pstate) (w : world) : pstate :=
  {| s_cwd := s_cwd s; s_fds := s_fds s; s_args := s_args s; s_world := w |}.

Definition with_pargs (s : pstate) (a : list cell) : pstate :=
  {| s_cwd := s_cwd s; s_fds := s_fds s; s_args := a; s_world := s_world s |}.

(** The counters of the world [w'] are those of [w]: nothing was forked
    and no channel was made. *)
Definition same_counts (w w' : world) : Prop :=
  w_procs w' = w_procs w /\ w_forks w' = w_forks w
  /\ length (w_pipes w') = length (w_pipes w).

(** The offset of stage [j] in the token array. *)
Definition stage_off (loc : list Z) (j : nat) : nat :=
  Z.to_nat (default 0%Z (loc !! j) + 1).

(** A process state with another descriptor table. *)
Definition with_pfds (s : pstate) (fds : list (option endpoint)) : pstate :=
  {| s_cwd := s_cwd s; s_fds := fds; s_args := s_args s; s_world := s_world s |}.

(** The descriptors the interactive process reads its lines from and
    writes its prompt to. *)
Definition shell_fds (fds : list (option endpoint)) : Prop :=
  fds !! O = Some (Some TermIn) /\ fds !! 1%nat = Some (Some TermOut)
  /\ pipe_free fds.

(** The interactive process after it has written its prompt, read [line]
    and split it, [rest] being the input still unread. *)
Definition prompted (E : env) (s : pstate) (line rest : string) : pstate :=
  {| s_cwd := s_cwd s; s_fds := s_fds s; s_args := lsh_split_line E line;
     s_world := {| w_in := rest; w_out := w_out (s_world s) ++ "shsh!% ";
                   w_err := w_err (s_world s); w_pipes := w_pipes (s_world s);
                   w_forks := w_forks (s_world s);
                   w_procs := w_procs (s_world s) |} |}.

(** What [lsh_echo] hands to [printf] for the argument [s]. *)
Definition expand (E : env) (s : string) : option string :=
  if is_dollar s then getenv E (str_tail s) else Some s.

(** The text [lsh_echo] prints for the strings [ys]: a space between two
    of them and a newline after the last. *)
Fixpoint echo_text (ys : list string) : string :=
  match ys with
  | [] => EmptyString
  | y :: r => y ++ match r with [] => nl | _ => sp end ++ echo_text r
  end.

(** ** Vocabulary of the further statements *)

(** *** Words and lines *)

(** No byte of [s] is a delimiter of [LSH_TOK_DELIM]. *)
Fixpoint no_delim (s : string) : bool :=
  match s with
  | EmptyString => true
  | String c r => negb (is_delim c) && no_delim r
  end.

(** Every byte of [s] is a delimiter of [LSH_TOK_DELIM]. *)
Fixpoint all_delim (s : string) : bool :=
  match s with
  | EmptyString => true
  | String c r => is_delim c && all_delim r
  end.

(** What [strtok] can return: a string that is not empty and holds no
    delimiter. *)
Definition word (t : string) : Prop := t <> EmptyString /\ no_delim t = true.

(** No byte of [s] is a newline. *)
Fixpoint no_newline (s : string) : bool :=
  match s with
  | EmptyString => true
  | String c r => negb (Ascii.eqb c "010"%char) && no_newline r
  end.

(** *** The buffers of [lsh_read_line] and [lsh_split_line] *)

(** [p[i] = c] on an allocation [p]. *)
Definition store {A} (p : list A) (i : nat) (c : A) : outcome (list A) :=
  if decide (i < length p)%nat then Ok (<[i:=c]> p) else Fault OutOfBounds.

(** [malloc] of [n] cells and [realloc] to [n] cells, [fill k] being what
    cell [k] of the block holds before the program writes to it. *)
Definition malloc {A} (fill : nat -> A) (n : nat) : list A := fill <$> seq O n.

Definition realloc {A} (fill : nat -> A) (p : list A) (n : nat) : list A :=
  (take n p ++ (fill <$> seq (length p) (n - length p)))%list.

(** The [while (token != NULL)] loop of [lsh_split_line] and the store
    that follows it; [toks] are the results of the calls of [strtok] still
    to come. *)
Fixpoint split_loop (E : env) (toks : list string) (bufsize position : nat)
    (tokens : list cell) : outcome (list cell) :=
  match toks with
  | [] => store tokens position None
  | token :: toks' =>
      match store tokens position (Some token) with
      | Ok tokens1 =>
          let position' := S position in
          if decide (bufsize <= position')%nat then
            let bufsize' := (bufsize + LSH_TOK_BUFSIZE)%nat in
            split_loop E toks' bufsize' position'
              (realloc (heap E) tokens1 bufsize')
          else split_loop E toks' bufsize position' tokens1
      | Fault f => Fault f
      end
  end.

(** [lsh_split_line], store by store. *)
Definition lsh_split_line_buf (E : env) (line : string) : outcome (list cell) :=
  split_loop E (strtok_all (cstr line) EmptyString) LSH_TOK_BUFSIZE O
    (malloc (heap E) LSH_TOK_BUFSIZE).

(** The [while (1)] loop of [lsh_read_line]; [None] when [getchar] returns
    [EOF] and the program exits, else the buffer returned and the input
    left. *)
Fixpoint read_loop (fill : nat -> ascii) (input : string)
    (bufsize position : nat) (buffer : list ascii)
    : outcome (option (list ascii * string)) :=
  match input with
  | EmptyString => Ok None
  | String c rest =>
      if Ascii.eqb c "010"%char then
        match store buffer position NUL with
        | Ok buffer1 => Ok (Some (buffer1, rest))
        | Fault f => Fault f
        end
      else
        match store buffer position c with
        | Ok buffer1 =>
            let position' := S position in
            if decide (bufsize <= position')%nat then
              let bufsize' := (bufsize + LSH_RL_BUFSIZE)%nat in
              read_loop fill rest bufsize' position'
                (realloc fill buffer1 bufsize')
            else read_loop fill rest bufsize position' buffer1
        | Fault f => Fault f
        end
  end.

(** [lsh_read_line], store by store. *)
Definition lsh_read_line_buf (fill : nat -> ascii) (input : string)
    : outcome (option (list ascii * string)) :=
  read_loop fill input LSH_RL_BUFSIZE O (malloc fill LSH_RL_BUFSIZE).

(** The C string a buffer holds. *)
Definition buf_string (buffer : list ascii) : string :=
  cstr (string_of_list_ascii buffer).

(** The words [ws] with one space between two of them. *)
Definition unwords (ws : list string) : string := String.concat sp ws.

(** *** The shell on its terminal *)

(** Descriptors 0, 1 and 2 are on the terminal. *)
Definition term_fds (fds : list (option endpoint)) : Prop :=
  fds !! O = Some (Some TermIn) /\ fds !! 1%nat = Some (Some TermOut)
  /\ fds !! 2%nat = Some (Some TermErr).

(** The world after one more process, which has read the terminal's input
    down to [input] and written [out] and [err] to the terminal. *)
Definition after_child (w : world) (input out err : string) : world :=
  {| w_in := input; w_out := w_out w ++ out; w_err := w_err w ++ err;
     w_pipes := w_pipes w; w_forks := S (w_forks w);
     w_procs := S (w_procs w) |}.

(** A computation that leaves the working directory of its process as it
    was. *)
Definition keeps_cwd {A} (m : P A) : Prop :=
  forall s a s', m s = Ok (a, s') -> s_cwd s' = s_cwd s.

(** [n] prompts. *)
Fixpoint prompts (n : nat) : string :=
  match n with
  | O => EmptyString
  | S n' => "shsh!% " ++ prompts n'
  end.

(** A line without a token: up to its first NUL byte it holds delimiters
    only. *)
Definition blank (l : string) : Prop :=
  no_newline l = true /\ all_delim (cstr l) = true.

(** The handler state [h] with more written to its standard error. *)
Definition with_err (h : hstate) (e : string) : hstate :=
  {| h_cwd := h_cwd h; h_args := h_args h; h_in := h_in h;
     h_out := h_out h; h_err := e |}.

(** The machine [lab] with calls of [fork] that succeed as [ok] says. *)
Definition lab_forking (ok : nat -> bool) : env :=
  {| getenv := getenv lab; sys_chdir := sys_chdir lab;
     sys_open := sys_open lab; sys_exec := sys_exec lab;
     strerror := strerror lab; fork_ok := ok; heap := heap lab |}.

(** *** The descriptors of a stage *)

(** [close(fd)] on a descriptor table. *)
Definition closed (fd : nat) (fds : list (option endpoint))
    : list (option endpoint) :=
  if decide (fd < length fds)%nat then <[fd:=None]> fds else fds.

(** From descriptor [n] on, no descriptor of the table is an end of a
    channel. *)
Definition pipes_below (n : nat) (fds : list (option endpoint)) : Prop :=
  forall fd ep, fd_lookup fds fd = Some ep -> is_pipe ep = true -> (fd < n)%nat.

(** A handler that returns [v] whenever it returns. *)
Definition returns {A} (v : A) (m : M A) : Prop :=
  forall h r h', m h = Ok (r, h') -> r = v.

(** A computation that leaves descriptors 0, 1 and 2 of its process on
    the terminal when they were there. *)
Definition keeps_term {A} (m : P A) : Prop :=
  forall s a s', term_fds (s_fds s) -> m s = Ok (a, s') -> term_fds (s_fds s').

(** *** The stages of a pipeline *)

(** The world with one more channel, empty. *)
Definition with_channel (w : world) : world :=
  {| w_in := w_in w; w_out := w_out w; w_err := w_err w;
     w_pipes := w_pipes w ++ [EmptyString];
     w_forks := w_forks w; w_procs := w_procs w |}.

(** What stage [i] of a pipeline of [pc] separators gets as standard
    input and as standard output, the channels of the pipeline being
    numbered from [k0]. *)
Definition stage_in (k0 i : nat) : endpoint :=
  match i with
  | O => TermIn
  | S i' => PipeR (k0 + i')
  end.

Definition stage_out (k0 pc i : nat) : endpoint :=
  if decide (i = pc) then TermOut else PipeW (k0 + i).

(** The world the interactive process is in when it forks the child of
    stage [j]: the one the stage before left, [W (j - 1)], or [w0] for the
    first, with one more channel for every stage but the last. *)
Definition world_before (pc : nat) (w0 : world) (W : nat -> world) (j : nat)
    : world :=
  let prev := match j with O => w0 | S j' => W j' end in
  if decide (j = pc) then prev else with_channel prev.

(** * Properties *)

Local Open Scope Z_scope.

(** ** String comparison *)

Lemma strcmp_refl a : strcmp a a = 0.
Proof.
  induction a as [|c a IH]; simpl; [reflexivity|].
  now rewrite Ascii.eqb_refl.
Qed.

Lemma strcmp_eq a b : strcmp a b = 0 -> a = b.
Proof.
  revert b; induction a as [|c a IH]; intros [|d b]; simpl; try discriminate;
    [reflexivity|].
  destruct (Ascii.eqb_spec c d) as [->|Hne].
  - intros H; f_equal; auto.
  - destruct (_ <? _)%nat; discriminate.
Qed.

Lemma strcmp_eqb a b : (strcmp a b =? 0) = true <-> a = b.
Proof.
  rewrite Z.eqb_eq; split; [apply strcmp_eq|intros ->; apply strcmp_refl].
Qed.

Lemma nat_of_ascii_inj c d : nat_of_ascii c = nat_of_ascii d -> c = d.
Proof.
  intros H. rewrite <- (ascii_nat_embedding c), <- (ascii_nat_embedding d).
  now rewrite H.
Qed.

(** [strcmp a b > 0] makes [strcmp b a <= 0]: after a swap the pair is in
    order. *)
Lemma strcmp_gt_flip a b : 0 < strcmp a b -> strcmp b a <= 0.
Proof.
  revert b; induction a as [|c a IH]; intros [|d b]; simpl; try lia.
  rewrite (Ascii.eqb_sym d c).
  destruct (Ascii.eqb_spec c d) as [->|Hne]; [apply IH|].
  destruct (Nat.ltb_spec (nat_of_ascii c) (nat_of_ascii d)); [lia|].
  intros _.
  destruct (Nat.ltb_spec (nat_of_ascii d) (nat_of_ascii c)); [lia|].
  exfalso; apply Hne, nat_of_ascii_inj; lia.
Qed.

Lemma strcmp_le_trans a b c :
  strcmp a b <= 0 -> strcmp b c <= 0 -> strcmp a c <= 0.
Proof.
  revert b c; induction a as [|x a IH]; intros [|y b] [|z c]; simpl; try lia.
  destruct (Ascii.eqb_spec x y) as [->|Hxy].
  - destruct (Ascii.eqb_spec y z) as [->|Hyz]; [apply IH|auto].
  - destruct (Nat.ltb_spec (nat_of_ascii x) (nat_of_ascii y)); [|lia].
    intros _.
    destruct (Ascii.eqb_spec y z) as [->|Hyz].
    + intros _. destruct (Ascii.eqb_spec x z); [congruence|].
      destruct (Nat.ltb_spec (nat_of_ascii x) (nat_of_ascii z)); lia.
    + destruct (Nat.ltb_spec (nat_of_ascii y) (nat_of_ascii z)); [|lia].
      intros _. destruct (Ascii.eqb_spec x z) as [->|Hxz]; [lia|].
      destruct (Nat.ltb_spec (nat_of_ascii x) (nat_of_ascii z)); lia.
Qed.

(** ** What the handlers leave alone *)

Lemma keeps_ret {A} (a : A) : keeps_args (ret a).
Proof. intros h a' h' [= _ <-]; reflexivity. Qed.

Lemma keeps_raise {A} f : keeps_args (@raise hstate A f).
Proof. intros h a h' [=]. Qed.

Lemma keeps_bind {A B} (m : M A) (k : A -> M B) :
  keeps_args m -> (forall a, keeps_args (k a)) -> keeps_args (bind m k).
Proof.
  intros Hm Hk h b h'. unfold bind.
  destruct (m h) as [[a h1]|] eqn:Em; [|discriminate].
  intros Ek. rewrite (Hk _ _ _ _ Ek). exact (Hm _ _ _ Em).
Qed.

Lemma keeps_arg i : keeps_args (arg i).
Proof.
  intros h a h'. unfold arg. destruct (h_args h !! i); [|discriminate].
  intros [= _ <-]; reflexivity.
Qed.

Lemma keeps_put_out s : keeps_args (put_out s).
Proof. intros h a h' [= _ <-]; reflexivity. Qed.

Lemma keeps_put_err s : keeps_args (put_err s).
Proof. intros h a h' [= _ <-]; reflexivity. Qed.

Lemma keeps_printf_s p : keeps_args (printf_s p).
Proof. destruct p; [apply keeps_put_out|apply keeps_raise]. Qed.

Lemma keeps_get_cwd : keeps_args get_cwd.
Proof. intros h a h' [= _ <-]; reflexivity. Qed.

Lemma keeps_set_cwd d : keeps_args (set_cwd d).
Proof. intros h a h' [= _ <-]; reflexivity. Qed.

Lemma keeps_args_size : keeps_args args_size.
Proof. intros h a h' [= _ <-]; reflexivity. Qed.

Create HintDb keeps discriminated.
#[local] Hint Resolve keeps_ret keeps_raise keeps_arg keeps_put_out
  keeps_put_err keeps_printf_s keeps_get_cwd keeps_set_cwd keeps_args_size
  : keeps.

(** Splits a [keeps_args] goal along the binds and matches of the code. *)
Ltac keeps_tac :=
  repeat first
    [ solve [eauto with keeps]
    | lazymatch goal with
      | |- keeps_args (bind _ _) => apply keeps_bind; [|intros ?]
      | |- keeps_args (match ?x with _ => _ end) => destruct x
      | |- keeps_args (if ?x then _ else _) => destruct x
      end ].

Section Frames.
Variable E : env.

Lemma keeps_perror tag e : keeps_args (perror E tag e).
Proof. apply keeps_put_err. Qed.

Lemma keeps_chdir p : keeps_args (chdir E p).
Proof. unfold chdir. keeps_tac. Qed.

#[local] Hint Resolve keeps_perror keeps_chdir : keeps.

Lemma keeps_lsh_cd : keeps_args (lsh_cd E).
Proof. unfold lsh_cd. keeps_tac. Qed.

Lemma keeps_lsh_pwd : keeps_args (lsh_pwd E).
Proof. unfold lsh_pwd. keeps_tac. Qed.

Lemma keeps_echo_loop fuel i : keeps_args (echo_loop E fuel i).
Proof.
  revert i; induction fuel as [|fuel IH]; intros i; simpl; keeps_tac.
Qed.

#[local] Hint Resolve keeps_echo_loop : keeps.

Lemma keeps_lsh_echo : keeps_args (lsh_echo E).
Proof. unfold lsh_echo. keeps_tac. Qed.

Lemma keeps_count_args fuel len : keeps_args (count_args fuel len).
Proof.
  revert len; induction fuel as [|fuel IH]; intros len; simpl; keeps_tac.
Qed.

#[local] Hint Resolve keeps_count_args : keeps.

Lemma keeps_args_len : keeps_args args_len.
Proof. unfold args_len. keeps_tac. Qed.

Lemma keeps_cat_loop n i : keeps_args (cat_loop E n i).
Proof.
  revert i; induction n as [|n IH]; intros i; simpl; keeps_tac.
Qed.

#[local] Hint Resolve keeps_args_len keeps_cat_loop : keeps.

Lemma keeps_lsh_cat : keeps_args (lsh_cat E).
Proof. unfold lsh_cat. keeps_tac. Qed.

Lemma keeps_lsh_help : keeps_args lsh_help.
Proof. unfold lsh_help. keeps_tac. Qed.

Lemma keeps_lsh_exit : keeps_args lsh_exit.
Proof. apply keeps_ret. Qed.

End Frames.

(** ** The exchange sort on strings *)

#[local] Instance le_str_trans : Transitive le_str.
Proof. intros a b c; apply strcmp_le_trans. Qed.

Lemma swap_if_length i j l : length (swap_if i j l) = length l.
Proof.
  unfold swap_if. destruct (l !! i), (l !! j); try reflexivity.
  destruct (0 <? _); [|reflexivity]. now rewrite !length_insert.
Qed.

Lemma swap_if_perm i j l : swap_if i j l ≡ₚ l.
Proof.
  unfold swap_if. destruct (l !! i) eqn:Hi, (l !! j) eqn:Hj; try reflexivity.
  destruct (0 <? _); [|reflexivity]. now apply Permutation_insert_swap.
Qed.

Lemma swap_if_take i j l : (i <= j)%nat -> take i (swap_if i j l) = take i l.
Proof.
  intros Hij. unfold swap_if.
  destruct (l !! i), (l !! j); try reflexivity.
  destruct (0 <? _); [|reflexivity].
  rewrite !take_insert_ge by lia. reflexivity.
Qed.

Lemma swap_if_drop i j l : (i <= j)%nat -> drop i (swap_if i j l) ≡ₚ drop i l.
Proof.
  intros Hij. unfold swap_if.
  destruct (l !! i) as [x|] eqn:Hi, (l !! j) as [y|] eqn:Hj; try reflexivity.
  destruct (0 <? _); [|reflexivity].
  rewrite !drop_insert_ge by lia.
  apply Permutation_insert_swap; rewrite lookup_drop.
  - now replace (i + (i - i))%nat with i by lia.
  - now replace (i + (j - i))%nat with j by lia.
Qed.

(** After the exchange the cell [i] is below the cell [j], and below what
    it held before. *)
Lemma swap_if_lookup i j l x y :
  i <> j -> l !! i = Some x -> l !! j = Some y ->
  exists x' y', swap_if i j l !! i = Some x' /\ swap_if i j l !! j = Some y'
    /\ le_str x' y' /\ le_str x' x
    /\ forall k, k <> i -> k <> j -> swap_if i j l !! k = l !! k.
Proof.
  intros Hne Hi Hj. unfold swap_if. rewrite Hi, Hj.
  pose proof (lookup_lt_Some _ _ _ Hi). pose proof (lookup_lt_Some _ _ _ Hj).
  destruct (Z.ltb_spec 0 (strcmp x y)) as [Hgt|Hle].
  - exists y, x. repeat split.
    + rewrite list_lookup_insert_ne by auto.
      now rewrite list_lookup_insert_eq.
    + rewrite list_lookup_insert_eq; [reflexivity|now rewrite length_insert].
    + now apply strcmp_gt_flip.
    + now apply strcmp_gt_flip.
    + intros k Hki Hkj. now rewrite !list_lookup_insert_ne by auto.
  - exists x, y. repeat split; auto.
    unfold le_str. rewrite strcmp_refl. lia.
Qed.

(** One inner pass from [j]: the cell [i] ends below every cell after it. *)
Lemma inner_pass_spec n i j l :
  (i < j)%nat -> (j + n = length l)%nat ->
  (forall k x y, (i < k < j)%nat -> l !! i = Some x -> l !! k = Some y ->
                 le_str x y) ->
  let l' := inner_pass n i j l in
  length l' = length l /\ take i l' = take i l /\ drop i l' ≡ₚ drop i l
  /\ forall k x y, (i < k)%nat -> l' !! i = Some x -> l' !! k = Some y ->
                   le_str x y.
Proof.
  revert j l; induction n as [|n IH]; intros j l Hij Hlen Hinv; simpl.
  - repeat split; auto. intros k x y Hk Hx Hy.
    apply (Hinv k); auto. pose proof (lookup_lt_Some _ _ _ Hy). lia.
  - destruct (lookup_lt_is_Some_2 l i) as [x Hx]; [lia|].
    destruct (lookup_lt_is_Some_2 l j) as [y Hy]; [lia|].
    destruct (swap_if_lookup i j l x y) as (x' & y' & Hi' & Hj' & Hxy & Hxx & Hoth);
      auto; [lia|].
    destruct (IH (S j) (swap_if i j l)) as (Hl & Ht & Hd & Hmin).
    + lia.
    + rewrite swap_if_length. lia.
    + intros k a b Hk Ha Hb. rewrite Hi' in Ha. injection Ha as <-.
      destruct (decide (k = j)) as [->|Hkj].
      * rewrite Hj' in Hb. now injection Hb as <-.
      * rewrite Hoth in Hb by lia.
        transitivity x; [exact Hxx|]. apply (Hinv k); auto. lia.
    + repeat split.
      * now rewrite Hl, swap_if_length.
      * rewrite Ht. apply swap_if_take. lia.
      * rewrite Hd. apply swap_if_drop. lia.
      * exact Hmin.
Qed.

Lemma outer_pass_spec n i l :
  (i + n = length l)%nat -> settled i l ->
  let l' := outer_pass n i l in
  length l' = length l /\ l' ≡ₚ l /\ settled (length l) l'.
Proof.
  revert i l; induction n as [|n IH]; intros i l Hlen Hs; simpl.
  - repeat split; auto. now replace (length l) with i by lia.
  - destruct (inner_pass_spec (length l - S i) i (S i) l) as (Hl & Ht & Hd & Hmin).
    + lia.
    + lia.
    + intros k x y Hk. lia.
    + set (l1 := inner_pass (length l - S i) i (S i) l) in *.
      destruct (IH (S i) l1) as (Hl' & Hp' & Hs').
      * lia.
      * intros p q x y Hp Hq Hx Hy.
        destruct (decide (p = i)) as [->|Hpi]; [now apply (Hmin q)|].
        assert (Hx0 : l !! p = Some x).
        { rewrite <- (lookup_take_lt l i p), <- Ht, lookup_take_lt by lia.
          exact Hx. }
        destruct (decide (q < i)%nat) as [Hqi|Hqi].
        -- apply (Hs p q); auto; [lia|].
           rewrite <- (lookup_take_lt l i q), <- Ht, lookup_take_lt by lia.
           exact Hy.
        -- assert (Hin : y ∈ drop i l).
           { rewrite <- Hd. apply (list_elem_of_lookup_2 _ (q - i)).
             rewrite lookup_drop. now replace (i + (q - i))%nat with q by lia. }
           apply list_elem_of_lookup_1 in Hin as [q' Hq'].
           rewrite lookup_drop in Hq'.
           apply (Hs p (i + q')%nat); auto; lia.
      * repeat split.
        -- lia.
        -- rewrite Hp'. rewrite <- (take_drop i l1), <- (take_drop i l) at 1.
           now rewrite Ht, Hd.
        -- now rewrite <- Hl.
Qed.

Lemma settled_sorted l : settled (length l) l -> StronglySorted le_str l.
Proof.
  induction l as [|x l IH]; intros Hs; constructor.
  - apply IH. intros p q a b Hp Hq Ha Hb.
    apply (Hs (S p) (S q)); simpl; auto; lia.
  - apply Forall_forall. intros y [q Hq]%list_elem_of_lookup_1.
    apply (Hs O (S q)); simpl; auto; lia.
Qed.

(** The exchange sort returns its input in ascending order. *)
Lemma exchange_sort_spec l :
  exchange_sort l ≡ₚ l /\ StronglySorted le_str (exchange_sort l)
  /\ length (exchange_sort l) = length l.
Proof.
  unfold exchange_sort.
  destruct (outer_pass_spec (length l) O l) as (Hl & Hp & Hs).
  - lia.
  - intros p q x y Hp; lia.
  - repeat split; auto. apply settled_sorted. now rewrite Hl.
Qed.

(** ** The sort built-in *)

Lemma with_args_same h : with_args h (h_args h) = h.
Proof. now destruct h. Qed.

Lemma arr_lookup c0 l rest i x :
  l !! i = Some x -> arr c0 l rest !! S i = Some (Some x).
Proof.
  intros Hi. unfold arr. simpl.
  rewrite lookup_app_l by (rewrite length_fmap; eauto using lookup_lt_Some).
  now rewrite list_lookup_fmap, Hi.
Qed.

Lemma arr_insert c0 l rest i x :
  (i < length l)%nat ->
  <[S i:=Some x]> (arr c0 l rest) = arr c0 (<[i:=x]> l) rest.
Proof.
  intros Hi. unfold arr. simpl.
  rewrite insert_app_l by now rewrite length_fmap.
  now rewrite list_fmap_insert.
Qed.

Lemma arr_length c0 l rest :
  length (arr c0 l rest) = S (length l + length rest).
Proof. unfold arr. simpl. now rewrite length_app, length_fmap. Qed.

Lemma set_arg_ok i c h :
  (i < length (h_args h))%nat ->
  set_arg i c h = Ok (tt, with_args h (<[i:=c]> (h_args h))).
Proof. intros Hi. unfold set_arg. now rewrite decide_True. Qed.

Lemma bind_Ok {S A B} (m : St S A) (k : A -> St S B) h a h' :
  m h = Ok (a, h') -> bind m k h = k a h'.
Proof. intros Hm. unfold bind. now rewrite Hm. Qed.

Lemma arg_Ok h i c : h_args h !! i = Some c -> arg i h = Ok (c, h).
Proof. intros Hi. unfold arg. now rewrite Hi. Qed.

Lemma arg_arr h c0 l rest i x :
  h_args h = arr c0 l rest -> l !! i = Some x -> arg (S i) h = Ok (Some x, h).
Proof. intros Ha Hi. apply arg_Ok. rewrite Ha. now apply arr_lookup. Qed.

Lemma cmp_swap_arr h c0 l rest i j :
  h_args h = arr c0 l rest -> (i < length l)%nat -> (j < length l)%nat ->
  cmp_swap (S i) (S j) h = Ok (tt, with_args h (arr c0 (swap_if i j l) rest)).
Proof.
  intros Ha Hi Hj.
  destruct (lookup_lt_is_Some_2 l i Hi) as [x Hx].
  destruct (lookup_lt_is_Some_2 l j Hj) as [y Hy].
  unfold cmp_swap, swap_if.
  rewrite (bind_Ok _ _ _ _ _ (arg_arr _ _ _ _ _ _ Ha Hx)).
  rewrite (bind_Ok _ _ _ _ _ (arg_arr _ _ _ _ _ _ Ha Hy)).
  rewrite Hx, Hy.
  destruct (0 <? strcmp x y).
  - erewrite bind_Ok by (apply set_arg_ok; rewrite Ha, arr_length; lia).
    rewrite set_arg_ok
      by (simpl; rewrite length_insert, Ha, arr_length; lia).
    simpl. rewrite Ha, !arr_insert by (rewrite ?length_insert; lia).
    reflexivity.
  - unfold ret. now rewrite <- Ha, with_args_same.
Qed.

Lemma sort_inner_arr n h c0 l rest i j :
  h_args h = arr c0 l rest -> (i < length l)%nat -> (j + n <= length l)%nat ->
  sort_inner n (S i) (S j) h
  = Ok (tt, with_args h (arr c0 (inner_pass n i j l) rest)).
Proof.
  revert h l j; induction n as [|n IH]; intros h l j Ha Hi Hj; simpl.
  - unfold ret. now rewrite <- Ha, with_args_same.
  - rewrite (bind_Ok _ _ _ _ _ (cmp_swap_arr h c0 l rest i j Ha Hi ltac:(lia))).
    rewrite (IH _ (swap_if i j l)); try reflexivity;
      rewrite ?swap_if_length; lia.
Qed.

Lemma inner_pass_length n i j l : length (inner_pass n i j l) = length l.
Proof.
  revert j l; induction n as [|n IH]; intros j l; simpl; [reflexivity|].
  now rewrite IH, swap_if_length.
Qed.

Lemma sort_outer_arr n h c0 l rest i :
  h_args h = arr c0 l rest -> (i + n <= length l)%nat ->
  sort_outer n (S (length l)) (S i) h
  = Ok (tt, with_args h (arr c0 (outer_pass n i l) rest)).
Proof.
  revert h l i; induction n as [|n IH]; intros h l i Ha Hi; simpl.
  - unfold ret. now rewrite <- Ha, with_args_same.
  - erewrite bind_Ok by (apply (sort_inner_arr _ h c0 l rest); auto; lia).
    pose proof (inner_pass_length (length l - S i) i (S i) l) as Hl.
    rewrite <- Hl at 1.
    rewrite (IH _ (inner_pass (length l - S i) i (S i) l)); try reflexivity.
    lia.
Qed.

(** Counting stops at the first null cell. *)
Lemma count_args_arr fuel h pre l rest k :
  h_args h = (pre ++ (Some <$> l) ++ None :: rest)%list -> k = length pre ->
  (length l < fuel)%nat ->
  count_args fuel k h = Ok ((k + length l)%nat, h).
Proof.
  revert pre l k; induction fuel as [|fuel IH]; intros pre l k Ha -> Hf;
    [lia|].
  simpl. destruct l as [|x l]; simpl in *.
  - erewrite bind_Ok
      by (apply arg_Ok; rewrite Ha; now apply list_lookup_middle).
    unfold ret. now rewrite Nat.add_0_r.
  - erewrite bind_Ok
      by (apply arg_Ok; rewrite Ha; now apply list_lookup_middle).
    cbv beta iota.
    rewrite (IH (pre ++ [Some x])%list l (S (length pre))).
    + f_equal. f_equal. lia.
    + rewrite Ha. now rewrite <- app_assoc.
    + rewrite length_app. simpl. lia.
    + simpl in Hf. lia.
Qed.

Lemma args_len_arr h name l rest :
  h_args h = arr (Some name) l (None :: rest) ->
  args_len h = Ok (S (length l), h).
Proof.
  intros Ha. unfold args_len.
  erewrite bind_Ok by reflexivity.
  rewrite (count_args_arr _ h [] (name :: l) rest O); auto.
  rewrite Ha, arr_length. simpl. lia.
Qed.

Lemma string_app_cons x (a b : string) : String x a ++ b = String x (a ++ b).
Proof. reflexivity. Qed.

Lemma string_app_assoc (a b c : string) : (a ++ b) ++ c = a ++ (b ++ c).
Proof.
  induction a as [|x a IH]; [reflexivity|].
  rewrite !string_app_cons. f_equal. exact IH.
Qed.

Lemma string_app_nil_r (a : string) : a ++ EmptyString = a.
Proof.
  induction a as [|x a IH]; [reflexivity|].
  rewrite string_app_cons. f_equal. exact IH.
Qed.

Lemma sort_print_arr h c0 pre l rest :
  h_args h = arr c0 (pre ++ l)%list rest ->
  sort_print (length l) (S (length pre)) h
  = Ok (tt, with_out h (h_out h ++ numbered (S (length pre)) l)).
Proof.
  revert h pre; induction l as [|x l IH]; intros h pre Ha; simpl.
  - unfold ret. rewrite string_app_nil_r. now destruct h.
  - erewrite bind_Ok
      by (eapply arg_arr; [exact Ha|now apply list_lookup_middle]).
    erewrite bind_Ok by reflexivity.
    assert (Hlen : S (S (length pre)) = S (length (pre ++ [x])%list))
      by (rewrite length_app; simpl; lia).
    rewrite Hlen, IH by (simpl; rewrite Ha, <- app_assoc; reflexivity).
    rewrite <- Hlen. unfold with_out; simpl.
    now rewrite !string_app_assoc.
Qed.

Lemma sort_finish h name l rest :
  h_args h = arr (Some name) l (None :: rest) ->
  (len <- args_len ;;
   sort_outer (len - 1) len 1 ;;;
   sort_print (len - 1) 1 ;;;
   ret 1) h
  = Ok (1, sorted_state h name l rest).
Proof.
  intros Ha.
  erewrite bind_Ok by (apply (args_len_arr _ name l rest); exact Ha).
  replace (S (length l) - 1)%nat with (length l) by lia.
  erewrite bind_Ok
    by (apply (sort_outer_arr _ h (Some name) l (None :: rest) O); auto; lia).
  fold (exchange_sort l).
  destruct (exchange_sort_spec l) as (_ & _ & Hlen).
  rewrite <- Hlen at 1.
  erewrite bind_Ok
    by (apply (sort_print_arr _ (Some name) [] (exchange_sort l) (None :: rest));
        reflexivity).
  reflexivity.
Qed.

(** With arguments, [lsh_sort] sorts and prints them. *)
Lemma lsh_sort_args h name x l rest :
  h_args h = arr (Some name) (x :: l) (None :: rest) ->
  lsh_sort h = Ok (1, sorted_state h name (x :: l) rest).
Proof.
  intros Ha. unfold lsh_sort.
  erewrite bind_Ok by (eapply (arg_arr _ _ _ _ O); [exact Ha|reflexivity]).
  erewrite bind_Ok by reflexivity.
  now apply sort_finish.
Qed.

Lemma fgets_aux_line k l rest :
  plain l = true -> (String.length l < k)%nat ->
  fgets_aux k (l ++ nl ++ rest) = (l ++ nl, rest).
Proof.
  revert k; induction l as [|c l IH]; intros k Hp Hk.
  - destruct k; [simpl in Hk; lia|reflexivity].
  - destruct k; [simpl in Hk; lia|].
    simpl in Hp. apply andb_true_iff in Hp as [Hc Hp].
    apply andb_true_iff in Hc as [Hc _].
    rewrite !string_app_cons. simpl.
    destruct (Ascii.eqb c "010"); [discriminate|].
    rewrite IH; [reflexivity|exact Hp|simpl in Hk; lia].
Qed.

Lemma line_of_line l : plain l = true -> line_of (l ++ nl) = l.
Proof.
  induction l as [|c l IH]; intros Hp; [reflexivity|].
  simpl in Hp. apply andb_true_iff in Hp as [Hc Hp].
  apply andb_true_iff in Hc as [Hc1 Hc2].
  rewrite string_app_cons. simpl.
  destruct (Ascii.eqb c "010"); [discriminate|].
  destruct (Ascii.eqb c NUL); [discriminate|].
  simpl. f_equal. now apply IH.
Qed.

Lemma fgets_aux_tail k tl :
  plain tl = true -> (String.length tl < k)%nat ->
  fgets_aux k tl = (tl, EmptyString).
Proof.
  revert k; induction tl as [|c tl IH]; intros k Hp Hk.
  - destruct k; reflexivity.
  - destruct k; [simpl in Hk; lia|].
    simpl in Hp. apply andb_true_iff in Hp as [Hc Hp].
    apply andb_true_iff in Hc as [Hc _].
    simpl. destruct (Ascii.eqb c "010"); [discriminate|].
    rewrite IH; [reflexivity|exact Hp|simpl in Hk; lia].
Qed.

Lemma line_of_plain tl : plain tl = true -> line_of tl = tl.
Proof.
  induction tl as [|c tl IH]; intros Hp; [reflexivity|].
  simpl in Hp. apply andb_true_iff in Hp as [Hc Hp].
  apply andb_true_iff in Hc as [Hc1 Hc2].
  simpl. destruct (Ascii.eqb c "010"); [discriminate|].
  destruct (Ascii.eqb c NUL); [discriminate|].
  simpl. f_equal. now apply IH.
Qed.

Lemma feed_cons_nonempty l r : exists c t, l ++ nl ++ r = String c t.
Proof. destruct l; eexists _, _; reflexivity. Qed.

Lemma arr_insert_next c0 done l cell cells :
  <[S (length done):=Some l]> (arr c0 done (cell :: cells))
  = arr c0 (done ++ [l]) cells.
Proof.
  unfold arr. simpl. rewrite fmap_app, <- app_assoc. simpl. f_equal.
  rewrite <- (length_fmap Some done) at 1.
  rewrite <- (Nat.add_0_r (length (Some <$> done))).
  now rewrite insert_app_r.
Qed.

Lemma fgets_end n h : h_in h = EmptyString -> fgets n h = Ok (None, h).
Proof. intros Hin. unfold fgets. now rewrite Hin. Qed.

(** The reading loop at the end of the input, the last line missing its
    newline or not. *)
Lemma sort_read_tail tl : forall fuel bufsize h c0 done cells,
  h_args h = arr c0 done cells -> h_in h = tl ->
  Forall short_line (last_line tl) ->
  (length (last_line tl) <= length cells)%nat ->
  (length (last_line tl) < fuel)%nat ->
  (LSH_RL_BUFSIZE <= bufsize)%nat ->
  sort_read fuel bufsize (S (length done)) h
  = Ok (tt, {| h_cwd := h_cwd h;
               h_args := arr c0 (done ++ last_line tl)
                           (drop (length (last_line tl)) cells);
               h_in := EmptyString; h_out := h_out h; h_err := h_err h |}).
Proof.
  intros fuel bufsize h c0 done cells Ha Hin Hs Hc Hf Hb.
  destruct fuel as [|fuel]; [lia|]. cbn [sort_read].
  destruct tl as [|c t].
  - rewrite (bind_Ok _ _ _ _ _ (fgets_end _ _ Hin)). unfold ret.
    cbn [last_line length drop]. rewrite app_nil_r.
    destruct h; simpl in *; now subst.
  - cbn [last_line length] in *.
    apply Forall_cons in Hs as [[Hp Hl] _].
    unfold bind at 1. unfold fgets. rewrite Hin.
    rewrite fgets_aux_tail by (auto; unfold LSH_RL_BUFSIZE in *; lia).
    rewrite line_of_plain by exact Hp.
    destruct cells as [|cell cells]; [simpl in Hc; lia|].
    erewrite bind_Ok
      by (apply set_arg_ok; simpl; rewrite Ha, arr_length; simpl; lia).
    destruct fuel as [|fuel]; [lia|]. cbn [sort_read].
    erewrite bind_Ok by (apply fgets_end; reflexivity).
    unfold ret. cbn [h_cwd h_args h_in h_out h_err with_args drop].
    now rewrite Ha, arr_insert_next.
Qed.

(** The reading loop stores the lines of the input in the cells that
    follow the strings already there. *)
Lemma sort_read_lines ls tl : forall fuel bufsize h c0 done cells,
  h_args h = arr c0 done cells -> h_in h = feed ls ++ tl ->
  Forall short_line (lines_of ls tl) ->
  (length (lines_of ls tl) <= length cells)%nat ->
  (length (lines_of ls tl) < fuel)%nat ->
  (LSH_RL_BUFSIZE <= bufsize)%nat ->
  sort_read fuel bufsize (S (length done)) h
  = Ok (tt, {| h_cwd := h_cwd h;
               h_args := arr c0 (done ++ lines_of ls tl)
                           (drop (length (lines_of ls tl)) cells);
               h_in := EmptyString; h_out := h_out h; h_err := h_err h |}).
Proof.
  unfold lines_of.
  induction ls as [|l ls IH];
    intros fuel bufsize h c0 done cells Ha Hin Hs Hc Hf Hb.
  - now apply sort_read_tail.
  - destruct fuel as [|fuel]; [simpl in Hf; lia|]. cbn [sort_read].
    cbn [app] in Hs. apply Forall_cons in Hs as [[Hp Hl] Hs].
    cbn [feed] in Hin. rewrite !string_app_assoc in Hin.
    unfold bind at 1. unfold fgets. rewrite Hin.
    destruct (feed_cons_nonempty l (feed ls ++ tl)) as (c & t & Hct).
    rewrite Hct, <- Hct.
    rewrite fgets_aux_line by (auto; unfold LSH_RL_BUFSIZE in *; lia).
    rewrite line_of_line by exact Hp.
    destruct cells as [|cell cells]; [simpl in Hc; lia|].
    erewrite bind_Ok
      by (apply set_arg_ok; simpl; rewrite Ha, arr_length; simpl; lia).
    assert (Hlen : S (S (length done)) = S (length (done ++ [l])%list))
      by (rewrite length_app; simpl; lia).
    rewrite Hlen.
    rewrite (IH fuel _ _ c0 (done ++ [l])%list cells);
      [|simpl; rewrite Ha; apply arr_insert_next|reflexivity|exact Hs
       |simpl in Hc; lia|simpl in Hf; lia|].
    + simpl. now rewrite <- app_assoc.
    + destruct (decide _); lia.
Qed.

(** Without arguments, [lsh_sort] reads its input into the array and
    sorts what the array then holds up to its first null cell: the lines
    of the input, and the strings [stale] that were behind them already. *)
Lemma lsh_sort_stdin h name junk ls tl stale junk' :
  h_args h = arr (Some name) [] (None :: junk) -> h_in h = feed ls ++ tl ->
  Forall short_line (lines_of ls tl) ->
  drop (length (lines_of ls tl)) (None :: junk)
  = ((Some <$> stale) ++ None :: junk')%list ->
  lsh_sort h
  = Ok (1, sorted_state
             {| h_cwd := h_cwd h; h_args := h_args h; h_in := EmptyString;
                h_out := h_out h; h_err := h_err h |}
             name (lines_of ls tl ++ stale) junk').
Proof.
  intros Ha Hin Hs Hd. unfold lsh_sort.
  erewrite bind_Ok by (apply arg_Ok; rewrite Ha; reflexivity).
  assert (Hlen : (length (lines_of ls tl) < length (None :: junk))%nat).
  { apply (f_equal length) in Hd.
    rewrite length_drop, length_app in Hd. simpl in *. lia. }
  erewrite bind_Ok.
  2:{ erewrite bind_Ok by reflexivity.
      apply (sort_read_lines ls tl _ _ h (Some name) [] (None :: junk));
        auto; try (exact (Nat.lt_le_incl _ _ Hlen)); try lia.
      rewrite Ha, arr_length. simpl in *. lia. }
  rewrite sort_finish
    with (name := name) (l := (lines_of ls tl ++ stale)%list) (rest := junk').
  - reflexivity.
  - cbn [h_args]. rewrite Hd. unfold arr. rewrite app_nil_l.
    now rewrite fmap_app, <- app_assoc.
Qed.

(** C8, as the code has it.  With arguments, they are printed in
    ascending order of [strcmp], numbered from 1.  Without arguments, the
    lines of the input are (lines without NUL of at most 1022 bytes),
    provided the cell after the last stored line is null.  And [echo a b
    c] writes one line, so that [sort] reading it prints the single line
    [[1]: a b c]. *)
Theorem lsh_sort_prints_sorted E :
  (forall h name x l rest,
     h_args h = arr (Some name) (x :: l) (None :: rest) ->
     exists ys h',
       lsh_sort h = Ok (1, h') /\ ys ≡ₚ x :: l /\ StronglySorted le_str ys
       /\ h_out h' = h_out h ++ numbered 1 ys)
  /\ (forall h name junk ls tl,
        h_args h = arr (Some name) [] (None :: junk) ->
        h_in h = feed ls ++ tl ->
        Forall short_line (lines_of ls tl) ->
        (None :: junk) !! length (lines_of ls tl) = Some None ->
        exists ys h',
          lsh_sort h = Ok (1, h') /\ ys ≡ₚ lines_of ls tl
          /\ StronglySorted le_str ys
          /\ h_out h' = h_out h ++ numbered 1 ys /\ h_in h' = EmptyString)
  /\ (forall d i rest junk,
        exists h1 h2,
          lsh_echo E (fresh d (arr (Some "echo") ["a"; "b"; "c"] (None :: rest)) i)
          = Ok (1, h1)
          /\ h_out h1 = "a b c" ++ nl
          /\ lsh_sort (fresh d (arr (Some "sort") [] (None :: None :: junk))
                         (h_out h1)) = Ok (1, h2)
          /\ h_out h2 = "[1]: a b c" ++ nl).
Proof.
  split; [|split].
  - intros h name x l rest Ha.
    destruct (exchange_sort_spec (x :: l)) as (Hp & Hs & _).
    exists (exchange_sort (x :: l)). eexists.
    split; [exact (lsh_sort_args h name x l rest Ha)|]. auto.
  - intros h name junk ls tl Ha Hin Hs Hn.
    destruct (exchange_sort_spec (lines_of ls tl)) as (Hp & Hss & _).
    eexists (exchange_sort (lines_of ls tl)), _.
    split; [|split; [exact Hp|split; [exact Hss|]]].
    + pose proof (lsh_sort_stdin h name junk ls tl [] _ Ha Hin Hs
                    (drop_S _ _ _ Hn)) as Hrun.
      rewrite app_nil_r in Hrun. exact Hrun.
    + split; reflexivity.
  - intros d i rest junk. eexists _, _. split; [reflexivity|].
    split; [reflexivity|]. split.
    + apply (lsh_sort_stdin _ "sort" (None :: junk) ["a b c"] EmptyString
               [] junk); try reflexivity.
      constructor; [|constructor]. split; [reflexivity|].
      apply Nat.ltb_lt. reflexivity.
    + reflexivity.
Qed.

Lemma lsh_sort_prints_sorted_witness :
  exists ys h',
    lsh_sort (fresh "/" [Some "sort"; Some "pear"; Some "fig"; Some "kiwi"; None]
                EmptyString) = Ok (1, h')
    /\ ys ≡ₚ ["pear"; "fig"; "kiwi"] /\ StronglySorted le_str ys
    /\ h_out h' = EmptyString ++ numbered 1 ys.
Proof.
  exact (proj1 (lsh_sort_prints_sorted lab)
           (fresh "/" [Some "sort"; Some "pear"; Some "fig"; Some "kiwi"; None]
              EmptyString)
           "sort" "pear" ["fig"; "kiwi"] [] eq_refl).
Defined.

(** C8 as stated fails.  On its example: [echo a b c] piped into [sort],
    typed into a shell whose token array has nothing behind the tokens,
    prints the one line [[1]: a b c].  On a stage followed by another, as
    [sort] is in [echo b | sort | cat f]: the cells behind the stored line
    hold the next stage's tokens, which are sorted and printed with it.  On a line of 1023 bytes: [fgets]
    returns it in two pieces.  On a line with a NUL byte: what follows the
    NUL is lost. *)
Lemma echo_sort_counterexample :
  (exists s',
     lsh_execute lab
       (booted "/" (lsh_split_line lab "echo a b c | sort") EmptyString)
     = Ok (1, s')
     /\ w_out (s_world s') = "[1]: a b c" ++ nl)
  /\ (exists h',
        lsh_sort
          (fresh "/"
             (drop 3 ((cut <$> ["echo"; "b"; "|"; "sort"; "|"; "cat"; "f"])
                      ++ [None])%list)
             ("b" ++ nl)) = Ok (1, h')
        /\ h_out h' = "[1]: b" ++ nl ++ "[2]: cat" ++ nl ++ "[3]: f" ++ nl)
  /\ (exists h',
        lsh_sort (fresh "/" [Some "sort"; None; None; None]
                    (bytes 1023 "a" ++ nl)) = Ok (1, h')
        /\ h_out h' = "[1]: " ++ nl ++ "[2]: " ++ bytes 1023 "a" ++ nl)
  /\ (exists h',
        lsh_sort (fresh "/" [Some "sort"; None; None]
                    (String "a" (String NUL (String "b" nl)))) = Ok (1, h')
        /\ h_out h' = "[1]: a" ++ nl).
Proof.
  repeat split; eexists; (split; [vm_compute; reflexivity|]);
    vm_compute; reflexivity.
Qed.

(** ** change-directory *)

(** [lsh_cd] hands element 0 of its arguments, the command name, to
    [chdir]; no other cell is read. *)
Lemma lsh_cd_uses_name E h name :
  h_args h !! O = Some (Some name) ->
  lsh_cd E h
  = match sys_chdir E (h_cwd h) name with
    | inr d => Ok (1, {| h_cwd := d; h_args := h_args h; h_in := h_in h;
                         h_out := h_out h; h_err := h_err h |})
    | inl e => Ok (1, {| h_cwd := h_cwd h; h_args := h_args h; h_in := h_in h;
                         h_out := h_out h;
                         h_err := h_err h ++ "lsh: " ++ strerror E e ++ nl |})
    end.
Proof.
  intros H0. unfold lsh_cd.
  rewrite (bind_Ok _ _ _ _ _ (arg_Ok _ _ _ H0)).
  unfold bind, chdir, bind, get_cwd.
  destruct (sys_chdir E (h_cwd h) name); reflexivity.
Qed.

(** C3, at the failing input: [cd /tmp] run from [/] on a machine where
    [/tmp] exists and no directory is called [cd].  The handler asks for
    the directory [cd], reports the failure and stays in [/]. *)
Theorem lsh_cd_tmp_not_entered :
  exists h',
    lsh_cd lab (fresh "/" [Some "cd"; Some "/tmp"; None] EmptyString) = Ok (1, h')
    /\ h_cwd h' = "/"
    /\ h_err h' = "lsh: No such file or directory" ++ nl
    /\ sys_chdir lab "/" "/tmp" = inr "/tmp".
Proof. eexists. repeat split. Qed.

(** ** echo *)

Lemma arr_lookup_end c0 l c rest : arr c0 l (c :: rest) !! S (length l) = Some c.
Proof.
  unfold arr. simpl. rewrite <- (length_fmap Some l).
  now apply list_lookup_middle.
Qed.

Lemma with_out_same h : with_out h (h_out h) = h.
Proof. now destruct h. Qed.

Lemma printf_s_expand E x :
  (if is_dollar x then printf_s (getenv E (str_tail x)) else printf_s (Some x))
  = printf_s (expand E x).
Proof. unfold expand. now destruct (is_dollar x). Qed.

(** The loop of [lsh_echo] over arguments that all have a text. *)
Lemma echo_loop_prints E xs : forall ys fuel h c0 pre rest,
  h_args h = arr c0 (pre ++ xs)%list (None :: rest) ->
  Forall2 (fun x y => expand E x = Some y) xs ys ->
  (length xs < fuel)%nat ->
  echo_loop E fuel (S (length pre)) h
  = Ok (tt, with_out h (h_out h ++ echo_text ys)).
Proof.
  induction xs as [|x xs IH]; intros ys fuel h c0 pre rest Ha Hx Hf;
    (destruct fuel as [|fuel]; [simpl in Hf; lia|]);
    inversion Hx as [|? y ? ys' Hy Hxs]; subst; cbn [echo_loop].
  - erewrite bind_Ok.
    2:{ apply arg_Ok. rewrite Ha, app_nil_r. apply arr_lookup_end. }
    unfold ret. cbn [echo_text]. now rewrite string_app_nil_r, with_out_same.
  - erewrite bind_Ok
      by (eapply arg_arr; [exact Ha|now apply list_lookup_middle]).
    cbv beta iota. rewrite printf_s_expand, Hy.
    erewrite bind_Ok by reflexivity.
    assert (Hlen : S (length pre) = length (pre ++ [x])%list)
      by (rewrite length_app; simpl; lia).
    assert (Ha' : arr c0 (pre ++ x :: xs)%list (None :: rest)
                  = arr c0 ((pre ++ [x]) ++ xs)%list (None :: rest))
      by now rewrite <- app_assoc.
    replace (S (length pre) + 1)%nat with (S (length (pre ++ [x])%list))
      by (rewrite length_app; simpl; lia).
    destruct xs as [|x2 xs].
    + inversion Hxs; subst.
      erewrite bind_Ok.
      2:{ apply arg_Ok. cbn [h_args]. rewrite Ha, Ha', app_nil_r.
          apply arr_lookup_end. }
      erewrite bind_Ok by reflexivity.
      rewrite Hlen.
      rewrite (IH [] fuel _ c0 (pre ++ [x])%list rest);
        [|cbn [h_args]; rewrite Ha; exact Ha'|constructor|simpl in *; lia].
      unfold with_out. cbn [h_cwd h_args h_in h_out h_err echo_text].
      now rewrite !string_app_assoc.
    + inversion Hxs as [|? y2 ? ys2 Hy2 Hxs2]; subst.
      erewrite bind_Ok.
      2:{ eapply arg_arr; [cbn [h_args]; rewrite Ha; exact Ha'|].
          now apply list_lookup_middle. }
      erewrite bind_Ok by reflexivity.
      rewrite Hlen.
      rewrite (IH (y2 :: ys2) fuel _ c0 (pre ++ [x])%list rest);
        [|cbn [h_args]; rewrite Ha; exact Ha'|exact Hxs|simpl in *; lia].
      unfold with_out. cbn [h_cwd h_args h_in h_out h_err].
      cbn [echo_text]. now rewrite !string_app_assoc.
Qed.

(** [lsh_echo] prints its arguments separated by spaces and ended by a
    newline, an argument [$v] being replaced by the value of [v], when
    every such [v] is set. *)
Lemma lsh_echo_prints E h name xs ys rest :
  h_args h = arr (Some name) xs (None :: rest) ->
  Forall2 (fun x y => expand E x = Some y) xs ys ->
  lsh_echo E h = Ok (1, with_out h (h_out h ++ echo_text ys)).
Proof.
  intros Ha Hx. unfold lsh_echo.
  erewrite bind_Ok by (apply arg_Ok; rewrite Ha; reflexivity).
  cbv beta iota. erewrite bind_Ok by reflexivity.
  erewrite bind_Ok.
  2:{ apply (echo_loop_prints E xs ys _ h (Some name) [] rest Ha Hx).
      rewrite Ha, arr_length. lia. }
  reflexivity.
Qed.

(** The loop of [lsh_echo] when one of the arguments is a [$v] with [v]
    not set. *)
Lemma echo_loop_unset E xs : forall fuel h c0 pre rest,
  h_args h = arr c0 (pre ++ xs)%list (None :: rest) ->
  Exists (fun x => expand E x = None) xs ->
  (length xs < fuel)%nat ->
  echo_loop E fuel (S (length pre)) h = Fault NullString.
Proof.
  induction xs as [|x xs IH]; intros fuel h c0 pre rest Ha Hx Hf;
    [inversion Hx|].
  destruct fuel as [|fuel]; [simpl in Hf; lia|]. cbn [echo_loop].
  erewrite bind_Ok
    by (eapply arg_arr; [exact Ha|now apply list_lookup_middle]).
  cbv beta iota. rewrite printf_s_expand.
  destruct (expand E x) as [y|] eqn:Hy; [|reflexivity].
  apply Exists_cons in Hx as [Hx|Hx]; [congruence|].
  erewrite bind_Ok by reflexivity.
  assert (Hlen : S (length pre) = length (pre ++ [x])%list)
    by (rewrite length_app; simpl; lia).
  assert (Ha' : arr c0 (pre ++ x :: xs)%list (None :: rest)
                = arr c0 ((pre ++ [x]) ++ xs)%list (None :: rest))
    by now rewrite <- app_assoc.
  replace (S (length pre) + 1)%nat with (S (length (pre ++ [x])%list))
    by (rewrite length_app; simpl; lia).
  destruct xs as [|x2 xs]; [inversion Hx|].
  erewrite bind_Ok.
  2:{ eapply arg_arr; [cbn [h_args]; rewrite Ha; exact Ha'|].
      now apply list_lookup_middle. }
  erewrite bind_Ok by reflexivity.
  rewrite Hlen.
  apply (IH fuel _ c0 (pre ++ [x])%list rest);
    [cbn [h_args]; rewrite Ha; exact Ha'|exact Hx|simpl in *; lia].
Qed.

(** C7, at the failing inputs: an argument [$v] whose variable [v] is not
    set makes [getenv] return a null pointer, which [lsh_echo] passes to
    [printf]'s [%s]. *)
Theorem lsh_echo_unset_variable E h c xs rest v :
  h_args h = arr (Some c) xs (None :: rest) ->
  String "$"%char v ∈ xs ->
  getenv E v = None ->
  lsh_echo E h = Fault NullString.
Proof.
  intros Ha Hin Hv. unfold lsh_echo.
  erewrite bind_Ok by (apply arg_Ok; rewrite Ha; reflexivity).
  cbv beta iota. erewrite bind_Ok by reflexivity.
  unfold bind at 1.
  rewrite (echo_loop_unset E xs _ h (Some c) [] rest Ha);
    [reflexivity| |rewrite Ha, arr_length; lia].
  apply Exists_exists. exists (String "$"%char v). split; [exact Hin|].
  unfold expand. simpl. exact Hv.
Qed.

Lemma lsh_echo_unset_variable_witness :
  lsh_echo lab (fresh "/" [Some "echo"; Some "a"; Some "$NOPE"; None] EmptyString)
  = Fault NullString.
Proof.
  apply (lsh_echo_unset_variable lab _ "echo" ["a"; "$NOPE"] [] "NOPE");
    [reflexivity| |reflexivity].
  apply elem_of_cons. right. apply elem_of_cons. left. reflexivity.
Defined.

(** C10: with no argument after the command name [lsh_echo] prints
    nothing, not even a newline; and the branch for a null element 0 is
    never entered from [lsh_launch], which faults on such an array before
    it looks for a handler. *)
Theorem lsh_echo_no_arguments E :
  (forall h name,
     h_args h !! O = Some (Some name) -> h_args h !! 1%nat = Some None ->
     lsh_echo E h = Ok (1, h))
  /\ (forall off s,
        s_args s !! off = Some None -> lsh_launch E off s = Fault NullString)
  /\ (forall off s name,
        s_args s !! off = Some (Some name) -> strcmp name "echo" = 0 ->
        lsh_launch E off s = call_builtin (lsh_echo E) off s
        /\ drop off (s_args s) !! O = Some (Some name)).
Proof.
  split; [|split].
  - intros h name H0 H1. unfold lsh_echo.
    rewrite (bind_Ok _ _ _ _ _ (arg_Ok _ _ _ H0)).
    erewrite bind_Ok by reflexivity.
    unfold bind at 1. simpl echo_loop.
    rewrite (bind_Ok _ _ _ _ _ (arg_Ok _ _ _ H1)).
    reflexivity.
  - intros off s H0. unfold lsh_launch. now rewrite H0.
  - intros off s name H0 Hn. apply strcmp_eq in Hn as ->. split.
    + unfold lsh_launch. now rewrite H0.
    + rewrite lookup_drop, Nat.add_0_r. exact H0.
Qed.

Lemma lsh_echo_no_arguments_witness :
  lsh_echo lab (fresh "/" [Some "echo"; None] EmptyString)
  = Ok (1, fresh "/" [Some "echo"; None] EmptyString)
  /\ lsh_launch lab 1 (booted "/" [Some "echo"; None] EmptyString)
     = Fault NullString.
Proof.
  destruct (lsh_echo_no_arguments lab) as (Hecho & Hnull & _). split.
  - apply (Hecho _ "echo"); reflexivity.
  - apply Hnull. reflexivity.
Defined.

(** ** The engine: counters and dispatch *)

Lemma same_counts_refl w : same_counts w w.
Proof. repeat split. Qed.

Lemma same_counts_trans w1 w2 w3 :
  same_counts w1 w2 -> same_counts w2 w3 -> same_counts w1 w3.
Proof. unfold same_counts. intuition congruence. Qed.

Lemma ep_write_counts ep t w : same_counts w (ep_write ep t w).
Proof.
  destruct ep; repeat split; simpl; auto. now rewrite length_alter.
Qed.

Lemma ep_set_avail_counts ep t w : same_counts w (ep_set_avail ep t w).
Proof.
  destruct ep; repeat split; simpl; auto. now rewrite length_insert.
Qed.

Lemma fd_write_counts fds fd t w : same_counts w (fd_write fds fd t w).
Proof.
  unfold fd_write. destruct (fd_lookup fds fd);
    [apply ep_write_counts|apply same_counts_refl].
Qed.

Lemma fd_set_avail_counts fds fd t w : same_counts w (fd_set_avail fds fd t w).
Proof.
  unfold fd_set_avail. destruct (fd_lookup fds fd);
    [apply ep_set_avail_counts|apply same_counts_refl].
Qed.

(** A handler forks nothing, and changes neither the descriptors nor the
    cells before its own. *)
Lemma call_builtin_spec f off s r s' :
  call_builtin f off s = Ok (r, s') ->
  same_counts (s_world s) (s_world s') /\ s_fds s' = s_fds s
  /\ exists h', f {| h_cwd := s_cwd s; h_args := drop off (s_args s);
                    h_in := fd_avail (s_fds s) O (s_world s);
                    h_out := EmptyString; h_err := EmptyString |} = Ok (r, h')
                /\ s_cwd s' = h_cwd h'
                /\ s_args s' = (take off (s_args s) ++ h_args h')%list.
Proof.
  unfold call_builtin.
  destruct (f _) as [[r' h']|] eqn:Ef; [|discriminate].
  intros [= <- <-]. simpl. split; [|split; [reflexivity|]].
  - eapply same_counts_trans; [|apply fd_write_counts].
    eapply same_counts_trans; [|apply fd_write_counts].
    apply fd_set_avail_counts.
  - exists h'. auto.
Qed.

Lemma exec_child_spec E off name s :
  exists code w',
    exec_child E off name s = Ok (code, with_w s w')
    /\ same_counts (s_world s) w'.
Proof.
  unfold exec_child. destruct (sys_exec _ _ _ _) as [e|r].
  - eexists _, _. split; [reflexivity|]. apply fd_write_counts.
  - eexists _, _. split; [reflexivity|].
    eapply same_counts_trans; [|apply fd_write_counts].
    eapply same_counts_trans; [|apply fd_write_counts].
    apply fd_set_avail_counts.
Qed.

(** The table of built-ins, read as [lsh_launch] reads it. *)
Lemma find_builtin_cases E name f :
  find_builtin name builtin_str (builtin_func E) = Some f ->
  (name = "cd" /\ f = lsh_cd E) \/ (name = "cat" /\ f = lsh_cat E)
  \/ (name = "echo" /\ f = lsh_echo E) \/ (name = "help" /\ f = lsh_help)
  \/ (name = "exit" /\ f = lsh_exit) \/ (name = "pwd" /\ f = lsh_pwd E)
  \/ (name = "sort" /\ f = lsh_sort).
Proof.
  unfold builtin_str, builtin_func. simpl.
  repeat match goal with
         | |- context [(strcmp name ?n =? 0)] =>
             let H := fresh "H" in
             destruct (strcmp name n =? 0) eqn:H;
             [apply strcmp_eqb in H; intros [= <-]; tauto|clear H]
         end.
  discriminate.
Qed.

Lemma with_w_same s : with_w s (s_world s) = s.
Proof. now destruct s. Qed.

(** [fork] when the call succeeds: the caller keeps its own state, and
    the world is the one the child leaves, or the one it started in when
    the child faulted. *)
Lemma fork_ok_spec E child s :
  fork_ok E (w_forks (s_world s)) = true ->
  fork E child s
  = match child (with_w s (count_fork true (s_world s))) with
    | Ok (code, s') => Ok (Some (Exited code), with_w s (s_world s'))
    | Fault _ => Ok (Some Signaled, with_w s (count_fork true (s_world s)))
    end.
Proof. intros Hok. unfold fork. rewrite Hok. reflexivity. Qed.

Lemma launch_forks_builtin E args off name f :
  args !! off = Some (Some name) ->
  find_builtin name builtin_str (builtin_func E) = Some f ->
  launch_forks E args off = O.
Proof. intros Ha Hf. unfold launch_forks. now rewrite Ha, Hf. Qed.

(** What [lsh_launch] does to the counters, every [fork] succeeding. *)
Lemma lsh_launch_counts E off s :
  (forall n, fork_ok E n = true) ->
  match lsh_launch E off s with
  | Ok (_, s') =>
      w_procs (s_world s')
      = (w_procs (s_world s) + launch_forks E (s_args s) off)%nat
      /\ length (w_pipes (s_world s')) = length (w_pipes (s_world s))
  | Fault _ => launch_forks E (s_args s) off = O
  end.
Proof.
  intros Hfork. unfold lsh_launch, launch_forks.
  destruct (s_args s !! off) as [[name|]|] eqn:Ha; auto.
  destruct (find_builtin _ _ _) as [f|] eqn:Hf.
  - destruct (call_builtin f off s) as [[r s']|] eqn:Hc; auto.
    apply call_builtin_spec in Hc as ((Hp & _ & Hl) & _). split; [lia|auto].
  - unfold bind. rewrite fork_ok_spec by apply Hfork.
    destruct (exec_child_spec E off name
                (with_w s (count_fork true (s_world s))))
      as (code & w' & -> & Hp & _ & Hl).
    simpl in *. split; [lia|auto].
Qed.

(** ** The scan for separators *)

Lemma with_pargs_same s : with_pargs s (s_args s) = s.
Proof. now destruct s. Qed.

Lemma parg_Ok s i c : s_args s !! i = Some c -> parg i s = Ok (c, s).
Proof. intros Hi. unfold parg. now rewrite Hi. Qed.

Lemma pcount_args_spec fuel s pre toks junk :
  s_args s = (pre ++ (Some <$> toks) ++ None :: junk)%list ->
  (length toks < fuel)%nat ->
  pcount_args fuel (length pre) s = Ok ((length pre + length toks)%nat, s).
Proof.
  revert pre toks; induction fuel as [|fuel IH]; intros pre toks Ha Hf; [lia|].
  simpl. destruct toks as [|t toks]; simpl in *.
  - erewrite bind_Ok
      by (apply parg_Ok; rewrite Ha; now apply list_lookup_middle).
    unfold ret. now rewrite Nat.add_0_r.
  - erewrite bind_Ok
      by (apply parg_Ok; rewrite Ha; now apply list_lookup_middle).
    cbv beta iota.
    replace (S (length pre)) with (length (pre ++ [Some t])%list)
      by (rewrite length_app; simpl; lia).
    rewrite (IH (pre ++ [Some t])%list toks).
    + f_equal. f_equal. rewrite length_app. simpl. lia.
    + rewrite Ha. now rewrite <- app_assoc.
    + lia.
Qed.

Lemma cut_pipe t : (strcmp t "|" =? 0) = true -> cut t = None.
Proof. intros H. unfold cut. now rewrite H. Qed.

Lemma cut_token t : (strcmp t "|" =? 0) = false -> cut t = Some t.
Proof. intros H. unfold cut. now rewrite H. Qed.

(** The scan overwrites every separator, counts them and records where
    they were. *)
Lemma scan_pipes_spec toks : forall fuel pre junk pc loc s,
  s_args s = (pre ++ (Some <$> toks) ++ None :: junk)%list ->
  (length toks < fuel)%nat ->
  (pc + length (pipe_positions (length pre) toks) < length loc)%nat ->
  scan_pipes fuel (length pre) pc loc s
  = Ok (((pc + length (pipe_positions (length pre) toks))%nat,
         record (S pc) (pipe_positions (length pre) toks) loc),
        with_pargs s (pre ++ (cut <$> toks) ++ None :: junk)%list).
Proof.
  induction toks as [|t toks IH]; intros fuel pre junk pc loc s Ha Hf Hl;
    (destruct fuel as [|fuel]; [simpl in Hf; lia|]).
  - simpl in *.
    erewrite bind_Ok
      by (apply parg_Ok; rewrite Ha; now apply list_lookup_middle).
    unfold ret. rewrite Nat.add_0_r.
    now rewrite <- Ha, with_pargs_same.
  - cbn [scan_pipes pipe_positions].
    rewrite fmap_cons in Ha |- *. cbn [pipe_positions] in Hl.
    erewrite bind_Ok
      by (apply parg_Ok; rewrite Ha; now apply list_lookup_middle).
    cbv beta iota.
    assert (HS : S (length pre) = length (pre ++ [cut t])%list)
      by (rewrite length_app; simpl; lia).
    assert (Hf' : (length toks < fuel)%nat) by (simpl in Hf; lia).
    destruct (strcmp t "|" =? 0) eqn:Ht.
    + cbn [length] in Hl. rewrite decide_True by lia.
      unfold bind at 1. unfold pset_arg.
      rewrite decide_True
        by (rewrite Ha, length_app; simpl; lia).
      rewrite HS.
      rewrite (IH fuel (pre ++ [cut t])%list junk).
      * cbn [length record]. rewrite <- HS. f_equal. f_equal.
        -- f_equal. lia.
        -- unfold with_pargs. cbn [s_cwd s_fds s_args s_world].
           now rewrite <- app_assoc.
      * cbn [s_args]. rewrite Ha, (cut_pipe t Ht).
        rewrite <- (Nat.add_0_r (length pre)) at 1.
        rewrite insert_app_r. now rewrite <- app_assoc.
      * exact Hf'.
      * rewrite length_insert, <- HS. lia.
    + rewrite HS.
      rewrite (IH fuel (pre ++ [cut t])%list junk).
      * rewrite <- HS. f_equal. f_equal.
        unfold with_pargs. now rewrite <- app_assoc.
      * rewrite Ha, (cut_token t Ht). now rewrite <- app_assoc.
      * exact Hf'.
      * rewrite <- HS. exact Hl.
Qed.

Lemma record_length k ps loc : length (record k ps loc) = length loc.
Proof.
  revert k loc; induction ps as [|p ps IH]; intros k loc; simpl; auto.
  now rewrite IH, length_insert.
Qed.

Lemma record_lookup_lt k ps loc j :
  (j < k)%nat -> record k ps loc !! j = loc !! j.
Proof.
  revert k loc; induction ps as [|p ps IH]; intros k loc Hj; simpl; auto.
  rewrite IH by lia. apply list_lookup_insert_ne. lia.
Qed.

Lemma record_lookup k ps loc m p :
  ps !! m = Some p -> (k + length ps <= length loc)%nat ->
  record k ps loc !! (k + m)%nat = Some (Z.of_nat p).
Proof.
  revert k loc m; induction ps as [|q ps IH]; intros k loc m Hm Hl;
    [discriminate|].
  simpl in *. destruct m as [|m]; simpl in Hm.
  - injection Hm as ->. rewrite Nat.add_0_r, record_lookup_lt by lia.
    apply list_lookup_insert_eq. lia.
  - replace (k + S m)%nat with (S k + m)%nat by lia.
    apply IH; auto. rewrite length_insert. lia.
Qed.

(** The offsets read off [pipe_locate] are the stage offsets of the
    tokens. *)
Lemma stage_off_record toks :
  (pipes_of toks < 10)%nat ->
  stage_off (record 1 (pipe_positions O toks) pipe_locate0)
    <$> seq O (S (pipes_of toks))
  = stage_offsets toks.
Proof.
  intros Hk. unfold stage_offsets, pipes_of in *.
  set (ps := pipe_positions O toks) in *.
  rewrite <- cons_seq. rewrite fmap_cons. f_equal.
  - unfold stage_off. now rewrite record_lookup_lt by lia.
  - apply list_eq. intros m.
    rewrite !list_lookup_fmap.
    destruct (decide (m < length ps)%nat) as [Hm|Hm].
    + rewrite lookup_seq_lt by lia.
      destruct (lookup_lt_is_Some_2 ps m Hm) as [p Hp]. rewrite Hp.
      cbn [fmap option_fmap option_map]. f_equal.
      unfold stage_off.
      rewrite (record_lookup 1 ps pipe_locate0 m p Hp)
        by (simpl; lia).
      cbn [default id]. lia.
    + rewrite lookup_seq_ge by lia.
      now rewrite lookup_ge_None_2 by lia.
Qed.

(** ** Descriptors *)

Lemma fd_set_lookup x v fds fd ep :
  fd_set x v fds !! fd = Some (Some ep) ->
  (fd = x /\ v = Some ep) \/ fds !! fd = Some (Some ep).
Proof.
  unfold fd_set. destruct (decide (x < length fds)%nat) as [Hx|Hx]; intros H.
  - apply list_lookup_insert_Some in H as [(-> & <- & _)|[_ H]]; auto.
  - apply lookup_app_Some in H as [H|[Hge H]]; auto.
    apply lookup_app_Some in H as [H|[Hge' H]].
    + apply lookup_replicate in H as [[=] _].
    + rewrite length_replicate in *.
      apply list_lookup_singleton_Some in H as [Hi ->].
      left. split; [lia|reflexivity].
Qed.

Lemma close_lookup x (fds : list (option endpoint)) fd ep :
  (if decide (x < length fds)%nat then <[x:=None]> fds else fds) !! fd
  = Some (Some ep) ->
  fd <> x /\ fds !! fd = Some (Some ep).
Proof.
  destruct (decide (x < length fds)%nat) as [Hx|Hx]; intros H.
  - apply list_lookup_insert_Some in H as [(_ & [=] & _)|[Hne H]]; auto.
  - split; [|exact H]. apply lookup_lt_Some in H. lia.
Qed.

Lemma pipes_within_nil fds : pipes_within [] fds <-> pipe_free fds.
Proof.
  split.
  - intros H fd ep Hfd. destruct (is_pipe ep) eqn:Hp; [|reflexivity].
    exfalso. apply (elem_of_nil fd). eapply H; eauto.
  - intros H fd ep Hfd Hp. rewrite (H _ _ Hfd) in Hp. discriminate.
Qed.

(** [pipe]: one more channel, its ends on two descriptors of the caller. *)
Lemma sys_pipe_spec allowed s :
  pipes_within allowed (s_fds s) ->
  exists r wr s',
    sys_pipe s = Ok ((r, wr), s')
    /\ s_cwd s' = s_cwd s /\ s_args s' = s_args s
    /\ pipes_within (r :: wr :: allowed) (s_fds s')
    /\ w_procs (s_world s') = w_procs (s_world s)
    /\ length (w_pipes (s_world s')) = S (length (w_pipes (s_world s))).
Proof.
  intros Hin. unfold sys_pipe. eexists _, _, _. split; [reflexivity|].
  simpl. repeat split; auto.
  - intros fd ep Hfd Hp.
    rewrite !elem_of_cons.
    apply fd_set_lookup in Hfd as [[-> _]|Hfd]; [tauto|].
    apply fd_set_lookup in Hfd as [[-> _]|Hfd]; [tauto|].
    specialize (Hin _ _ Hfd Hp). tauto.
  - rewrite length_app. simpl. lia.
Qed.

(** Closing the two descriptors of a pair leaves no end of a channel on
    them. *)
Lemma close_pair_within pr pw allowed fds :
  pipes_within (allowed ++ [pr; pw]) fds ->
  pipes_within allowed
    (let fds1 := if decide (pr < length fds)%nat then <[pr:=None]> fds else fds in
     if decide (pw < length fds1)%nat then <[pw:=None]> fds1 else fds1).
Proof.
  intros Hin fd ep Hfd Hp. cbv zeta in Hfd.
  apply close_lookup in Hfd as [Hpw Hfd].
  apply close_lookup in Hfd as [Hpr Hfd].
  specialize (Hin _ _ Hfd Hp).
  rewrite elem_of_app, !elem_of_cons, elem_of_nil in Hin. tauto.
Qed.

Section Pipeline.
Variable E : env.
Hypothesis Hfork : forall n, fork_ok E n = true.

Lemma at_index_Ok {A} (l : list A) i x (s : pstate) :
  l !! i = Some x -> at_index l i s = Ok (x, s).
Proof. intros H. unfold at_index. now rewrite H. Qed.

(** The wiring of a child touches its descriptors only. *)
Lemma wire_stage_spec i pc pfd s :
  length pfd = 9%nat -> (i <= pc <= 9)%nat ->
  exists fds', wire_stage i pc pfd s = Ok (tt, with_pfds s fds').
Proof.
  intros Hl Hi. unfold wire_stage.
  destruct (decide (i = 0)%nat) as [->|H0].
  - destruct (lookup_lt_is_Some_2 pfd O) as [p0 Hp0]; [lia|].
    rewrite (bind_Ok _ _ _ _ _ (at_index_Ok _ _ _ _ Hp0)).
    eexists. reflexivity.
  - destruct (lookup_lt_is_Some_2 pfd (i - 1)) as [pp Hpp]; [lia|].
    destruct (decide (i = pc)) as [->|Hpc].
    + rewrite (bind_Ok _ _ _ _ _ (at_index_Ok _ _ _ _ Hpp)).
      eexists. reflexivity.
    + destruct (lookup_lt_is_Some_2 pfd i) as [pi Hpi]; [lia|].
      rewrite (bind_Ok _ _ _ _ _ (at_index_Ok _ _ _ _ Hpp)).
      rewrite (bind_Ok _ _ _ _ _ (at_index_Ok _ _ _ _ Hpi)).
      eexists. reflexivity.
Qed.

(** Creating the child of stage [i]: one process, and one more when the
    stage's command is no built-in. *)
Lemma fork_stage_spec i pc loc pfd s :
  length pfd = 9%nat -> (i <= pc <= 9)%nat -> (i < length loc)%nat ->
  exists st w2,
    fork E (stage_child E i pc loc pfd) s = Ok (Some st, with_w s w2)
    /\ w_procs w2
       = (S (w_procs (s_world s)) + launch_forks E (s_args s) (stage_off loc i))%nat
    /\ length (w_pipes w2) = length (w_pipes (s_world s)).
Proof.
  intros Hl Hi Hloc. rewrite fork_ok_spec by apply Hfork.
  unfold stage_child.
  destruct (wire_stage_spec i pc pfd (with_w s (count_fork true (s_world s)))
              Hl Hi) as [fds' Hw].
  rewrite (bind_Ok _ _ _ _ _ Hw).
  destruct (lookup_lt_is_Some_2 loc i Hloc) as [z Hz].
  rewrite (bind_Ok _ _ _ _ _ (at_index_Ok _ _ _ _ Hz)).
  unfold stage_off. rewrite Hz. cbn [default].
  pose proof (lsh_launch_counts E (Z.to_nat (z + 1))
                (with_pfds (with_w s (count_fork true (s_world s))) fds') Hfork)
    as Hc.
  unfold bind at 1.
  destruct (lsh_launch E _ _) as [[r s'']|f].
  - destruct Hc as [Hp Hn]. eexists _, _. split; [reflexivity|].
    simpl in *. split; [lia|exact Hn].
  - eexists _, _. split; [reflexivity|].
    simpl in *. split; [lia|reflexivity].
Qed.

Lemma close_pair_spec (pfd : list (nat * nat)) j pr pw s allowed :
  pfd !! j = Some (pr, pw) ->
  pipes_within (allowed ++ [pr; pw]) (s_fds s) ->
  exists fds',
    (pp <- at_index pfd j ;; sys_close (fst pp) ;;; sys_close (snd pp)) s
    = Ok (tt, with_pfds s fds')
    /\ pipes_within allowed fds'.
Proof.
  intros Hj Hin.
  rewrite (bind_Ok _ _ _ _ _ (at_index_Ok _ _ _ _ Hj)).
  eexists. split; [reflexivity|].
  apply (close_pair_within pr pw allowed (s_fds s) Hin).
Qed.

(** The loop that creates the stages, from stage [i] on: it ends with
    every channel descriptor of the caller closed, having made one channel
    for each separator left and one process for each stage left, plus one
    for each of these stages whose command is no built-in. *)
Lemma spawn_stages_spec pc loc n : forall i pfd s allowed,
  (1 <= pc <= 9)%nat -> (i + n = pc + 1)%nat ->
  length pfd = 9%nat -> length loc = 10%nat ->
  pipes_within allowed (s_fds s) ->
  (i = O -> allowed = []) ->
  ((0 < i)%nat ->
   exists pr pw, pfd !! (i - 1)%nat = Some (pr, pw) /\ allowed = [pr; pw]) ->
  exists s',
    spawn_stages E n i pc loc pfd s = Ok (tt, s')
    /\ s_args s' = s_args s /\ s_cwd s' = s_cwd s
    /\ (n = O \/ pipe_free (s_fds s'))
    /\ length (w_pipes (s_world s'))
       = (length (w_pipes (s_world s)) + (pc - i))%nat
    /\ w_procs (s_world s')
       = (w_procs (s_world s) + n
          + sum_list ((fun j => launch_forks E (s_args s) (stage_off loc j))
                        <$> seq i n))%nat.
Proof.
  induction n as [|n IH]; intros i pfd s allowed Hpc Hin Hpfd Hloc Hw H0 Hprev.
  - exists s. simpl. repeat split; auto; lia.
  - cbn [spawn_stages].
    destruct (decide (i <> pc)) as [Hne|Heq].
    + (* a stage before the last: a channel is made first *)
      destruct (sys_pipe_spec allowed s Hw)
        as (r & wr & s1 & Hpipe & Hcwd1 & Hargs1 & Hw1 & Hprocs1 & Hpipes1).
      erewrite bind_Ok.
      2:{ erewrite bind_Ok by exact Hpipe.
          rewrite decide_True by lia. reflexivity. }
      destruct (fork_stage_spec i pc loc (<[i:=(r, wr)]> pfd) s1)
        as (st & w2 & Hf & Hprocs2 & Hpipes2);
        [now rewrite length_insert|lia|lia|].
      rewrite (bind_Ok _ _ _ _ _ Hf).
      assert (Hclose : exists fds3,
                 (if decide (0 < i)%nat
                  then pp <- at_index (<[i:=(r, wr)]> pfd) (i - 1) ;;
                       sys_close (fst pp) ;;; sys_close (snd pp)
                  else ret tt) (with_w s1 w2)
                 = Ok (tt, with_pfds (with_w s1 w2) fds3)
                 /\ pipes_within [r; wr] fds3).
      { destruct (decide (0 < i)%nat) as [Hi|Hi].
        - destruct (Hprev Hi) as (pr & pw & Hpp & ->).
          apply (close_pair_spec _ _ pr pw); [|exact Hw1].
          rewrite list_lookup_insert_ne by lia. exact Hpp.
        - exists (s_fds s1). split; [now destruct s1|].
          rewrite (H0 ltac:(lia)) in Hw1. exact Hw1. }
      destruct Hclose as (fds3 & Hc & Hw3).
      rewrite (bind_Ok _ _ _ _ _ Hc).
      destruct (IH (S i) (<[i:=(r, wr)]> pfd)
                  (with_pfds (with_w s1 w2) fds3) [r; wr])
        as (s' & Hrun & Hargs & Hcwd & Hfree & Hpipes & Hprocs);
        auto; try lia.
      * now rewrite length_insert.
      * intros _. exists r, wr. split; [|reflexivity].
        replace (S i - 1)%nat with i by lia.
        apply list_lookup_insert_eq. lia.
      * exists s'. split; [exact Hrun|].
        simpl in *. repeat split; try congruence.
        -- right. destruct Hfree as [->|Hfree]; [|exact Hfree].
           simpl in Hrun. injection Hrun as <-. simpl.
           exfalso. lia.
        -- lia.
        -- rewrite Hprocs, Hprocs2, Hprocs1, Hargs1.
           change (list_fmap nat nat ?f ?l) with (f <$> l). lia.
    + (* the last stage *)
      assert (i = pc) as -> by (destruct (decide (pc = i)); lia).
      assert (n = O) as -> by lia.
      erewrite bind_Ok by reflexivity.
      destruct (fork_stage_spec pc pc loc pfd s)
        as (st & w2 & Hf & Hprocs2 & Hpipes2); [auto|lia|lia|].
      rewrite (bind_Ok _ _ _ _ _ Hf).
      rewrite decide_True by lia.
      destruct (Hprev ltac:(lia)) as (pr & pw & Hpp & ->).
      destruct (close_pair_spec pfd (pc - 1) pr pw (with_w s w2) [] Hpp Hw)
        as (fds3 & Hc & Hw3).
      rewrite (bind_Ok _ _ _ _ _ Hc).
      eexists. split; [reflexivity|].
      simpl. repeat split.
      * right. now apply pipes_within_nil.
      * lia.
      * lia.
Qed.

End Pipeline.

(** ** [lsh_execute] *)

Lemma pipe_positions_bounds toks : forall i p,
  p ∈ pipe_positions i toks -> (i <= p < i + length toks)%nat.
Proof.
  induction toks as [|t toks IH]; intros i p Hp; simpl in *.
  - now apply elem_of_nil in Hp.
  - destruct (strcmp t "|" =? 0).
    + apply elem_of_cons in Hp as [->|Hp]; [lia|].
      apply IH in Hp. lia.
    + apply IH in Hp. lia.
Qed.

Lemma stage_offsets_bounds toks off :
  off ∈ stage_offsets toks -> (off <= length toks)%nat.
Proof.
  unfold stage_offsets. intros [->|Hp]%elem_of_cons; [lia|].
  apply list_elem_of_fmap in Hp as (p & -> & Hp).
  apply pipe_positions_bounds in Hp. lia.
Qed.

(** Without separators the scan changes nothing. *)
Lemma cut_no_pipes toks : forall i,
  pipe_positions i toks = [] -> cut <$> toks = Some <$> toks.
Proof.
  induction toks as [|t toks IH]; intros i Hp; [reflexivity|].
  simpl in Hp. rewrite !fmap_cons.
  destruct (strcmp t "|" =? 0) eqn:Ht; [discriminate|].
  rewrite (cut_token t Ht). f_equal. eauto.
Qed.

(** [lsh_execute] up to the choice between its two branches. *)
Lemma lsh_execute_scan E s t toks junk :
  s_args s = ((Some <$> t :: toks) ++ None :: junk)%list ->
  (pipes_of (t :: toks) < 10)%nat ->
  lsh_execute E s
  = (if decide (pipes_of (t :: toks) = 0)%nat then
       pid <- fork E (lsh_launch E 0) ;;
       match pid with
       | Some status => ret (WEXITSTATUS status)
       | None => raise NoStatus
       end
     else
       spawn_stages E (pipes_of (t :: toks) + 1) 0 (pipes_of (t :: toks))
         (record 1 (pipe_positions O (t :: toks)) pipe_locate0) pfd0 ;;;
       wait_stages (pipes_of (t :: toks) + 1) ;;;
       ret 1)
      (with_pargs s ((cut <$> t :: toks) ++ None :: junk)%list).
Proof.
  intros Ha Hk. unfold lsh_execute.
  erewrite bind_Ok by (apply parg_Ok; rewrite Ha; reflexivity).
  cbv beta iota.
  erewrite bind_Ok by reflexivity.
  assert (Hlen : (length (t :: toks) < S (length (s_args s)))%nat).
  { rewrite Ha, length_app, length_fmap. lia. }
  erewrite bind_Ok
    by (apply (pcount_args_spec _ s [] (t :: toks) junk); [exact Ha|exact Hlen]).
  erewrite bind_Ok
    by (apply (scan_pipes_spec (t :: toks) _ [] junk O pipe_locate0 s);
        [exact Ha|exact Hlen|exact Hk]).
  reflexivity.
Qed.

Lemma launch_forks_ext E toks junk off :
  (off <= length toks)%nat ->
  launch_forks E ((cut <$> toks) ++ None :: junk) off
  = launch_forks E ((cut <$> toks) ++ [None]) off.
Proof.
  intros Hoff. unfold launch_forks.
  destruct (decide (off < length toks)%nat) as [Hlt|Hge].
  - now rewrite !lookup_app_l by now rewrite length_fmap.
  - assert (off = length (cut <$> toks)) as -> by (rewrite length_fmap; lia).
    now rewrite !list_lookup_middle.
Qed.

(** A command line with separators, every [fork] succeeding: the stages
    are created and [lsh_execute] returns 1 whatever they do. *)
Lemma pipeline_runs E s t toks junk :
  (forall n, fork_ok E n = true) ->
  s_args s = ((Some <$> t :: toks) ++ None :: junk)%list ->
  (1 <= pipes_of (t :: toks) <= 9)%nat ->
  pipe_free (s_fds s) ->
  exists s',
    lsh_execute E s = Ok (1, s')
    /\ s_cwd s' = s_cwd s
    /\ s_args s' = ((cut <$> t :: toks) ++ None :: junk)%list
    /\ pipe_free (s_fds s')
    /\ length (w_pipes (s_world s'))
       = (length (w_pipes (s_world s)) + pipes_of (t :: toks))%nat
    /\ w_procs (s_world s')
       = (w_procs (s_world s) + S (pipes_of (t :: toks))
          + external_stages E (t :: toks))%nat.
Proof.
  intros Hfork Ha Hk Hfree.
  rewrite (lsh_execute_scan E s t toks junk Ha) by lia.
  rewrite decide_False by lia.
  remember (t :: toks) as tk eqn:Etk. clear Etk Ha.
  set (args' := ((cut <$> tk) ++ None :: junk)%list).
  set (k := pipes_of tk) in *.
  destruct (spawn_stages_spec E Hfork k
              (record 1 (pipe_positions O tk) pipe_locate0)
              (k + 1) O pfd0 (with_pargs s args') [])
    as (s' & Hrun & Hargs & Hcwd & Hfr & Hpipes & Hprocs); auto.
  - now rewrite record_length.
  - now apply pipes_within_nil.
  - intros H; lia.
  - rewrite (bind_Ok _ _ _ _ _ Hrun).
    exists s'. split; [reflexivity|].
    cbn [with_pargs s_cwd s_args s_fds s_world] in *. repeat split; auto.
    + destruct Hfr as [Hfr|Hfr]; [lia|exact Hfr].
    + rewrite Hpipes. lia.
    + rewrite Hprocs. unfold external_stages.
      assert (Hoffs : stage_off (record 1 (pipe_positions O tk) pipe_locate0)
                        <$> seq O (S k) = stage_offsets tk)
        by (apply stage_off_record; fold k; lia).
      rewrite <- Hoffs.
      replace (k + 1)%nat with (S k) by lia.
      rewrite <- list_fmap_compose.
      f_equal. f_equal. apply list_fmap_ext. intros i off Hi.
      unfold compose. apply launch_forks_ext.
      apply stage_offsets_bounds. rewrite <- Hoffs.
      apply list_elem_of_fmap. exists off. split; [reflexivity|].
      eapply list_elem_of_lookup_2; eauto.
Qed.

(** A command line without separators, the [fork] succeeding: the child
    runs [lsh_launch] and its exit status is what [lsh_execute] returns. *)
Lemma single_command E s t toks junk :
  s_args s = ((Some <$> t :: toks) ++ None :: junk)%list ->
  pipes_of (t :: toks) = O ->
  fork_ok E (w_forks (s_world s)) = true ->
  lsh_execute E s
  = match lsh_launch E 0 (with_w s (count_fork true (s_world s))) with
    | Ok (code, s') => Ok (code mod 256, with_w s (s_world s'))
    | Fault _ => Ok (0, with_w s (count_fork true (s_world s)))
    end.
Proof.
  intros Ha Hk Hok.
  rewrite (lsh_execute_scan E s t toks junk Ha) by lia.
  rewrite decide_True by exact Hk.
  rewrite (cut_no_pipes (t :: toks) O)
    by (apply length_zero_iff_nil; exact Hk).
  rewrite <- Ha, with_pargs_same.
  unfold bind. rewrite fork_ok_spec by exact Hok.
  destruct (lsh_launch E 0 _) as [[code s']|f]; reflexivity.
Qed.

(** ** C1: a single built-in command *)

(** C1, as the code has it: a single command naming a built-in is run by
    a child process.  One process is created; the interactive process
    keeps its working directory, descriptors and arguments, and gets the
    handler's result as the child's exit status. *)
Theorem builtin_runs_in_child E s name toks junk f :
  s_args s = ((Some <$> name :: toks) ++ None :: junk)%list ->
  pipes_of (name :: toks) = O ->
  find_builtin name builtin_str (builtin_func E) = Some f ->
  fork_ok E (w_forks (s_world s)) = true ->
  exists st w',
    lsh_execute E s = Ok (WEXITSTATUS st, with_w s w')
    /\ w_procs w' = S (w_procs (s_world s))
    /\ match call_builtin f 0 (with_w s (count_fork true (s_world s))) with
       | Ok (r, s') => st = Exited r /\ w' = s_world s'
       | Fault _ => st = Signaled /\ w' = count_fork true (s_world s)
       end.
Proof.
  intros Ha Hk Hf Hok.
  rewrite (single_command E s name toks junk Ha Hk Hok).
  unfold lsh_launch. cbn [with_w s_args]. rewrite Ha. cbn [fmap list_fmap app lookup list_lookup].
  rewrite Hf.
  destruct (call_builtin f 0 _) as [[r s']|e] eqn:Hc.
  - exists (Exited r), (s_world s'). split; [reflexivity|]. split; [|auto].
    apply call_builtin_spec in Hc as ((Hp & _) & _). exact Hp.
  - exists Signaled, (count_fork true (s_world s)). auto.
Qed.

Lemma builtin_runs_in_child_witness :
  exists st w',
    lsh_execute lab (booted "/" [Some "pwd"; None] EmptyString)
    = Ok (WEXITSTATUS st, with_w (booted "/" [Some "pwd"; None] EmptyString) w')
    /\ w_procs w' = 1%nat /\ w_out w' = "/" ++ nl.
Proof.
  destruct (builtin_runs_in_child lab (booted "/" [Some "pwd"; None] EmptyString)
              "pwd" [] [] (lsh_pwd lab) eq_refl eq_refl eq_refl eq_refl)
    as (st & w' & Hrun & Hp & Hc).
  exists st, w'. split; [exact Hrun|]. split; [exact Hp|].
  vm_compute in Hc. destruct Hc as [_ ->]. reflexivity.
Defined.

(** C1 as stated fails: [cd] entered in [/home], where a directory [cd]
    exists.  A process is created, and the interactive process is still in
    [/home] afterwards, although the handler did change directory. *)
Lemma builtin_in_parent_counterexample :
  exists s',
    lsh_execute lab (booted "/home" [Some "cd"; None] EmptyString) = Ok (1, s')
    /\ w_procs (s_world s') = 1%nat
    /\ s_cwd s' = "/home"
    /\ exists h',
         lsh_cd lab (fresh "/home" [Some "cd"; None] EmptyString) = Ok (1, h')
         /\ h_cwd h' = "/home/cd".
Proof.
  eexists. split; [vm_compute; reflexivity|].
  repeat split. eexists. split; reflexivity.
Qed.

(** ** C2: a single external command *)

(** C2, as the code has it: a single command naming no built-in takes two
    processes, the child of the interactive process and a child of that
    child, whose image the program replaces.  The first child waits for
    the second and exits with 1, which is what [lsh_execute] returns
    whatever the program's exit status. *)
Theorem external_command_two_processes E s name toks junk :
  s_args s = ((Some <$> name :: toks) ++ None :: junk)%list ->
  pipes_of (name :: toks) = O ->
  find_builtin name builtin_str (builtin_func E) = None ->
  fork_ok E (w_forks (s_world s)) = true ->
  fork_ok E (S (w_forks (s_world s))) = true ->
  exists code w',
    lsh_execute E s = Ok (1, with_w s w')
    /\ w_procs w' = (w_procs (s_world s) + 2)%nat
    /\ exec_child E 0 name
         (with_w s (count_fork true (count_fork true (s_world s))))
       = Ok (code, with_w s w').
Proof.
  intros Ha Hk Hf Hok1 Hok2.
  rewrite (single_command E s name toks junk Ha Hk Hok1).
  unfold lsh_launch. cbn [with_w s_args]. rewrite Ha.
  cbn [fmap list_fmap app lookup list_lookup]. rewrite Hf.
  unfold bind. rewrite fork_ok_spec by exact Hok2.
  destruct (exec_child_spec E 0 name
              (with_w (with_w s (count_fork true (s_world s)))
                 (count_fork true (count_fork true (s_world s)))))
    as (code & w' & Hx & Hp & _).
  cbn [with_w s_cwd s_fds s_args s_world] in *.
  rewrite Hx. exists code, w'. split; [reflexivity|]. split; [|exact Hx].
  rewrite Hp. simpl. lia.
Qed.

Lemma external_command_two_processes_witness :
  exists code w',
    lsh_execute lab (booted "/" [Some "false"; None] EmptyString)
    = Ok (1, with_w (booted "/" [Some "false"; None] EmptyString) w')
    /\ w_procs w' = 2%nat
    /\ exec_child lab 0 "false"
         (with_w (booted "/" [Some "false"; None] EmptyString)
            (count_fork true (count_fork true
               (s_world (booted "/" [Some "false"; None] EmptyString)))))
       = Ok (code, with_w (booted "/" [Some "false"; None] EmptyString) w').
Proof.
  exact (external_command_two_processes lab
           (booted "/" [Some "false"; None] EmptyString) "false" [] []
           eq_refl eq_refl eq_refl eq_refl eq_refl).
Defined.

(** C2 as stated fails: the program [true] exits with status 0, and
    [lsh_execute] returns 1 after two processes were created. *)
Lemma external_status_counterexample :
  exists s' r,
    lsh_execute lab (booted "/" [Some "true"; None] EmptyString) = Ok (1, s')
    /\ w_procs (s_world s') = 2%nat
    /\ sys_exec lab "/" ["true"] EmptyString = inr r /\ r_code r = 0.
Proof.
  eexists _, _. split; [vm_compute; reflexivity|]. repeat split.
Qed.

(** ** C4: processes, channels and descriptors of a pipeline *)

(** C4, as the code has it: for a command line of N stages, N between 2
    and 10, the interactive process creates N children and N-1 channels
    and has closed every channel descriptor when it starts waiting (the
    state [lsh_execute] ends in, waiting changing nothing); a stage whose
    command is no built-in takes one more process, created by the stage's
    child. *)
Theorem pipeline_processes_and_channels E s t toks junk :
  (forall n, fork_ok E n = true) ->
  s_args s = ((Some <$> t :: toks) ++ None :: junk)%list ->
  (1 <= pipes_of (t :: toks) <= 9)%nat ->
  pipe_free (s_fds s) ->
  exists s',
    lsh_execute E s = Ok (1, s')
    /\ w_procs (s_world s')
       = (w_procs (s_world s) + S (pipes_of (t :: toks))
          + external_stages E (t :: toks))%nat
    /\ length (w_pipes (s_world s'))
       = (length (w_pipes (s_world s)) + pipes_of (t :: toks))%nat
    /\ pipe_free (s_fds s').
Proof.
  intros Hfork Ha Hk Hfree.
  destruct (pipeline_runs E s t toks junk Hfork Ha Hk Hfree)
    as (s' & Hrun & _ & _ & Hfr & Hpipes & Hprocs).
  exists s'. auto.
Qed.

Lemma booted_pipe_free cwd args input : pipe_free (s_fds (booted cwd args input)).
Proof.
  intros fd ep. simpl.
  destruct fd as [|[|[|fd]]]; simpl; intros [= <-]; reflexivity.
Qed.

Lemma pipeline_processes_and_channels_witness :
  exists s',
    lsh_execute lab
      (booted "/" [Some "echo"; Some "b"; Some "|"; Some "sort"; Some "|";
                   Some "cat"; Some "f"; None; None] EmptyString)
    = Ok (1, s')
    /\ w_procs (s_world s') = 3%nat
    /\ length (w_pipes (s_world s')) = 2%nat
    /\ pipe_free (s_fds s').
Proof.
  refine (pipeline_processes_and_channels lab
            (booted "/" [Some "echo"; Some "b"; Some "|"; Some "sort"; Some "|";
                         Some "cat"; Some "f"; None; None] EmptyString)
            "echo" ["b"; "|"; "sort"; "|"; "cat"; "f"] [None]
            (fun _ => eq_refl) eq_refl _ (booted_pipe_free _ _ _)).
  vm_compute. lia.
Defined.

(** C4 as stated fails twice.  [ls | sort] has two stages and takes three
    processes, [ls] being run by a child of the first stage's child.  And
    a command line of eleven stages makes the scan write behind
    [pipe_locate]: nothing can be said of what is created. *)
Lemma pipeline_count_counterexample :
  (exists s',
     lsh_execute lab (booted "/" (lsh_split_line lab "ls | sort") EmptyString)
     = Ok (1, s')
     /\ pipes_of ["ls"; "|"; "sort"] = 1%nat
     /\ w_procs (s_world s') = 3%nat)
  /\ lsh_execute lab
       (booted "/" (lsh_split_line lab "a | a | a | a | a | a | a | a | a | a | a")
          EmptyString)
     = Fault OutOfBounds.
Proof.
  split; [eexists; split; [vm_compute; reflexivity|split; reflexivity]|].
  vm_compute. reflexivity.
Qed.

(** ** C5: empty stages *)

(** A separator at index [p] is among the recorded positions. *)
Lemma pipe_positions_lookup toks : forall i p,
  toks !! p = Some "|" -> (i + p)%nat ∈ pipe_positions i toks.
Proof.
  induction toks as [|t toks IH]; intros i p Hp; [discriminate|].
  destruct p as [|p]; simpl in *.
  - injection Hp as ->. rewrite Nat.add_0_r. simpl. apply elem_of_cons. now left.
  - replace (i + S p)%nat with (S i + p)%nat by lia.
    destruct (strcmp t "|" =? 0); [apply elem_of_cons; right|]; now apply IH.
Qed.

Lemma cut_lookup_pipe toks junk p :
  toks !! p = Some "|" ->
  ((cut <$> toks) ++ None :: junk)%list !! p = Some None.
Proof.
  intros Hp. rewrite lookup_app_l
    by (rewrite length_fmap; eauto using lookup_lt_Some).
  now rewrite list_lookup_fmap, Hp.
Qed.

(** An empty stage is a stage whose argument list starts with a null
    pointer once the separators are overwritten. *)
Lemma empty_stage_offset toks junk :
  empty_stage toks ->
  exists off, off ∈ stage_offsets toks
              /\ ((cut <$> toks) ++ None :: junk)%list !! off = Some None.
Proof.
  unfold stage_offsets. intros [Hh|[Hl|(p & Hp & Hq)]].
  - exists O. split; [apply elem_of_cons; now left|].
    destruct toks as [|t toks]; [discriminate|]. injection Hh as ->. reflexivity.
  - exists (length toks). split.
    + apply elem_of_cons. right. apply list_elem_of_fmap.
      exists (length toks - 1)%nat.
      rewrite last_lookup in Hl.
      pose proof (lookup_lt_Some _ _ _ Hl). split; [lia|].
      replace (Init.Nat.pred (length toks)) with (0 + (length toks - 1))%nat
        in Hl by lia.
      apply (pipe_positions_lookup toks O). exact Hl.
    + rewrite <- (length_fmap cut toks). now apply list_lookup_middle.
  - exists (S p). split.
    + apply elem_of_cons. right. apply list_elem_of_fmap. exists p.
      split; [reflexivity|]. now apply (pipe_positions_lookup toks O).
    + now apply cut_lookup_pipe.
Qed.

Lemma empty_stage_has_pipe toks : empty_stage toks -> (1 <= pipes_of toks)%nat.
Proof.
  intros He. destruct (empty_stage_offset toks [] He) as (off & Hoff & Hnull).
  unfold pipes_of.
  destruct (pipe_positions O toks) as [|p ps] eqn:Hp; [|simpl; lia].
  exfalso. unfold stage_offsets in Hoff. rewrite Hp in Hoff.
  apply list_elem_of_singleton in Hoff as ->.
  rewrite (cut_no_pipes _ _ Hp) in Hnull.
  destruct toks as [|t toks]; [|discriminate].
  destruct He as [H|[H|(p & H & _)]]; discriminate.
Qed.

(** C5, as the code has it: a command line with a separator in front, at
    the end or next to another one is run like any other pipeline.
    [lsh_execute] creates a child for every stage, the empty one too, and
    a channel for every separator, and returns 1; the empty stage was
    launched on an argument list that starts with a null pointer. *)
Theorem empty_stage_still_runs E s t toks junk :
  (forall n, fork_ok E n = true) ->
  s_args s = ((Some <$> t :: toks) ++ None :: junk)%list ->
  empty_stage (t :: toks) ->
  (pipes_of (t :: toks) <= 9)%nat ->
  pipe_free (s_fds s) ->
  exists s',
    lsh_execute E s = Ok (1, s')
    /\ w_procs (s_world s')
       = (w_procs (s_world s) + S (pipes_of (t :: toks))
          + external_stages E (t :: toks))%nat
    /\ length (w_pipes (s_world s'))
       = (length (w_pipes (s_world s)) + pipes_of (t :: toks))%nat
    /\ exists off, off ∈ stage_offsets (t :: toks)
                   /\ s_args s' !! off = Some None.
Proof.
  intros Hfork Ha He Hk Hfree.
  pose proof (empty_stage_has_pipe (t :: toks) He) as H1.
  destruct (pipeline_runs E s t toks junk Hfork Ha (conj H1 Hk) Hfree)
    as (s' & Hrun & _ & Hargs & _ & Hpipes & Hprocs).
  exists s'. repeat split; auto.
  rewrite Hargs. now apply empty_stage_offset.
Qed.

Lemma empty_stage_still_runs_witness :
  exists s',
    lsh_execute lab (booted "/" [Some "pwd"; Some "|"; None] EmptyString)
    = Ok (1, s')
    /\ w_procs (s_world s') = 2%nat
    /\ length (w_pipes (s_world s')) = 1%nat
    /\ exists off, off ∈ stage_offsets ["pwd"; "|"]
                   /\ s_args s' !! off = Some None.
Proof.
  refine (empty_stage_still_runs lab
            (booted "/" [Some "pwd"; Some "|"; None] EmptyString)
            "pwd" ["|"] [] (fun _ => eq_refl) eq_refl _ _
            (booted_pipe_free _ _ _)).
  - right. left. reflexivity.
  - vm_compute. lia.
Defined.

(** C5 as stated fails: with a separator in front, at the end, or doubled,
    nothing is written to standard error and a process is created for
    every stage; the stages behind the empty one run ([echo] and [pwd]
    write to the terminal).  With ten separators the scan writes behind
    [pipe_locate]. *)
Lemma empty_stage_counterexample :
  (exists s',
     lsh_execute lab (booted "/" (lsh_split_line lab "| echo hi") EmptyString)
     = Ok (1, s')
     /\ w_err (s_world s') = EmptyString
     /\ w_out (s_world s') = "hi" ++ nl
     /\ w_procs (s_world s') = 2%nat)
  /\ (exists s',
        lsh_execute lab (booted "/" (lsh_split_line lab "pwd |") EmptyString)
        = Ok (1, s')
        /\ w_err (s_world s') = EmptyString
        /\ w_procs (s_world s') = 2%nat)
  /\ (exists s',
        lsh_execute lab (booted "/" (lsh_split_line lab "echo hi | | pwd")
                           EmptyString)
        = Ok (1, s')
        /\ w_err (s_world s') = EmptyString
        /\ w_out (s_world s') = "/" ++ nl
        /\ w_procs (s_world s') = 3%nat)
  /\ lsh_execute lab
       (booted "/" (lsh_split_line lab "| a | a | a | a | a | a | a | a | a | a")
          EmptyString)
     = Fault OutOfBounds.
Proof.
  split; [|split; [|split]];
    [eexists; (split; [vm_compute; reflexivity|]); repeat split; reflexivity ..
    |vm_compute; reflexivity].
Qed.

(** ** C6: [exit] alone and [exit] in a pipeline *)

Lemma ep_write_nothing ep w : ep_write ep EmptyString w = w.
Proof.
  destruct ep, w; simpl; rewrite ?string_app_nil_r; auto.
  f_equal. apply list_alter_id. intros b. apply string_app_nil_r.
Qed.

Lemma fd_write_nothing fds fd w : fd_write fds fd EmptyString w = w.
Proof.
  unfold fd_write. destruct (fd_lookup fds fd); auto using ep_write_nothing.
Qed.

Lemma fd_set_avail_same fds fd w :
  fd_set_avail fds fd (fd_avail fds fd w) w = w.
Proof.
  unfold fd_set_avail, fd_avail. destruct (fd_lookup fds fd) as [ep|]; auto.
  destruct ep, w; simpl; auto. f_equal.
  destruct (w_pipes0 !! k) eqn:Hk; simpl.
  - now apply list_insert_id.
  - apply list_insert_ge. now apply lookup_ge_None.
Qed.

(** [exit] alone: the child exits with the handler's 0, which
    [lsh_execute] returns. *)
Lemma exit_alone E s junk :
  s_args s = Some "exit" :: None :: junk ->
  fork_ok E (w_forks (s_world s)) = true ->
  lsh_execute E s = Ok (0, with_w s (count_fork true (s_world s))).
Proof.
  intros Ha Hok.
  rewrite (single_command E s "exit" [] junk Ha eq_refl Hok).
  unfold lsh_launch. cbn [with_w s_args]. rewrite Ha.
  cbn [lookup list_lookup].
  change (find_builtin "exit" builtin_str (builtin_func E)) with (Some lsh_exit).
  unfold call_builtin, lsh_exit, ret.
  cbn [h_cwd h_args h_in h_out h_err with_w s_cwd s_fds s_args s_world].
  rewrite !fd_write_nothing, fd_set_avail_same.
  reflexivity.
Qed.

(** One turn of the interactive loop. *)
Lemma lsh_loop_step E fuel s line rest :
  shell_fds (s_fds s) ->
  lsh_read_line (w_in (s_world s)) = Some (line, rest) ->
  lsh_loop E (S fuel) s
  = (status <- lsh_execute E ;;
     if status =? 0 then ret (Some LoopLeft) else lsh_loop E fuel)
      (prompted E s line rest).
Proof.
  intros (H0 & H1 & _) Hread. cbn [lsh_loop].
  unfold fd_write, fd_avail, fd_set_avail, fd_lookup.
  rewrite H0, H1. cbn [default id ep_write ep_avail ep_set_avail w_in].
  rewrite Hread. reflexivity.
Qed.

(** C6: [exit] entered alone makes [lsh_execute] return 0 and the
    interactive loop end; a pipeline with an [exit] stage makes
    [lsh_execute] return 1 and the loop go on to its next turn. *)
Theorem exit_alone_or_in_pipeline E :
  (forall s junk,
     s_args s = Some "exit" :: None :: junk ->
     fork_ok E (w_forks (s_world s)) = true ->
     lsh_execute E s = Ok (0, with_w s (count_fork true (s_world s))))
  /\ (forall fuel s rest,
        shell_fds (s_fds s) ->
        fork_ok E (w_forks (s_world s)) = true ->
        w_in (s_world s) = "exit" ++ nl ++ rest ->
        exists s',
          lsh_loop E (S fuel) s = Ok (Some LoopLeft, s')
          /\ w_in (s_world s') = rest)
  /\ (forall s t toks junk,
        (forall n, fork_ok E n = true) ->
        s_args s = ((Some <$> t :: toks) ++ None :: junk)%list ->
        "exit" ∈ t :: toks ->
        (1 <= pipes_of (t :: toks) <= 9)%nat ->
        pipe_free (s_fds s) ->
        exists s', lsh_execute E s = Ok (1, s'))
  /\ (forall fuel s line rest t toks,
        (forall n, fork_ok E n = true) ->
        shell_fds (s_fds s) ->
        lsh_read_line (w_in (s_world s)) = Some (line, rest) ->
        strtok_all (cstr line) EmptyString = t :: toks ->
        "exit" ∈ t :: toks ->
        (1 <= pipes_of (t :: toks) <= 9)%nat ->
        exists s',
          lsh_execute E (prompted E s line rest) = Ok (1, s')
          /\ lsh_loop E (S fuel) s = lsh_loop E fuel s').
Proof.
  split; [|split; [|split]].
  - intros s junk. apply exit_alone.
  - intros fuel s rest Hfds Hok Hin.
    assert (Hread : lsh_read_line (w_in (s_world s)) = Some ("exit", rest))
      by (rewrite Hin; reflexivity).
    rewrite (lsh_loop_step E fuel s "exit" rest Hfds Hread).
    erewrite bind_Ok by (eapply exit_alone; [reflexivity|exact Hok]).
    eexists. split; reflexivity.
  - intros s t toks junk Hfork Ha _ Hk Hfree.
    destruct (pipeline_runs E s t toks junk Hfork Ha Hk Hfree) as (s' & Hrun & _).
    exists s'. exact Hrun.
  - intros fuel s line rest t toks Hfork Hfds Hread Htok _ Hk.
    destruct (pipeline_runs E (prompted E s line rest) t toks
                (heap E <$> seq (S (length (t :: toks)))
                   (LSH_TOK_BUFSIZE * (length (t :: toks) / LSH_TOK_BUFSIZE + 1)
                    - S (length (t :: toks)))) Hfork)
      as (s' & Hrun & _); auto.
    + cbn [prompted s_args]. unfold lsh_split_line. rewrite Htok. reflexivity.
    + apply Hfds.
    + exists s'. split; [exact Hrun|].
      rewrite (lsh_loop_step E fuel s line rest Hfds Hread).
      now rewrite (bind_Ok _ _ _ _ _ Hrun).
Qed.

Lemma exit_alone_or_in_pipeline_witness :
  (exists s',
     lsh_loop lab 5 (booted "/" [] ("exit" ++ nl ++ "pwd" ++ nl))
     = Ok (Some LoopLeft, s')
     /\ w_in (s_world s') = "pwd" ++ nl)
  /\ (exists s',
        lsh_execute lab
          (prompted lab (booted "/" [] ("pwd | exit" ++ nl ++ "exit" ++ nl))
             "pwd | exit" ("exit" ++ nl))
        = Ok (1, s')
        /\ lsh_loop lab 5 (booted "/" [] ("pwd | exit" ++ nl ++ "exit" ++ nl))
           = lsh_loop lab 4 s').
Proof.
  destruct (exit_alone_or_in_pipeline lab) as (_ & Halone & _ & Hpipe).
  split.
  - apply Halone; [|reflexivity|reflexivity].
    split; [reflexivity|split; [reflexivity|apply booted_pipe_free]].
  - apply (Hpipe 4%nat _ "pwd | exit" ("exit" ++ nl) "pwd" ["|"; "exit"]).
    + intros n. reflexivity.
    + split; [reflexivity|split; [reflexivity|apply booted_pipe_free]].
    + reflexivity.
    + reflexivity.
    + apply elem_of_cons. right. apply elem_of_cons. right.
      apply elem_of_cons. left. reflexivity.
    + vm_compute. lia.
Defined.

(** ** C9: what a stage does to its argument array *)

Lemma keeps_args_head {A} (m : M A) : keeps_args m -> keeps_head m.
Proof. intros Hm h a h' Hrun. now rewrite (Hm _ _ _ Hrun). Qed.

Lemma keeps_head_bind {A B} (m : M A) (k : A -> M B) :
  keeps_head m -> (forall a, keeps_head (k a)) -> keeps_head (bind m k).
Proof.
  intros Hm Hk h b h'. unfold bind.
  destruct (m h) as [[a h1]|] eqn:Em; [|discriminate].
  intros Ek. destruct (Hm _ _ _ Em) as [Hl H0].
  destruct (Hk _ _ _ _ Ek) as [Hl' H0']. split; congruence.
Qed.

Lemma keeps_head_set_arg i c : (1 <= i)%nat -> keeps_head (set_arg i c).
Proof.
  intros Hi h a h'. unfold set_arg.
  destruct (decide _); [|discriminate]. intros [= _ <-]. simpl.
  split; [apply length_insert|apply list_lookup_insert_ne; lia].
Qed.

Lemma keeps_fgets n : keeps_args (fgets n).
Proof.
  intros h a h'. unfold fgets. destruct (h_in h).
  - intros [= _ <-]; reflexivity.
  - destruct (fgets_aux _ _). intros [= _ <-]; reflexivity.
Qed.

Lemma keeps_head_sort_read fuel : forall bufsize position,
  (1 <= position)%nat -> keeps_head (sort_read fuel bufsize position).
Proof.
  induction fuel as [|fuel IH]; intros bufsize position Hp; simpl.
  - apply keeps_args_head, keeps_raise.
  - apply keeps_head_bind; [apply keeps_args_head, keeps_fgets|].
    intros [buffer|]; [|apply keeps_args_head, keeps_ret].
    apply keeps_head_bind; [now apply keeps_head_set_arg|].
    intros _. apply IH. lia.
Qed.

Lemma keeps_head_cmp_swap i j :
  (1 <= i)%nat -> (1 <= j)%nat -> keeps_head (cmp_swap i j).
Proof.
  intros Hi Hj. unfold cmp_swap.
  apply keeps_head_bind; [apply keeps_args_head, keeps_arg|]. intros ai.
  apply keeps_head_bind; [apply keeps_args_head, keeps_arg|]. intros aj.
  destruct ai, aj; try apply keeps_args_head, keeps_raise.
  destruct (0 <? _); [|apply keeps_args_head, keeps_ret].
  apply keeps_head_bind; [now apply keeps_head_set_arg|].
  intros _. now apply keeps_head_set_arg.
Qed.

Lemma keeps_head_sort_inner n : forall i j,
  (1 <= i)%nat -> (1 <= j)%nat -> keeps_head (sort_inner n i j).
Proof.
  induction n as [|n IH]; intros i j Hi Hj; simpl.
  - apply keeps_args_head, keeps_ret.
  - apply keeps_head_bind; [now apply keeps_head_cmp_swap|].
    intros _. apply IH; lia.
Qed.

Lemma keeps_head_sort_outer n : forall len i,
  (1 <= i)%nat -> keeps_head (sort_outer n len i).
Proof.
  induction n as [|n IH]; intros len i Hi; simpl.
  - apply keeps_args_head, keeps_ret.
  - apply keeps_head_bind; [apply keeps_head_sort_inner; lia|].
    intros _. apply IH; lia.
Qed.

Lemma keeps_sort_print n : forall i, keeps_args (sort_print n i).
Proof. induction n as [|n IH]; intros i; simpl; keeps_tac. Qed.

(** The sort built-in writes behind element 0 only. *)
Lemma keeps_head_lsh_sort : keeps_head lsh_sort.
Proof.
  unfold lsh_sort.
  apply keeps_head_bind; [apply keeps_args_head, keeps_arg|]. intros a1.
  apply keeps_head_bind.
  { destruct a1; [apply keeps_args_head, keeps_ret|].
    apply keeps_head_bind; [apply keeps_args_head, keeps_args_size|].
    intros n. apply keeps_head_sort_read. lia. }
  intros _.
  apply keeps_head_bind; [apply keeps_args_head, keeps_args_len|]. intros len.
  apply keeps_head_bind; [apply keeps_head_sort_outer; lia|]. intros _.
  apply keeps_head_bind; [apply keeps_args_head, keeps_sort_print|]. intros _.
  apply keeps_args_head, keeps_ret.
Qed.

(** C9, as the code has it: between dispatch and completion a stage
    whose command is not [sort] leaves the argument array as it was.  The
    sort built-in writes into the array, behind its element 0: neither the
    command name, nor the cells before it, nor the length change. *)
Theorem stage_arguments_frame E off s r s' :
  lsh_launch E off s = Ok (r, s') ->
  length (s_args s') = length (s_args s)
  /\ take (S off) (s_args s') = take (S off) (s_args s)
  /\ (s_args s !! off <> Some (Some "sort") -> s_args s' = s_args s).
Proof.
  unfold lsh_launch.
  destruct (s_args s !! off) as [[name|]|] eqn:Ha; try discriminate.
  destruct (find_builtin _ _ _) as [f|] eqn:Hf.
  - intros Hc. apply call_builtin_spec in Hc as (_ & _ & h' & Hrun & _ & Hargs).
    assert (Hhead : keeps_head f).
    { apply find_builtin_cases in Hf
        as [[_ ->]|[[_ ->]|[[_ ->]|[[_ ->]|[[_ ->]|[[_ ->]|[_ ->]]]]]]];
        auto using keeps_args_head, keeps_lsh_cd, keeps_lsh_cat, keeps_lsh_echo,
          keeps_lsh_help, keeps_lsh_exit, keeps_lsh_pwd, keeps_head_lsh_sort. }
    destruct (Hhead _ _ _ Hrun) as [Hl H0]. cbn [h_args] in Hl, H0.
    pose proof (lookup_lt_Some _ _ _ Ha) as Hoff.
    rewrite lookup_drop, Nat.add_0_r, Ha in H0.
    rewrite Hargs. split; [|split].
    + rewrite length_app, length_take, Hl, length_drop. lia.
    + rewrite (take_S_r _ _ _ Ha).
      rewrite take_app_ge by (rewrite length_take; lia).
      rewrite length_take. replace (S off - off `min` length (s_args s))%nat
        with 1%nat by lia.
      f_equal. destruct (h_args h') as [|c l]; [discriminate|].
      simpl in H0. injection H0 as ->. reflexivity.
    + intros Hns.
      assert (Hkeep : keeps_args f).
      { apply find_builtin_cases in Hf
          as [[_ ->]|[[_ ->]|[[_ ->]|[[_ ->]|[[_ ->]|[[_ ->]|[-> _]]]]]]];
          auto using keeps_lsh_cd, keeps_lsh_cat, keeps_lsh_echo,
            keeps_lsh_help, keeps_lsh_exit, keeps_lsh_pwd.
        now contradiction Hns. }
      rewrite (Hkeep _ _ _ Hrun). cbn [h_args]. apply take_drop.
  - unfold bind.
    destruct (fork E (exec_child E off name) s) as [[pid s1]|] eqn:Hfk;
      [|discriminate].
    assert (Hs1 : s_args s1 = s_args s).
    { unfold fork in Hfk. destruct (fork_ok E _).
      - destruct (exec_child E off name _) as [[c s2]|];
          injection Hfk as _ <-; reflexivity.
      - injection Hfk as _ <-; reflexivity. }
    destruct pid; intros [= _ <-]; cbn [s_args]; rewrite ?Hs1; auto.
Qed.

Lemma stage_arguments_frame_witness :
  exists s',
    lsh_launch lab 2
      (booted "/" [Some "pwd"; None; Some "echo"; Some "x"; None] EmptyString)
    = Ok (1, s')
    /\ s_args s' = [Some "pwd"; None; Some "echo"; Some "x"; None].
Proof.
  eexists. split; [vm_compute; reflexivity|].
  refine (proj2 (proj2 (stage_arguments_frame lab 2
            (booted "/" [Some "pwd"; None; Some "echo"; Some "x"; None]
               EmptyString) 1 _ _)) _).
  - vm_compute. reflexivity.
  - discriminate.
Defined.

(** C9 as stated fails: [sort b a] leaves its arguments in another
    order, and [sort] without arguments leaves the line it read in its
    argument array. *)
Lemma sort_rewrites_arguments_counterexample :
  (exists s',
     lsh_launch lab 0
       (booted "/" [Some "sort"; Some "b"; Some "a"; None] EmptyString)
     = Ok (1, s')
     /\ s_args s' = [Some "sort"; Some "a"; Some "b"; None])
  /\ (exists s',
        lsh_launch lab 0 (booted "/" [Some "sort"; None; None] ("b" ++ nl))
        = Ok (1, s')
        /\ s_args s' = [Some "sort"; Some "b"; None]).
Proof.
  split; eexists; (split; [vm_compute; reflexivity|reflexivity]).
Qed.

(** * Further properties of the code *)

(** ** The tokenizer *)

Lemma string_app_nil_l (a : string) : EmptyString ++ a = a.
Proof. reflexivity. Qed.

Lemma nl_app (a : string) : nl ++ a = String "010" a.
Proof. reflexivity. Qed.

Lemma no_delim_app a b : no_delim (a ++ b) = no_delim a && no_delim b.
Proof.
  induction a as [|c a IH]; [reflexivity|].
  rewrite string_app_cons. cbn [no_delim]. rewrite IH. now rewrite andb_assoc.
Qed.

Lemma string_app_snoc_ne (a : string) c : a ++ String c EmptyString <> EmptyString.
Proof. destruct a; rewrite ?string_app_cons; discriminate. Qed.

Lemma cstr_app_fixed a b : cstr a = a -> cstr (a ++ b) = a ++ cstr b.
Proof.
  induction a as [|c a IH]; [reflexivity|].
  rewrite !string_app_cons. cbn [cstr].
  destruct (Ascii.eqb c NUL); [discriminate|].
  intros [= H]. now rewrite IH.
Qed.

Lemma cstr_idem s : cstr (cstr s) = cstr s.
Proof.
  induction s as [|c s IH]; [reflexivity|]. cbn [cstr].
  destruct (Ascii.eqb c NUL) eqn:Hc; [reflexivity|].
  cbn [cstr]. rewrite Hc. now rewrite IH.
Qed.

Lemma strtok_all_words s : forall cur,
  no_delim cur = true -> cstr cur = cur -> cstr s = s ->
  Forall (fun t => word t /\ cstr t = t) (strtok_all s cur).
Proof.
  induction s as [|c s IH]; intros cur Hcur Hz Hs; cbn [strtok_all].
  - destruct cur; constructor; [|constructor].
    split; [split; [discriminate|exact Hcur]|exact Hz].
  - cbn [cstr] in Hs. destruct (Ascii.eqb c NUL) eqn:Hc; [discriminate|].
    injection Hs as Hs.
    destruct (is_delim c) eqn:Hd.
    + destruct cur.
      * now apply IH.
      * constructor; [|now apply IH].
        split; [split; [discriminate|exact Hcur]|exact Hz].
    + apply IH; [| |exact Hs].
      * rewrite no_delim_app, Hcur. cbn [no_delim]. now rewrite Hd.
      * rewrite cstr_app_fixed by exact Hz. cbn [cstr]. now rewrite Hc.
Qed.

(** X1: the tokens [lsh_split_line] stores are words: none is empty,
    none holds a delimiter, none holds a NUL byte. *)
Theorem tokens_are_words line :
  Forall (fun t => word t /\ cstr t = t) (strtok_all (cstr line) EmptyString).
Proof. apply strtok_all_words; auto using cstr_idem. Qed.

Lemma strtok_all_app_delim a d b : forall cur,
  is_delim d = true ->
  strtok_all (a ++ String d b) cur
  = (strtok_all a cur ++ strtok_all b EmptyString)%list.
Proof.
  induction a as [|c a IH]; intros cur Hd.
  - change (EmptyString ++ String d b) with (String d b).
    cbn [strtok_all]. rewrite Hd. now destruct cur.
  - rewrite string_app_cons. cbn [strtok_all].
    destruct (is_delim c); [destruct cur|]; rewrite IH by exact Hd; reflexivity.
Qed.

Lemma strtok_all_delims d : forall b,
  all_delim d = true ->
  strtok_all (d ++ b) EmptyString = strtok_all b EmptyString.
Proof.
  induction d as [|c d IH]; intros b Hd; [reflexivity|].
  cbn [all_delim] in Hd. apply andb_true_iff in Hd as [Hc Hd].
  rewrite string_app_cons. cbn [strtok_all]. rewrite Hc. now apply IH.
Qed.

(** X2: a run of delimiters cuts a line in two: the tokens of the line are
    those of the part before the run followed by those of the part after
    it, whatever the length of the run. *)
Theorem strtok_all_split a d b :
  d <> EmptyString -> all_delim d = true ->
  strtok_all (a ++ d ++ b) EmptyString
  = (strtok_all a EmptyString ++ strtok_all b EmptyString)%list.
Proof.
  intros Hne Hd. destruct d as [|c d]; [congruence|].
  cbn [all_delim] in Hd. apply andb_true_iff in Hd as [Hc Hd].
  rewrite string_app_cons, strtok_all_app_delim by exact Hc.
  now rewrite strtok_all_delims.
Qed.

Lemma strtok_all_split_witness :
  strtok_all ("echo" ++ "   " ++ "hi") EmptyString
  = (strtok_all "echo" EmptyString ++ strtok_all "hi" EmptyString)%list.
Proof. apply strtok_all_split; [discriminate|reflexivity]. Defined.

Lemma strtok_all_no_delim w : forall cur,
  no_delim w = true ->
  strtok_all w cur = match cur ++ w with EmptyString => [] | t => [t] end.
Proof.
  induction w as [|c w IH]; intros cur Hw.
  - rewrite string_app_nil_r. cbn [strtok_all]. now destruct cur.
  - cbn [no_delim] in Hw. apply andb_true_iff in Hw as [Hc Hw].
    apply negb_true_iff in Hc. cbn [strtok_all]. rewrite Hc.
    rewrite IH by exact Hw. rewrite string_app_assoc. reflexivity.
Qed.

Lemma strtok_all_word w : word w -> strtok_all w EmptyString = [w].
Proof.
  intros [Hne Hw]. rewrite strtok_all_no_delim by exact Hw.
  change (EmptyString ++ w) with w. destruct w; congruence.
Qed.

Lemma unwords_cons w ws :
  ws <> [] -> unwords (w :: ws) = w ++ sp ++ unwords ws.
Proof. destruct ws; [congruence|reflexivity]. Qed.

Lemma strtok_all_unwords ws :
  Forall word ws -> strtok_all (unwords ws) EmptyString = ws.
Proof.
  induction 1 as [|w ws Hw Hws IH]; [reflexivity|].
  destruct ws as [|w' ws'].
  - apply strtok_all_word, Hw.
  - rewrite unwords_cons by discriminate.
    unfold sp. rewrite string_app_cons, string_app_nil_l.
    rewrite strtok_all_app_delim by reflexivity.
    now rewrite strtok_all_word, IH.
Qed.

Lemma cstr_unwords ws :
  Forall (fun w => cstr w = w) ws -> cstr (unwords ws) = unwords ws.
Proof.
  induction 1 as [|w ws Hw Hws IH]; [reflexivity|].
  destruct ws as [|w' ws']; [exact Hw|].
  rewrite unwords_cons by discriminate.
  rewrite cstr_app_fixed by exact Hw. f_equal.
  unfold sp. rewrite string_app_cons.
  change (EmptyString ++ ?x) with x.
  change (cstr (String " " ?x)) with (String " "%char (cstr x)).
  now rewrite IH.
Qed.

(** X3: words joined by single spaces are split into the same words: the
    array [lsh_split_line] returns starts with them, in order, and has its
    null pointer right behind the last. *)
Theorem split_line_unwords E ws :
  Forall word ws -> Forall (fun w => cstr w = w) ws ->
  take (S (length ws)) (lsh_split_line E (unwords ws))
  = ((Some <$> ws) ++ [None])%list.
Proof.
  intros Hw Hz. unfold lsh_split_line.
  rewrite cstr_unwords by exact Hz.
  rewrite strtok_all_unwords by exact Hw.
  rewrite (app_assoc (Some <$> ws) [None]).
  rewrite take_app_length'; [reflexivity|].
  rewrite length_app, length_fmap. simpl. lia.
Qed.

Lemma split_line_unwords_witness :
  take 4 (lsh_split_line lab (unwords ["cat"; "a.txt"; "b.txt"]))
  = [Some "cat"; Some "a.txt"; Some "b.txt"; None].
Proof.
  apply (split_line_unwords lab ["cat"; "a.txt"; "b.txt"]).
  - repeat constructor; discriminate.
  - repeat constructor.
Defined.

(** ** The buffers of the tokenizer and of the line reader *)

Lemma store_fill {A} (fill : nat -> A) (done : list A) n k c :
  n = length done -> (0 < k)%nat ->
  store (done ++ (fill <$> seq n k)) n c
  = Ok ((done ++ [c]) ++ (fill <$> seq (S n) (k - 1)))%list.
Proof.
  intros -> Hk. unfold store.
  rewrite decide_True by (rewrite length_app, length_fmap, length_seq; lia).
  f_equal. destruct k as [|k]; [lia|].
  cbn [seq fmap list_fmap]. change (list_fmap nat A fill ?l) with (fill <$> l).
  rewrite insert_app_r_alt by lia. rewrite Nat.sub_diag. cbn [insert list_insert].
  rewrite <- app_assoc. cbn [app]. repeat f_equal. lia.
Qed.

Lemma realloc_full {A} (fill : nat -> A) (p : list A) n :
  (length p <= n)%nat ->
  realloc fill p n = (p ++ (fill <$> seq (length p) (n - length p)))%list.
Proof. intros H. unfold realloc. now rewrite take_ge. Qed.

(** The size a buffer that grows by [k] cells has when [p] cells of it are
    in use. *)
Lemma grown_room k p : (0 < k)%nat -> (p < k * (p / k + 1))%nat.
Proof.
  intros Hk. pose proof (Nat.div_mod_eq p k).
  pose proof (Nat.mod_upper_bound p k ltac:(lia)). nia.
Qed.

Lemma grown_full k p :
  (0 < k)%nat -> (k * (p / k + 1) <= S p)%nat ->
  (k * (p / k + 1) + k = k * (S p / k + 1))%nat.
Proof.
  intros Hk Hf. pose proof (grown_room k p Hk).
  assert (S p / k = p / k + 1)%nat as ->; [|lia].
  symmetry. apply (Nat.div_unique _ _ _ O); lia.
Qed.

Lemma grown_same k p :
  (0 < k)%nat -> ~ (k * (p / k + 1) <= S p)%nat ->
  (k * (p / k + 1) = k * (S p / k + 1))%nat.
Proof.
  intros Hk Hf.
  assert (S p / k = p / k)%nat as ->; [|lia].
  symmetry. apply (Nat.div_unique _ _ _ (S (p mod k))).
  - pose proof (Nat.div_mod_eq p k). nia.
  - pose proof (Nat.div_mod_eq p k). lia.
Qed.

Lemma split_loop_spec E toks : forall done bufsize position,
  position = length done ->
  bufsize = (LSH_TOK_BUFSIZE * (position / LSH_TOK_BUFSIZE + 1))%nat ->
  split_loop E toks bufsize position
    ((Some <$> done) ++ (heap E <$> seq position (bufsize - position)))%list
  = Ok ((Some <$> done ++ toks) ++ [None]
        ++ (heap E <$> seq (S (position + length toks))
              (LSH_TOK_BUFSIZE * ((position + length toks) / LSH_TOK_BUFSIZE + 1)
               - S (position + length toks))))%list.
Proof.
  unfold LSH_TOK_BUFSIZE.
  induction toks as [|t toks IH]; intros done bufsize position Hp Hb;
    cbn [split_loop].
  - pose proof (grown_room 64 position ltac:(lia)).
    rewrite store_fill by (rewrite ?length_fmap; lia).
    rewrite app_nil_r, Nat.add_0_r, <- Hb. rewrite <- app_assoc.
    now replace (bufsize - position - 1)%nat with (bufsize - S position)%nat
      by lia.
  - pose proof (grown_room 64 position ltac:(lia)).
    rewrite store_fill by (rewrite ?length_fmap; lia).
    change [Some t] with (Some <$> [t]). rewrite <- fmap_app.
    cbn [length].
    replace (position + S (length toks))%nat
      with (S position + length toks)%nat by lia.
    replace (done ++ t :: toks)%list with ((done ++ [t]) ++ toks)%list
      by now rewrite <- app_assoc.
    destruct (decide (bufsize <= S position)%nat) as [Hfull|Hroom].
    + assert (bufsize = S position) by lia.
      rewrite realloc_full
        by (rewrite length_app, !length_fmap, length_seq, length_app; simpl; lia).
      replace (bufsize - position - 1)%nat with O by lia.
      cbn [seq fmap list_fmap]. rewrite app_nil_r.
      rewrite length_fmap, length_app. cbn [length].
      replace (length done + 1)%nat with (S position) by lia.
      rewrite <- (IH (done ++ [t])%list (bufsize + 64)%nat (S position)).
      * reflexivity.
      * rewrite length_app. simpl. lia.
      * subst bufsize. apply grown_full; lia.
    + rewrite <- (IH (done ++ [t])%list bufsize (S position)).
      * now replace (bufsize - position - 1)%nat with (bufsize - S position)%nat
          by lia.
      * rewrite length_app. simpl. lia.
      * subst bufsize. apply grown_same; lia.
Qed.

(** X4: [lsh_split_line] never stores outside the array it allocated,
    however many tokens the line has: the array is grown before it is
    full, and the call returns the tokens, the null pointer and the cells
    it has not written to. *)
Theorem lsh_split_line_in_bounds E line :
  lsh_split_line_buf E line = Ok (lsh_split_line E line).
Proof.
  unfold lsh_split_line_buf, lsh_split_line, malloc.
  pose proof (split_loop_spec E (strtok_all (cstr line) EmptyString) []
                LSH_TOK_BUFSIZE O eq_refl eq_refl) as H.
  cbn [fmap list_fmap app length] in H.
  rewrite Nat.sub_0_r in H. exact H.
Qed.

(** ** The line reader *)

Lemma lsh_read_line_Some input : forall l rest,
  lsh_read_line input = Some (l, rest)
  <-> input = l ++ nl ++ rest /\ no_newline l = true.
Proof.
  induction input as [|c input IH]; intros l rest; cbn [lsh_read_line].
  - split; [discriminate|]. intros [H _].
    destruct l; rewrite ?string_app_cons, ?string_app_nil_l, ?nl_app in H;
      discriminate.
  - destruct (Ascii.eqb c "010") eqn:Hc.
    + apply Ascii.eqb_eq in Hc as ->. split.
      * intros [= <- <-]. split; reflexivity.
      * intros [H Hl]. destruct l as [|d l].
        -- rewrite string_app_nil_l, nl_app in H. injection H as <-.
           reflexivity.
        -- rewrite string_app_cons in H. injection H as <- _.
           discriminate.
    + destruct (lsh_read_line input) as [[l' rest']|] eqn:Hr.
      * destruct (IH l' rest') as [[-> Hl'] _]; [reflexivity|]. split.
        -- intros [= <- <-]. rewrite string_app_cons. cbn [no_newline].
           now rewrite Hc, Hl'.
        -- intros [H Hl]. destruct l as [|d l].
           ++ rewrite string_app_nil_l, nl_app in H. injection H as -> _.
              discriminate.
           ++ rewrite string_app_cons in H. injection H as <- H.
              cbn [no_newline] in Hl. apply andb_true_iff in Hl as [_ Hl].
              destruct (IH l rest) as [_ Hb]. specialize (Hb (conj H Hl)).
              congruence.
      * split; [discriminate|]. intros [H Hl]. destruct l as [|d l].
        -- rewrite string_app_nil_l, nl_app in H. injection H as -> _.
           discriminate.
        -- rewrite string_app_cons in H. injection H as <- H.
           cbn [no_newline] in Hl. apply andb_true_iff in Hl as [_ Hl].
           destruct (IH l rest) as [_ Hb]. specialize (Hb (conj H Hl)).
           discriminate.
Qed.

Lemma lsh_read_line_None input :
  lsh_read_line input = None <-> no_newline input = true.
Proof.
  induction input as [|c input IH]; cbn [lsh_read_line no_newline].
  - tauto.
  - destruct (Ascii.eqb c "010"); cbn [negb andb].
    + split; discriminate.
    + rewrite <- IH. destruct (lsh_read_line input) as [[l r]|];
        split; congruence.
Qed.

(** X5: [lsh_read_line] returns the bytes in front of the first newline
    and leaves the input behind that newline unread; it returns no line
    exactly when the input holds no newline at all. *)
Theorem lsh_read_line_first_newline input :
  (forall l rest,
     lsh_read_line input = Some (l, rest)
     <-> input = l ++ nl ++ rest /\ no_newline l = true)
  /\ (lsh_read_line input = None <-> no_newline input = true).
Proof. split; [apply lsh_read_line_Some|apply lsh_read_line_None]. Qed.

Lemma cstr_app_NUL a b : cstr (a ++ String NUL b) = cstr a.
Proof.
  induction a as [|c a IH]; [reflexivity|].
  rewrite string_app_cons. cbn [cstr]. now rewrite IH.
Qed.

Lemma string_of_list_ascii_app' a b :
  string_of_list_ascii (a ++ b)
  = string_of_list_ascii a ++ string_of_list_ascii b.
Proof.
  induction a as [|c a IH]; [reflexivity|].
  cbn [app string_of_list_ascii]. now rewrite IH, string_app_cons.
Qed.

Lemma read_loop_spec fill input : forall done bufsize position,
  position = length done ->
  bufsize = (LSH_RL_BUFSIZE * (position / LSH_RL_BUFSIZE + 1))%nat ->
  match lsh_read_line input with
  | None =>
      read_loop fill input bufsize position
        (done ++ (fill <$> seq position (bufsize - position)))%list = Ok None
  | Some (l, rest) =>
      exists tail,
        read_loop fill input bufsize position
          (done ++ (fill <$> seq position (bufsize - position)))%list
        = Ok (Some (done ++ list_ascii_of_string l ++ NUL :: tail, rest)%list)
  end.
Proof.
  unfold LSH_RL_BUFSIZE.
  induction input as [|c input IH]; intros done bufsize position Hp Hb;
    cbn [lsh_read_line read_loop]; [reflexivity|].
  pose proof (grown_room 1024 position ltac:(lia)).
  rewrite !store_fill by lia.
  destruct (Ascii.eqb c "010") eqn:Hc.
  - eexists. rewrite <- app_assoc. reflexivity.
  - destruct (decide (bufsize <= S position)%nat) as [Hfull|Hroom].
    + assert (bufsize = S position) by lia.
      rewrite realloc_full
        by (rewrite length_app, !length_fmap, length_seq, length_app; simpl; lia).
      replace (bufsize - position - 1)%nat with O by lia.
      cbn [seq fmap list_fmap]. rewrite app_nil_r.
      rewrite length_app. cbn [length].
      replace (length done + 1)%nat with (S position) by lia.
      specialize (IH (done ++ [c])%list (bufsize + 1024)%nat (S position)).
      destruct (lsh_read_line input) as [[l rest]|].
      * destruct IH as [tail IH];
          [rewrite length_app; simpl; lia
          |subst bufsize; apply grown_full; lia|].
        exists tail. unfold LSH_RL_BUFSIZE. rewrite IH.
        cbn [list_ascii_of_string app]. now rewrite <- app_assoc.
      * apply IH; [rewrite length_app; simpl; lia
                  |subst bufsize; apply grown_full; lia].
    + specialize (IH (done ++ [c])%list bufsize (S position)).
      replace (bufsize - position - 1)%nat with (bufsize - S position)%nat
        by lia.
      destruct (lsh_read_line input) as [[l rest]|].
      * destruct IH as [tail IH];
          [rewrite length_app; simpl; lia
          |subst bufsize; apply grown_same; lia|].
        exists tail. rewrite IH.
        cbn [list_ascii_of_string app]. now rewrite <- app_assoc.
      * apply IH; [rewrite length_app; simpl; lia
                  |subst bufsize; apply grown_same; lia].
Qed.

(** X6: [lsh_read_line] never stores outside its buffer, however long the
    line is: the buffer is grown before it is full.  When the input holds
    a newline the call returns a buffer whose C string is the line up to
    its first NUL byte, and when it holds none the program exits. *)
Theorem lsh_read_line_in_bounds fill input :
  match lsh_read_line input with
  | None => lsh_read_line_buf fill input = Ok None
  | Some (l, rest) =>
      exists buffer,
        lsh_read_line_buf fill input = Ok (Some (buffer, rest))
        /\ buf_string buffer = cstr l
  end.
Proof.
  pose proof (read_loop_spec fill input [] LSH_RL_BUFSIZE O eq_refl eq_refl) as H.
  unfold lsh_read_line_buf, malloc.
  destruct (lsh_read_line input) as [[l rest]|].
  - destruct H as [tail H]. cbn [app] in H.
    rewrite Nat.sub_0_r in H. eexists. split; [exact H|].
    unfold buf_string. rewrite string_of_list_ascii_app'.
    cbn [string_of_list_ascii].
    now rewrite cstr_app_NUL, string_of_list_ascii_of_string.
  - cbn [app] in H. now rewrite Nat.sub_0_r in H.
Qed.

(** ** The interactive loop *)

Lemma all_delim_tokens s : all_delim s = true -> strtok_all s EmptyString = [].
Proof.
  intros H. rewrite <- (string_app_nil_r s). now rewrite strtok_all_delims.
Qed.

(** The turn of the loop that meets the end of the input. *)
Lemma lsh_loop_end_of_input E fuel s :
  shell_fds (s_fds s) ->
  lsh_read_line (w_in (s_world s)) = None ->
  lsh_loop E (S fuel) s
  = Ok (Some EndOfInput, with_w s (ep_write TermOut "shsh!% " (s_world s))).
Proof.
  intros (H0 & H1 & _) Hn.
  cbn [lsh_loop]. unfold fd_write, fd_avail, fd_lookup.
  rewrite H0, H1. cbn [default id ep_write ep_avail w_in].
  rewrite Hn. reflexivity.
Qed.



Lemma blank_line_execute E s line rest :
  all_delim (cstr line) = true ->
  lsh_execute E (prompted E s line rest) = Ok (1, prompted E s line rest).
Proof.
  intros Hb. unfold lsh_execute.
  erewrite bind_Ok.
  2:{ apply parg_Ok. cbn [prompted s_args]. unfold lsh_split_line.
      rewrite all_delim_tokens by exact Hb. reflexivity. }
  reflexivity.
Qed.

(** X8: blank lines run nothing.  On an input of blank lines, followed or
    not by a line that no newline ends, the shell writes one prompt for
    each line and one more, creates no process, writes nothing else and
    exits at the end of the input. *)
Theorem blank_lines_only_prompt E ls tl : forall fuel s,
  shell_fds (s_fds s) ->
  Forall blank ls -> no_newline tl = true ->
  w_in (s_world s) = feed ls ++ tl ->
  exists s',
    lsh_loop E (S (length ls + fuel)) s = Ok (Some EndOfInput, s')
    /\ w_out (s_world s')
       = w_out (s_world s) ++ prompts (S (length ls))
    /\ w_err (s_world s') = w_err (s_world s)
    /\ w_forks (s_world s') = w_forks (s_world s)
    /\ w_procs (s_world s') = w_procs (s_world s).
Proof.
  induction ls as [|l ls IH]; intros fuel s Hfds Hb Htl Hin.
  - cbn [feed] in Hin. rewrite string_app_nil_l in Hin.
    rewrite lsh_loop_end_of_input
      by (auto; apply lsh_read_line_None; now rewrite Hin).
    eexists. split; [reflexivity|]. now destruct s as [? ? ? []].
  - apply Forall_cons in Hb as [[Hnl Hd] Hb].
    assert (Hread : lsh_read_line (w_in (s_world s))
                    = Some (l, feed ls ++ tl)).
    { apply lsh_read_line_Some. split; [|exact Hnl].
      rewrite Hin. cbn [feed]. now rewrite !string_app_assoc. }
    cbn [length Nat.add].
    rewrite (lsh_loop_step E _ s l _ Hfds Hread).
    rewrite (bind_Ok _ _ _ _ _ (blank_line_execute E s l _ Hd)).
    cbn [Z.eqb].
    destruct (IH fuel (prompted E s l (feed ls ++ tl)))
      as (s' & Hrun & Hout & Herr & Hf & Hp); auto.
    exists s'. split; [exact Hrun|].
    cbn [prompted s_world w_out w_err w_forks w_procs] in *.
    rewrite Hout, Herr, Hf, Hp. repeat split.
    rewrite string_app_assoc. reflexivity.
Qed.

Lemma blank_lines_only_prompt_witness :
  exists s',
    lsh_loop lab 3 (booted "/" [] (feed [EmptyString; "  "] ++ "pwd"))
    = Ok (Some EndOfInput, s')
    /\ w_out (s_world s') = EmptyString ++ prompts 3
    /\ w_err (s_world s') = EmptyString
    /\ w_forks (s_world s') = O
    /\ w_procs (s_world s') = O.
Proof.
  apply (blank_lines_only_prompt lab [EmptyString; "  "] "pwd" O
           (booted "/" [] (feed [EmptyString; "  "] ++ "pwd"))).
  - split; [reflexivity|split; [reflexivity|apply booted_pipe_free]].
  - repeat constructor.
  - reflexivity.
  - reflexivity.
Defined.

(** ** The working directory of the interactive process *)

Lemma keeps_cwd_ret {A} (a : A) : keeps_cwd (ret a).
Proof. intros s a' s' [= _ <-]. reflexivity. Qed.

Lemma keeps_cwd_raise {A} f : keeps_cwd (@raise pstate A f).
Proof. intros s a s' [=]. Qed.

Lemma keeps_cwd_bind {A B} (m : P A) (k : A -> P B) :
  keeps_cwd m -> (forall a, keeps_cwd (k a)) -> keeps_cwd (bind m k).
Proof.
  intros Hm Hk s b s' H. unfold bind in H.
  destruct (m s) as [[a s1]|] eqn:Em; [|discriminate].
  rewrite (Hk a _ _ _ H). eauto.
Qed.

Lemma keeps_cwd_parg i : keeps_cwd (parg i).
Proof.
  intros s a s'. unfold parg. destruct (s_args s !! i); [|discriminate].
  now intros [= _ <-].
Qed.

Lemma keeps_cwd_pset_arg i c : keeps_cwd (pset_arg i c).
Proof.
  intros s a s'. unfold pset_arg. destruct (decide _); [|discriminate].
  now intros [= _ <-].
Qed.

Lemma keeps_cwd_pargs_size : keeps_cwd pargs_size.
Proof. intros s a s' [= _ <-]. reflexivity. Qed.

Lemma keeps_cwd_at_index {A} (l : list A) i : keeps_cwd (at_index l i).
Proof.
  unfold at_index. destruct (l !! i);
    [apply keeps_cwd_ret|apply keeps_cwd_raise].
Qed.

Lemma keeps_cwd_with_fds f : keeps_cwd (with_fds f).
Proof. intros s a s' [= _ <-]. reflexivity. Qed.

Lemma keeps_cwd_sys_pipe : keeps_cwd sys_pipe.
Proof. intros s a s' [= _ <-]. reflexivity. Qed.

(** Whatever the child does, the process that called [fork] stays where
    it is. *)
Lemma keeps_cwd_fork E child : keeps_cwd (fork E child).
Proof.
  intros s a s'. unfold fork.
  destruct (fork_ok E _); [destruct (child _) as [[c s1]|]|];
    now intros [= _ <-].
Qed.

Lemma keeps_cwd_pcount_args fuel : forall len, keeps_cwd (pcount_args fuel len).
Proof.
  induction fuel as [|fuel IH]; intros len; cbn [pcount_args].
  - apply keeps_cwd_raise.
  - apply keeps_cwd_bind; [apply keeps_cwd_parg|].
    intros [t|]; [apply IH|apply keeps_cwd_ret].
Qed.

Lemma keeps_cwd_scan_pipes fuel : forall i pc loc,
  keeps_cwd (scan_pipes fuel i pc loc).
Proof.
  induction fuel as [|fuel IH]; intros i pc loc; cbn [scan_pipes].
  - apply keeps_cwd_raise.
  - apply keeps_cwd_bind; [apply keeps_cwd_parg|].
    intros [t|]; [|apply keeps_cwd_ret].
    destruct (strcmp t "|" =? 0); [|apply IH].
    destruct (decide _); [|apply keeps_cwd_raise].
    apply keeps_cwd_bind; [apply keeps_cwd_pset_arg|intros _; apply IH].
Qed.

Lemma keeps_cwd_spawn_stages E n : forall i pc loc pfd,
  keeps_cwd (spawn_stages E n i pc loc pfd).
Proof.
  induction n as [|n IH]; intros i pc loc pfd; cbn [spawn_stages].
  - apply keeps_cwd_ret.
  - apply keeps_cwd_bind.
    + destruct (decide (i <> pc)); [|apply keeps_cwd_ret].
      apply keeps_cwd_bind; [apply keeps_cwd_sys_pipe|].
      intros ends. destruct (decide _);
        [apply keeps_cwd_ret|apply keeps_cwd_raise].
    + intros pfd'. apply keeps_cwd_bind; [apply keeps_cwd_fork|].
      intros _. apply keeps_cwd_bind; [|intros _; apply IH].
      destruct (decide (0 < i)%nat); [|apply keeps_cwd_ret].
      apply keeps_cwd_bind; [apply keeps_cwd_at_index|].
      intros pp. apply keeps_cwd_bind; [apply keeps_cwd_with_fds|].
      intros _. apply keeps_cwd_with_fds.
Qed.

Lemma keeps_cwd_lsh_execute E : keeps_cwd (lsh_execute E).
Proof.
  unfold lsh_execute.
  apply keeps_cwd_bind; [apply keeps_cwd_parg|].
  intros [t|]; [|apply keeps_cwd_ret].
  apply keeps_cwd_bind; [apply keeps_cwd_pargs_size|]. intros n.
  apply keeps_cwd_bind; [apply keeps_cwd_pcount_args|]. intros _.
  apply keeps_cwd_bind; [apply keeps_cwd_scan_pipes|]. intros [pc loc].
  destruct (decide (pc = 0)%nat).
  - apply keeps_cwd_bind; [apply keeps_cwd_fork|].
    intros [st|]; [apply keeps_cwd_ret|apply keeps_cwd_raise].
  - apply keeps_cwd_bind; [apply keeps_cwd_spawn_stages|]. intros _.
    apply keeps_cwd_bind; [apply keeps_cwd_ret|]. intros _.
    apply keeps_cwd_ret.
Qed.

(** X9: the interactive process never changes its working directory:
    whatever lines it reads and runs, and whether the forks succeed or
    not, the shell ends in the directory it was started in. *)
Theorem shell_stays_in_its_directory E fuel : forall s r s',
  lsh_loop E fuel s = Ok (r, s') -> s_cwd s' = s_cwd s.
Proof.
  induction fuel as [|fuel IH]; intros s r s'; cbn [lsh_loop].
  - now intros [= _ <-].
  - destruct (lsh_read_line _) as [[line rest]|].
    + unfold bind.
      destruct (lsh_execute E _) as [[status s1]|] eqn:Hx; [|discriminate].
      apply keeps_cwd_lsh_execute in Hx. cbn [s_cwd] in Hx.
      destruct (status =? 0).
      * intros [= _ <-]. exact Hx.
      * intros H. apply IH in H. congruence.
    + now intros [= _ <-].
Qed.

Lemma shell_stays_in_its_directory_witness :
  exists r s',
    lsh_loop lab 4 (booted "/" [] ("cd /tmp" ++ nl ++ "pwd" ++ nl))
    = Ok (r, s')
    /\ w_out (s_world s') = "shsh!% shsh!% /" ++ nl ++ "shsh!% "
    /\ s_cwd s' = "/".
Proof.
  eexists _, _. split; [vm_compute; reflexivity|]. split; [reflexivity|].
  refine (shell_stays_in_its_directory lab 4
            (booted "/" [] ("cd /tmp" ++ nl ++ "pwd" ++ nl)) (Some EndOfInput)
            _ _).
  vm_compute. reflexivity.
Defined.

(** ** Commands typed into the shell *)

Lemma term_fd_write fds fd ep t w :
  fds !! fd = Some (Some ep) -> fd_write fds fd t w = ep_write ep t w.
Proof. intros H. unfold fd_write, fd_lookup. now rewrite H. Qed.

Lemma term_fd_avail fds fd ep w :
  fds !! fd = Some (Some ep) -> fd_avail fds fd w = ep_avail ep w.
Proof. intros H. unfold fd_avail, fd_lookup. now rewrite H. Qed.

Lemma term_fd_set_avail fds fd ep t w :
  fds !! fd = Some (Some ep) -> fd_set_avail fds fd t w = ep_set_avail ep t w.
Proof. intros H. unfold fd_set_avail, fd_lookup. now rewrite H. Qed.

(** A single built-in command in a shell on its terminal: what the
    handler reads and writes is read from and written to the terminal. *)
Lemma builtin_on_terminal E s name toks junk f r h' :
  term_fds (s_fds s) ->
  s_args s = ((Some <$> name :: toks) ++ None :: junk)%list ->
  pipes_of (name :: toks) = O ->
  find_builtin name builtin_str (builtin_func E) = Some f ->
  fork_ok E (w_forks (s_world s)) = true ->
  f (fresh (s_cwd s) (s_args s) (w_in (s_world s))) = Ok (r, h') ->
  lsh_execute E s
  = Ok (r mod 256,
        with_w s (after_child (s_world s) (h_in h') (h_out h') (h_err h'))).
Proof.
  intros (H0 & H1 & H2) Ha Hk Hf Hok Hrun.
  rewrite (single_command E s name toks junk Ha Hk Hok).
  assert (Hl : s_args s !! O = Some (Some name)) by now rewrite Ha.
  unfold lsh_launch. cbn [with_w s_args]. rewrite Hl, Hf.
  unfold call_builtin. cbn [with_w s_cwd s_fds s_args s_world].
  rewrite (term_fd_avail _ _ _ _ H0), drop_0.
  cbn [ep_avail count_fork w_in].
  unfold fresh in Hrun. rewrite Hrun.
  rewrite (term_fd_set_avail _ _ _ _ _ H0),
    (term_fd_write _ _ _ _ _ H1), (term_fd_write _ _ _ _ _ H2).
  reflexivity.
Qed.

Lemma pipes_of_cons_word t toks :
  (strcmp t "|" =? 0) = false -> pipes_of (t :: toks) = pipes_of toks.
Proof.
  intros Ht. unfold pipes_of. cbn [pipe_positions]. rewrite Ht.
  clear Ht. generalize O at 2. generalize 1%nat.
  induction toks as [|x toks IH]; intros i j; [reflexivity|].
  cbn [pipe_positions]. destruct (strcmp x "|" =? 0); cbn [length]; auto.
Qed.

Lemma prompted_args E s line rest toks :
  strtok_all (cstr line) EmptyString = toks ->
  s_args (prompted E s line rest)
  = ((Some <$> toks) ++ None
     :: (heap E <$> seq (S (length toks))
           (LSH_TOK_BUFSIZE * (length toks / LSH_TOK_BUFSIZE + 1)
            - S (length toks))))%list.
Proof. intros <-. reflexivity. Qed.

(** X10: [echo] typed into the shell prints the tokens that follow it
    with one space between two of them, however they were spaced on the
    line, a token [$v] replaced by the value of [v] when set, and a newline
    after the last; the unread input is left to the next turn. *)
Theorem echo_line_prints_tokens E s line rest xs ys :
  term_fds (s_fds s) ->
  fork_ok E (w_forks (s_world s)) = true ->
  strtok_all (cstr line) EmptyString = "echo" :: xs ->
  pipes_of xs = O ->
  Forall2 (fun x y => expand E x = Some y) xs ys ->
  lsh_execute E (prompted E s line rest)
  = Ok (1, with_w (prompted E s line rest)
             (after_child (s_world (prompted E s line rest)) rest
                (echo_text ys) EmptyString)).
Proof.
  intros Hfds Hok Htok Hk Hx.
  pose proof (prompted_args E s line rest _ Htok) as Ha.
  pose proof (lsh_echo_prints E
                (fresh (s_cwd s) (s_args (prompted E s line rest)) rest)
                "echo" xs ys _ Ha Hx) as Hrun.
  rewrite (builtin_on_terminal E (prompted E s line rest) "echo" xs _
             (lsh_echo E) 1 _ Hfds Ha
             ltac:(now rewrite pipes_of_cons_word) eq_refl Hok Hrun).
  reflexivity.
Qed.

Lemma echo_line_prints_tokens_witness :
  lsh_execute lab (prompted lab (booted "/" [] EmptyString)
                     "  echo   a   $HOME " EmptyString)
  = Ok (1, with_w (prompted lab (booted "/" [] EmptyString)
                     "  echo   a   $HOME " EmptyString)
             (after_child
                (s_world (prompted lab (booted "/" [] EmptyString)
                            "  echo   a   $HOME " EmptyString))
                EmptyString (echo_text ["a"; "/root"]) EmptyString)).
Proof.
  apply (echo_line_prints_tokens lab (booted "/" [] EmptyString)
           "  echo   a   $HOME " EmptyString ["a"; "$HOME"] ["a"; "/root"]).
  - repeat split.
  - reflexivity.
  - reflexivity.
  - reflexivity.
  - repeat constructor.
Defined.

(** X11: [pwd] typed into the shell prints the working directory of the
    shell and a newline, whatever tokens follow it; a directory name of
    1024 bytes or more does not fit [cwd] and is reported on standard error
    instead. *)
Theorem pwd_line_prints_directory E s line rest xs :
  term_fds (s_fds s) ->
  fork_ok E (w_forks (s_world s)) = true ->
  strtok_all (cstr line) EmptyString = "pwd" :: xs ->
  pipes_of xs = O ->
  lsh_execute E (prompted E s line rest)
  = Ok (1, with_w (prompted E s line rest)
             (if decide (String.length (s_cwd s) < LSH_PATHSIZE)%nat
              then after_child (s_world (prompted E s line rest)) rest
                     (s_cwd s ++ nl) EmptyString
              else after_child (s_world (prompted E s line rest)) rest
                     EmptyString ("lsh: " ++ strerror E ERANGE ++ nl))).
Proof.
  intros Hfds Hok Htok Hk.
  pose proof (prompted_args E s line rest _ Htok) as Ha.
  destruct (decide (String.length (s_cwd s) < LSH_PATHSIZE)%nat) as [Hs|Hl].
  - rewrite (builtin_on_terminal E (prompted E s line rest) "pwd" xs _
               (lsh_pwd E) 1
               (with_out (fresh (s_cwd s) (s_args (prompted E s line rest)) rest)
                  (s_cwd s ++ nl))
               Hfds Ha ltac:(now rewrite pipes_of_cons_word) eq_refl Hok).
    + reflexivity.
    + unfold lsh_pwd.
      erewrite bind_Ok by (apply arg_Ok; cbn [fresh h_args]; rewrite Ha;
                           reflexivity).
      cbv beta iota. erewrite bind_Ok by reflexivity.
      cbn [fresh h_cwd prompted s_cwd]. rewrite decide_True by exact Hs.
      reflexivity.
  - rewrite (builtin_on_terminal E (prompted E s line rest) "pwd" xs _
               (lsh_pwd E) 1
               (with_err (fresh (s_cwd s) (s_args (prompted E s line rest)) rest)
                  ("lsh: " ++ strerror E ERANGE ++ nl))
               Hfds Ha ltac:(now rewrite pipes_of_cons_word) eq_refl Hok).
    + reflexivity.
    + unfold lsh_pwd.
      erewrite bind_Ok by (apply arg_Ok; cbn [fresh h_args]; rewrite Ha;
                           reflexivity).
      cbv beta iota. erewrite bind_Ok by reflexivity.
      cbn [fresh h_cwd prompted s_cwd]. rewrite decide_False by exact Hl.
      reflexivity.
Qed.

Lemma pwd_line_prints_directory_witness :
  lsh_execute lab (prompted lab (booted "/usr" [] EmptyString)
                     "pwd -P" EmptyString)
  = Ok (1, with_w (prompted lab (booted "/usr" [] EmptyString)
                     "pwd -P" EmptyString)
             (after_child
                (s_world (prompted lab (booted "/usr" [] EmptyString)
                            "pwd -P" EmptyString))
                EmptyString ("/usr" ++ nl) EmptyString)).
Proof.
  apply (pwd_line_prints_directory lab (booted "/usr" [] EmptyString)
           "pwd -P" EmptyString ["-P"]).
  - repeat split.
  - reflexivity.
  - reflexivity.
  - reflexivity.
Defined.

Lemma argv_of_tokens toks junk :
  argv_of ((Some <$> toks) ++ None :: junk) = toks.
Proof.
  induction toks as [|t toks IH]; [reflexivity|].
  rewrite fmap_cons. cbn [app argv_of]. now rewrite IH.
Qed.

(** X12: a command that cannot be executed.  When [execvp] fails, the
    process made for the program writes [lsh: ] and the error's text to
    standard error and exits; two processes were created, nothing was
    written to standard output or read, and [lsh_execute] returns 1. *)
Theorem unknown_command_reports_error E s name toks junk e :
  term_fds (s_fds s) ->
  s_args s = ((Some <$> name :: toks) ++ None :: junk)%list ->
  pipes_of (name :: toks) = O ->
  find_builtin name builtin_str (builtin_func E) = None ->
  fork_ok E (w_forks (s_world s)) = true ->
  fork_ok E (S (w_forks (s_world s))) = true ->
  sys_exec E (s_cwd s) (name :: toks) (w_in (s_world s)) = inl e ->
  lsh_execute E s
  = Ok (1, with_w s
             (after_child (count_fork true (s_world s)) (w_in (s_world s))
                EmptyString ("lsh: " ++ strerror E e ++ nl))).
Proof.
  intros (H0 & H1 & H2) Ha Hk Hf Hok1 Hok2 Hx.
  rewrite (single_command E s name toks junk Ha Hk Hok1).
  assert (Hl : s_args s !! O = Some (Some name)) by now rewrite Ha.
  unfold lsh_launch. cbn [with_w s_args]. rewrite Hl, Hf.
  unfold bind. rewrite fork_ok_spec by exact Hok2.
  unfold exec_child. cbn [with_w s_cwd s_fds s_args s_world].
  rewrite (term_fd_avail _ _ _ _ H0), drop_0, Ha, argv_of_tokens.
  cbn [ep_avail count_fork w_in]. rewrite Hx.
  rewrite (term_fd_write _ _ _ _ _ H2).
  cbn [ep_write count_fork w_in w_out w_err w_pipes w_forks w_procs].
  unfold after_child.
  cbn [count_fork w_in w_out w_err w_pipes w_forks w_procs].
  now rewrite string_app_nil_r.
Qed.

Lemma unknown_command_reports_error_witness :
  lsh_execute lab (booted "/" [Some "nosuch"; Some "-x"; None] EmptyString)
  = Ok (1, with_w (booted "/" [Some "nosuch"; Some "-x"; None] EmptyString)
             (after_child
                (count_fork true
                   (s_world (booted "/" [Some "nosuch"; Some "-x"; None]
                               EmptyString)))
                EmptyString EmptyString
                ("lsh: " ++ strerror lab ENOENT ++ nl))).
Proof.
  apply (unknown_command_reports_error lab
           (booted "/" [Some "nosuch"; Some "-x"; None] EmptyString)
           "nosuch" ["-x"] [] ENOENT);
    try reflexivity.
  repeat split.
Defined.

(** ** Failing forks and full tables *)

Lemma fork_failed_spec E child s :
  fork_ok E (w_forks (s_world s)) = false ->
  fork E child s = Ok (None, with_w s (count_fork false (s_world s))).
Proof. intros Hno. unfold fork. rewrite Hno. reflexivity. Qed.

(** X13: when the [fork] for a single command fails, nothing is run, and
    [lsh_execute] goes on to test [status], which no call has set. *)
Theorem failed_fork_reads_unset_status E s t toks junk :
  s_args s = ((Some <$> t :: toks) ++ None :: junk)%list ->
  pipes_of (t :: toks) = O ->
  fork_ok E (w_forks (s_world s)) = false ->
  lsh_execute E s = Fault NoStatus.
Proof.
  intros Ha Hk Hno.
  rewrite (lsh_execute_scan E s t toks junk Ha) by lia.
  rewrite decide_True by exact Hk.
  unfold bind. rewrite fork_failed_spec by exact Hno. reflexivity.
Qed.

Lemma failed_fork_reads_unset_status_witness :
  lsh_execute (lab_forking (fun _ => false))
    (booted "/" [Some "pwd"; None] EmptyString)
  = Fault NoStatus.
Proof.
  apply (failed_fork_reads_unset_status (lab_forking (fun _ => false))
           (booted "/" [Some "pwd"; None] EmptyString) "pwd" [] []);
    reflexivity.
Defined.

(** X14: when the [fork] for the program of an external command fails,
    the child of the interactive process reports it on standard error and
    exits with 1: one process was created, no program was run, and
    [lsh_execute] returns 1. *)
Theorem failed_launch_is_reported E s name toks junk :
  term_fds (s_fds s) ->
  s_args s = ((Some <$> name :: toks) ++ None :: junk)%list ->
  pipes_of (name :: toks) = O ->
  find_builtin name builtin_str (builtin_func E) = None ->
  fork_ok E (w_forks (s_world s)) = true ->
  fork_ok E (S (w_forks (s_world s))) = false ->
  exists w' msg,
    lsh_execute E s = Ok (1, with_w s w')
    /\ w_procs w' = S (w_procs (s_world s))
    /\ w_in w' = w_in (s_world s) /\ w_out w' = w_out (s_world s)
    /\ w_err w' = w_err (s_world s) ++ "lsh: " ++ msg ++ nl.
Proof.
  intros (H0 & H1 & H2) Ha Hk Hf Hok1 Hno.
  rewrite (single_command E s name toks junk Ha Hk Hok1).
  assert (Hl : s_args s !! O = Some (Some name)) by now rewrite Ha.
  unfold lsh_launch. cbn [with_w s_args]. rewrite Hl, Hf.
  unfold bind. rewrite fork_failed_spec by exact Hno.
  unfold with_world, ret. cbn [with_w s_cwd s_fds s_args s_world].
  rewrite (term_fd_write _ _ _ _ _ H2).
  eexists _, _. split; [reflexivity|]. repeat split.
Qed.

Lemma failed_launch_is_reported_witness :
  exists w' msg,
    lsh_execute (lab_forking (Nat.eqb O))
      (booted "/" [Some "ls"; None] EmptyString)
    = Ok (1, with_w (booted "/" [Some "ls"; None] EmptyString) w')
    /\ w_procs w' = 1%nat
    /\ w_in w' = EmptyString /\ w_out w' = EmptyString
    /\ w_err w' = EmptyString ++ "lsh: " ++ msg ++ nl.
Proof.
  apply (failed_launch_is_reported (lab_forking (Nat.eqb O))
           (booted "/" [Some "ls"; None] EmptyString) "ls" [] []);
    try reflexivity.
  repeat split.
Defined.

Lemma scan_pipes_overflow toks : forall fuel pre junk pc loc s,
  s_args s = (pre ++ (Some <$> toks) ++ None :: junk)%list ->
  (pc < length loc)%nat ->
  (length loc <= pc + length (pipe_positions (length pre) toks))%nat ->
  scan_pipes fuel (length pre) pc loc s = Fault OutOfBounds.
Proof.
  induction toks as [|t toks IH]; intros fuel pre junk pc loc s Ha Hpc Hl;
    [simpl in Hl; lia|].
  destruct fuel as [|fuel]; [reflexivity|].
  cbn [scan_pipes pipe_positions] in *. rewrite fmap_cons in Ha.
  erewrite bind_Ok
    by (apply parg_Ok; rewrite Ha; now apply list_lookup_middle).
  cbv beta iota.
  assert (HS : S (length pre) = length (pre ++ [cut t])%list)
    by (rewrite length_app; simpl; lia).
  destruct (strcmp t "|" =? 0) eqn:Ht.
  - cbn [length] in Hl.
    destruct (decide (S pc < length loc)%nat) as [Hlt|Hge]; [|reflexivity].
    unfold bind at 1. unfold pset_arg.
    rewrite decide_True by (rewrite Ha, length_app; simpl; lia).
    rewrite HS. apply (IH fuel (pre ++ [cut t])%list junk).
    + cbn [s_args]. rewrite Ha, (cut_pipe t Ht).
      rewrite <- (Nat.add_0_r (length pre)) at 1.
      rewrite insert_app_r. now rewrite <- app_assoc.
    + now rewrite length_insert.
    + rewrite length_insert, <- HS. lia.
  - rewrite HS. apply (IH fuel (pre ++ [cut t])%list junk).
    + rewrite Ha, (cut_token t Ht). now rewrite <- app_assoc.
    + exact Hpc.
    + rewrite <- HS. exact Hl.
Qed.

(** X15: a line with ten separators or more is too much for
    [pipe_locate]: the scan of [lsh_execute] stores the position of the
    tenth separator behind the last element of the array, before any
    process is created. *)
Theorem ten_separators_overflow E s t toks junk :
  s_args s = ((Some <$> t :: toks) ++ None :: junk)%list ->
  (10 <= pipes_of (t :: toks))%nat ->
  lsh_execute E s = Fault OutOfBounds.
Proof.
  intros Ha Hk. unfold lsh_execute.
  erewrite bind_Ok by (apply parg_Ok; rewrite Ha; reflexivity).
  cbv beta iota. erewrite bind_Ok by reflexivity.
  assert (Hlen : (length (t :: toks) < S (length (s_args s)))%nat).
  { rewrite Ha, length_app, length_fmap. lia. }
  erewrite bind_Ok
    by (apply (pcount_args_spec _ s [] (t :: toks) junk); [exact Ha|exact Hlen]).
  unfold bind.
  rewrite (scan_pipes_overflow (t :: toks) _ [] junk O pipe_locate0 s Ha);
    [reflexivity|simpl; lia|exact Hk].
Qed.

Lemma ten_separators_overflow_witness :
  lsh_execute lab
    (booted "/"
       ((Some <$> ["a"; "|"; "a"; "|"; "a"; "|"; "a"; "|"; "a"; "|"; "a"; "|";
                   "a"; "|"; "a"; "|"; "a"; "|"; "a"; "|"; "a"]) ++ [None])
       EmptyString)
  = Fault OutOfBounds.
Proof.
  apply (ten_separators_overflow lab _ "a"
           ["|"; "a"; "|"; "a"; "|"; "a"; "|"; "a"; "|"; "a"; "|";
            "a"; "|"; "a"; "|"; "a"; "|"; "a"; "|"; "a"] []).
  - reflexivity.
  - vm_compute. lia.
Defined.

(** ** The environment [main] sets up *)

Lemma is_dollar_tail x v :
  is_dollar x = true -> str_tail x = v -> x = String "$" v.
Proof.
  destruct x as [|c x]; [discriminate|]. cbn [is_dollar str_tail].
  intros Hc%Ascii.eqb_eq ->. now subst.
Qed.

(** X16: [main] runs the loop in an environment where [SHELL] and [0]
    are both [- SHSH], whatever they were before; the arguments [$SHELL]
    and [$0] of [echo] are replaced by that text, and every other argument
    by what the environment the shell was started in gives. *)
Theorem main_sets_shell_variables E :
  (forall fuel,
     main E fuel
     = lsh_loop (setenv "SHELL" "- SHSH" (setenv "0" "- SHSH" E)) fuel)
  /\ forall x,
       expand (setenv "SHELL" "- SHSH" (setenv "0" "- SHSH" E)) x
       = if decide (x = "$SHELL" \/ x = "$0") then Some "- SHSH"
         else expand E x.
Proof.
  split; [reflexivity|]. intros x. unfold expand.
  destruct (is_dollar x) eqn:Hd.
  - cbn [setenv getenv].
    destruct (String.eqb (str_tail x) "SHELL") eqn:H1.
    + apply String.eqb_eq in H1. apply (is_dollar_tail x _ Hd) in H1.
      rewrite decide_True by tauto. reflexivity.
    + destruct (String.eqb (str_tail x) "0") eqn:H2.
      * apply String.eqb_eq in H2. apply (is_dollar_tail x _ Hd) in H2.
        rewrite decide_True by tauto. reflexivity.
      * rewrite decide_False; [reflexivity|].
        intros [->| ->]; discriminate.
  - rewrite decide_False; [reflexivity|].
    intros [->| ->]; discriminate.
Qed.

(** ** The table of built-ins *)

(** X17: [lsh_launch] finds a handler for the seven names of
    [builtin_str] and for no other string (the comparison is exact, so
    that [CD] or [cd.] name no built-in), and the handler found is the
    entry of [builtin_func] at the index of the name. *)
Theorem find_builtin_exact E name :
  (is_Some (find_builtin name builtin_str (builtin_func E))
   <-> name ∈ builtin_str)
  /\ forall i, builtin_str !! i = Some name ->
       find_builtin name builtin_str (builtin_func E) = builtin_func E !! i.
Proof.
  split.
  - split.
    + intros [f Hf]. apply find_builtin_cases in Hf.
      unfold builtin_str. rewrite !elem_of_cons.
      destruct Hf as [[-> _]|[[-> _]|[[-> _]|[[-> _]|[[-> _]|[[-> _]|[-> _]]]]]]];
        tauto.
    + unfold builtin_str. rewrite !elem_of_cons, elem_of_nil.
      intros [->|[->|[->|[->|[->|[->|[->|[]]]]]]]]; eexists; reflexivity.
  - intros i Hi.
    do 7 (destruct i as [|i]; [injection Hi as <-; reflexivity|]).
    discriminate.
Qed.

(** ** cat *)

Lemma with_err_same h : with_err h (h_err h) = h.
Proof. now destruct h. Qed.

(** The loop of [lsh_cat] over files that can all be opened. *)
Lemma cat_loop_prints E paths : forall contents h c0 pre rest,
  h_args h = arr c0 (pre ++ paths)%list rest ->
  Forall2 (fun p c => sys_open E (h_cwd h) p = Some c) paths contents ->
  cat_loop E (length paths) (S (length pre)) h
  = Ok (true, with_out h (h_out h ++ String.concat EmptyString contents)).
Proof.
  induction paths as [|p paths IH]; intros contents h c0 pre rest Ha Hx;
    inversion Hx as [|? c ? cs Hp Hps]; subst; cbn [length cat_loop].
  - unfold ret. cbn [String.concat].
    now rewrite string_app_nil_r, with_out_same.
  - erewrite bind_Ok
      by (eapply arg_arr; [exact Ha|now apply list_lookup_middle]).
    cbv beta iota. erewrite bind_Ok by reflexivity. rewrite Hp.
    erewrite bind_Ok by reflexivity.
    replace (S (length pre)) with (length (pre ++ [p])%list)
      by (rewrite length_app; simpl; lia).
    rewrite (IH cs _ c0 (pre ++ [p])%list rest);
      [|cbn [h_args]; rewrite Ha; now rewrite <- app_assoc|exact Hps].
    unfold with_out. cbn [h_cwd h_args h_in h_out h_err].
    do 3 f_equal. rewrite string_app_assoc. f_equal.
    destruct cs; [now rewrite string_app_nil_r|reflexivity].
Qed.

(** The loop of [lsh_cat] meeting a file that cannot be opened. *)
Lemma cat_loop_stops E good : forall contents bad more h c0 pre rest,
  h_args h = arr c0 (pre ++ good ++ bad :: more)%list rest ->
  Forall2 (fun p c => sys_open E (h_cwd h) p = Some c) good contents ->
  sys_open E (h_cwd h) bad = None ->
  cat_loop E (length (good ++ bad :: more)) (S (length pre)) h
  = Ok (false,
        with_err (with_out h (h_out h ++ String.concat EmptyString contents))
          (h_err h ++ "Error: " ++ bad ++ ": file not found" ++ nl)).
Proof.
  induction good as [|p good IH]; intros contents bad more h c0 pre rest Ha Hx Hb;
    inversion Hx as [|? c ? cs Hp Hps]; subst; cbn [app length cat_loop].
  - erewrite bind_Ok
      by (eapply arg_arr; [exact Ha|now apply list_lookup_middle]).
    cbv beta iota. erewrite bind_Ok by reflexivity. rewrite Hb.
    erewrite bind_Ok by reflexivity. unfold ret.
    cbn [String.concat]. now rewrite string_app_nil_r, with_out_same.
  - erewrite bind_Ok
      by (eapply arg_arr; [exact Ha|now apply list_lookup_middle]).
    cbv beta iota. erewrite bind_Ok by reflexivity. rewrite Hp.
    erewrite bind_Ok by reflexivity.
    replace (S (length pre)) with (length (pre ++ [p])%list)
      by (rewrite length_app; simpl; lia).
    rewrite (IH cs bad more _ c0 (pre ++ [p])%list rest);
      [|cbn [h_args]; rewrite Ha; now rewrite <- app_assoc|exact Hps
       |exact Hb].
    unfold with_err, with_out. cbn [h_cwd h_args h_in h_out h_err].
    do 3 f_equal. rewrite string_app_assoc. f_equal.
    destruct cs; [now rewrite string_app_nil_r|reflexivity].
Qed.

(** X18: [cat] writes the contents of the files it is given to its
    standard output, in the order of its arguments, when every one of them
    can be opened; it reads nothing from its standard input. *)
Theorem lsh_cat_prints_files E h name p paths contents rest :
  h_args h = arr (Some name) (p :: paths) (None :: rest) ->
  Forall2 (fun p c => sys_open E (h_cwd h) p = Some c) (p :: paths) contents ->
  lsh_cat E h
  = Ok (1, with_out h (h_out h ++ String.concat EmptyString contents)).
Proof.
  intros Ha Hx. unfold lsh_cat.
  erewrite bind_Ok by (apply (args_len_arr h name (p :: paths) rest Ha)).
  rewrite decide_False by (simpl; lia).
  replace (S (length (p :: paths)) - 1)%nat with (length (p :: paths))
    by (simpl; lia).
  erewrite bind_Ok
    by (apply (cat_loop_prints E (p :: paths) contents h (Some name) []
                 (None :: rest) Ha Hx)).
  reflexivity.
Qed.

Lemma lsh_cat_prints_files_witness :
  lsh_cat lab (fresh "/" [Some "cat"; Some "f"; Some "f"; None] "unread")
  = Ok (1, with_out
             (fresh "/" [Some "cat"; Some "f"; Some "f"; None] "unread")
             (EmptyString ++ String.concat EmptyString ["hello"; "hello"])).
Proof.
  apply (lsh_cat_prints_files lab
           (fresh "/" [Some "cat"; Some "f"; Some "f"; None] "unread")
           "cat" "f" ["f"] ["hello"; "hello"] []).
  - reflexivity.
  - repeat constructor.
Defined.

(** X19: [cat] stops at the first file it cannot open: the files in
    front of it have been written to standard output, the failure is
    reported on standard error, the files behind it are not looked at,
    and the handler returns 1. *)
Theorem lsh_cat_stops_at_missing_file E h name good contents bad more rest :
  h_args h = arr (Some name) (good ++ bad :: more) (None :: rest) ->
  Forall2 (fun p c => sys_open E (h_cwd h) p = Some c) good contents ->
  sys_open E (h_cwd h) bad = None ->
  lsh_cat E h
  = Ok (1, with_err
             (with_out h (h_out h ++ String.concat EmptyString contents))
             (h_err h ++ "Error: " ++ bad ++ ": file not found" ++ nl)).
Proof.
  intros Ha Hx Hb. unfold lsh_cat.
  erewrite bind_Ok
    by (apply (args_len_arr h name (good ++ bad :: more)%list rest Ha)).
  rewrite decide_False by (rewrite length_app; simpl; lia).
  replace (S (length (good ++ bad :: more)) - 1)%nat
    with (length (good ++ bad :: more)%list) by lia.
  erewrite bind_Ok
    by (apply (cat_loop_stops E good contents bad more h (Some name) []
                 (None :: rest) Ha Hx Hb)).
  reflexivity.
Qed.

Lemma lsh_cat_stops_at_missing_file_witness :
  lsh_cat lab (fresh "/" [Some "cat"; Some "f"; Some "g"; Some "f"; None]
                 EmptyString)
  = Ok (1, with_err
             (with_out
                (fresh "/" [Some "cat"; Some "f"; Some "g"; Some "f"; None]
                   EmptyString)
                (EmptyString ++ String.concat EmptyString ["hello"]))
             (EmptyString ++ "Error: " ++ "g" ++ ": file not found" ++ nl)).
Proof.
  apply (lsh_cat_stops_at_missing_file lab
           (fresh "/" [Some "cat"; Some "f"; Some "g"; Some "f"; None]
              EmptyString)
           "cat" ["f"] ["hello"] "g" ["f"] []).
  - reflexivity.
  - repeat constructor.
  - reflexivity.
Defined.

(** X20: [cat] without a file name does not copy its standard input:
    it writes its usage line to standard error, writes and reads nothing
    else, and returns 1. *)
Theorem lsh_cat_without_file E h name rest :
  h_args h = arr (Some name) [] (None :: rest) ->
  lsh_cat E h
  = Ok (1, with_err h (h_err h ++ "Error: usage: cat filename" ++ nl)).
Proof.
  intros Ha. unfold lsh_cat.
  erewrite bind_Ok by (apply (args_len_arr h name [] rest Ha)).
  rewrite decide_True by (simpl; lia). reflexivity.
Qed.

Lemma lsh_cat_without_file_witness :
  lsh_cat lab (fresh "/" [Some "cat"; None] ("some" ++ nl ++ "input" ++ nl))
  = Ok (1, with_err
             (fresh "/" [Some "cat"; None] ("some" ++ nl ++ "input" ++ nl))
             (EmptyString ++ "Error: usage: cat filename" ++ nl)).
Proof.
  apply (lsh_cat_without_file lab
           (fresh "/" [Some "cat"; None] ("some" ++ nl ++ "input" ++ nl))
           "cat" []).
  reflexivity.
Defined.

(** ** More on the sort built-in *)

Lemma strcmp_antisym a b : strcmp a b <= 0 -> strcmp b a <= 0 -> a = b.
Proof.
  revert b; induction a as [|c a IH]; intros [|d b]; simpl; try lia;
    [reflexivity|].
  rewrite (Ascii.eqb_sym d c).
  destruct (Ascii.eqb_spec c d) as [->|Hne].
  - intros H1 H2. f_equal. now apply IH.
  - destruct (Nat.ltb_spec (nat_of_ascii c) (nat_of_ascii d)); [|lia].
    destruct (Nat.ltb_spec (nat_of_ascii d) (nat_of_ascii c)); lia.
Qed.

#[local] Instance le_str_antisym : AntiSymm eq le_str.
Proof. intros a b. apply strcmp_antisym. Qed.

Lemma exchange_sort_perm l1 l2 :
  l1 ≡ₚ l2 -> exchange_sort l1 = exchange_sort l2.
Proof.
  intros Hp.
  destruct (exchange_sort_spec l1) as (Hp1 & Hs1 & _).
  destruct (exchange_sort_spec l2) as (Hp2 & Hs2 & _).
  apply (StronglySorted_unique le_str); auto.
  now rewrite Hp1, Hp2.
Qed.

(** X21: what [sort] prints does not depend on the order of its
    arguments: two calls whose arguments are the same strings, each as
    often in the one as in the other, write the same text. *)
Theorem lsh_sort_ignores_order h1 h2 n1 n2 x1 l1 x2 l2 r1 r2 :
  h_args h1 = arr (Some n1) (x1 :: l1) (None :: r1) ->
  h_args h2 = arr (Some n2) (x2 :: l2) (None :: r2) ->
  x1 :: l1 ≡ₚ x2 :: l2 ->
  exists text h1' h2',
    lsh_sort h1 = Ok (1, h1') /\ lsh_sort h2 = Ok (1, h2')
    /\ h_out h1' = h_out h1 ++ text /\ h_out h2' = h_out h2 ++ text.
Proof.
  intros Ha1 Ha2 Hp.
  exists (numbered 1 (exchange_sort (x1 :: l1))). eexists _, _.
  split; [exact (lsh_sort_args h1 n1 x1 l1 r1 Ha1)|].
  split; [exact (lsh_sort_args h2 n2 x2 l2 r2 Ha2)|].
  split; [reflexivity|].
  unfold sorted_state, with_out. cbn [h_out].
  now rewrite (exchange_sort_perm _ _ Hp).
Qed.

Lemma lsh_sort_ignores_order_witness :
  exists text h1' h2',
    lsh_sort (fresh "/" [Some "sort"; Some "b"; Some "a"; Some "b"; None]
                EmptyString) = Ok (1, h1')
    /\ lsh_sort (fresh "/" [Some "sort"; Some "b"; Some "b"; Some "a"; None]
                   EmptyString) = Ok (1, h2')
    /\ h_out h1' = EmptyString ++ text /\ h_out h2' = EmptyString ++ text.
Proof.
  apply (lsh_sort_ignores_order
           (fresh "/" [Some "sort"; Some "b"; Some "a"; Some "b"; None]
              EmptyString)
           (fresh "/" [Some "sort"; Some "b"; Some "b"; Some "a"; None]
              EmptyString)
           "sort" "sort" "b" ["a"; "b"] "b" ["b"; "a"] [] []).
  - reflexivity.
  - reflexivity.
  - apply perm_skip, perm_swap.
Defined.

(** The reading loop given more lines than the array has cells left. *)
Lemma sort_read_overflow ls : forall tl fuel bufsize h c0 done cells,
  h_args h = arr c0 done cells -> h_in h = feed ls ++ tl ->
  Forall short_line ls -> (length cells < length ls)%nat ->
  (LSH_RL_BUFSIZE <= bufsize)%nat ->
  sort_read fuel bufsize (S (length done)) h = Fault OutOfBounds.
Proof.
  induction ls as [|l ls IH];
    intros tl fuel bufsize h c0 done cells Ha Hin Hs Hc Hb;
    [simpl in Hc; lia|].
  destruct fuel as [|fuel]; [reflexivity|]. cbn [sort_read].
  apply Forall_cons in Hs as [[Hp Hl] Hs].
  cbn [feed] in Hin. rewrite !string_app_assoc in Hin.
  unfold bind at 1. unfold fgets. rewrite Hin.
  destruct (feed_cons_nonempty l (feed ls ++ tl)) as (c & t & Hct).
  rewrite Hct, <- Hct.
  rewrite fgets_aux_line by (auto; unfold LSH_RL_BUFSIZE in *; lia).
  rewrite line_of_line by exact Hp.
  destruct cells as [|cell cells].
  - unfold bind, set_arg. cbn [h_args].
    rewrite decide_False; [reflexivity|].
    rewrite Ha, arr_length. simpl. lia.
  - erewrite bind_Ok
      by (apply set_arg_ok; simpl; rewrite Ha, arr_length; simpl; lia).
    assert (Hlen : S (S (length done)) = S (length (done ++ [l])%list))
      by (rewrite length_app; simpl; lia).
    rewrite Hlen.
    apply (IH tl fuel _ _ c0 (done ++ [l])%list cells).
    + simpl. rewrite Ha. apply arr_insert_next.
    + reflexivity.
    + exact Hs.
    + simpl in Hc. lia.
    + destruct (decide _); lia.
Qed.

(** X22: [sort] reading its standard input does not watch the end of
    its argument array: given more lines than the array has cells behind
    the command name, it stores a line behind the last cell. *)
Theorem lsh_sort_overflows_array h name junk ls tl :
  h_args h = arr (Some name) [] (None :: junk) ->
  h_in h = feed ls ++ tl ->
  Forall short_line ls ->
  (S (length junk) < length ls)%nat ->
  lsh_sort h = Fault OutOfBounds.
Proof.
  intros Ha Hin Hs Hc. unfold lsh_sort.
  erewrite bind_Ok by (apply arg_Ok; rewrite Ha; reflexivity).
  unfold bind at 1. unfold bind at 1. unfold args_size at 1.
  rewrite (sort_read_overflow ls tl _ _ h (Some name) [] (None :: junk));
    auto.
Qed.

Lemma lsh_sort_overflows_array_witness :
  lsh_sort (fresh "/" [Some "sort"; None; None]
              (feed ["c"; "b"; "a"] ++ EmptyString))
  = Fault OutOfBounds.
Proof.
  apply (lsh_sort_overflows_array
           (fresh "/" [Some "sort"; None; None]
              (feed ["c"; "b"; "a"] ++ EmptyString))
           "sort" [None] ["c"; "b"; "a"] EmptyString).
  - reflexivity.
  - reflexivity.
  - repeat first
      [apply List.Forall_nil
      |apply List.Forall_cons;
       [split; [reflexivity|apply Nat.ltb_lt; reflexivity]|]].
  - simpl. lia.
Defined.

(** ** The descriptors of a stage *)

Lemma fd_lookup_Some fds fd ep :
  fds !! fd = Some (Some ep) <-> fd_lookup fds fd = Some ep.
Proof.
  unfold fd_lookup. destruct (fds !! fd) as [[e|]|]; simpl;
    split; congruence.
Qed.

Lemma fd_lookup_set_eq x v fds : fd_lookup (fd_set x v fds) x = v.
Proof.
  unfold fd_lookup, fd_set. destruct (decide (x < length fds)%nat) as [Hx|Hx].
  - now rewrite list_lookup_insert_eq.
  - rewrite lookup_app_r by lia. rewrite lookup_app_r
      by (rewrite length_replicate; lia).
    rewrite length_replicate, Nat.sub_diag. reflexivity.
Qed.

Lemma fd_lookup_set_ne x v fds j :
  j <> x -> fd_lookup (fd_set x v fds) j = fd_lookup fds j.
Proof.
  intros Hj. unfold fd_lookup, fd_set.
  destruct (decide (x < length fds)%nat) as [Hx|Hx].
  - now rewrite list_lookup_insert_ne.
  - destruct (decide (j < length fds)%nat) as [Hlt|Hge].
    + now rewrite lookup_app_l.
    + rewrite (lookup_ge_None_2 fds j) by lia.
      rewrite lookup_app_r by lia.
      destruct (decide (j - length fds < x - length fds)%nat) as [Hin|Hout].
      * rewrite lookup_app_l by (rewrite length_replicate; lia).
        now rewrite lookup_replicate_2.
      * rewrite lookup_app_r by (rewrite length_replicate; lia).
        rewrite length_replicate.
        rewrite lookup_ge_None_2; [reflexivity|]. simpl. lia.
Qed.

Lemma fd_lookup_closed_eq x fds : fd_lookup (closed x fds) x = None.
Proof.
  unfold fd_lookup, closed. destruct (decide (x < length fds)%nat) as [Hx|Hx].
  - now rewrite list_lookup_insert_eq.
  - now rewrite lookup_ge_None_2 by lia.
Qed.

Lemma fd_lookup_closed_ne x fds j :
  j <> x -> fd_lookup (closed x fds) j = fd_lookup fds j.
Proof.
  intros Hj. unfold fd_lookup, closed.
  destruct (decide (x < length fds)%nat); [|reflexivity].
  now rewrite list_lookup_insert_ne.
Qed.

Lemma fd_lookup_closed_Some x fds j ep :
  fd_lookup (closed x fds) j = Some ep -> j <> x /\ fd_lookup fds j = Some ep.
Proof.
  intros H. destruct (decide (j = x)) as [->|Hne].
  - now rewrite fd_lookup_closed_eq in H.
  - now rewrite fd_lookup_closed_ne in H.
Qed.

Lemma fd_lookup_set_Some x v fds j ep :
  fd_lookup (fd_set x v fds) j = Some ep ->
  (j = x /\ v = Some ep) \/ (j <> x /\ fd_lookup fds j = Some ep).
Proof.
  intros H. destruct (decide (j = x)) as [->|Hne].
  - rewrite fd_lookup_set_eq in H. auto.
  - rewrite fd_lookup_set_ne in H by exact Hne. auto.
Qed.

Lemma free_fd_lookup fds : fd_lookup fds (free_fd fds) = None.
Proof.
  induction fds as [|[ep|] fds IH]; try reflexivity. exact IH.
Qed.

Lemma free_fd_ge fds n :
  (forall j, (j < n)%nat -> fd_lookup fds j <> None) -> (n <= free_fd fds)%nat.
Proof.
  intros H. destruct (decide (n <= free_fd fds)%nat) as [|Hlt]; [assumption|].
  exfalso. apply (H (free_fd fds)); [lia|apply free_fd_lookup].
Qed.

Lemma sys_close_closed fd s :
  sys_close fd s = Ok (tt, with_pfds s (closed fd (s_fds s))).
Proof. reflexivity. Qed.

Lemma sys_dup2_open old new ep s :
  fd_lookup (s_fds s) old = Some ep ->
  sys_dup2 old new s = Ok (tt, with_pfds s (fd_set new (Some ep) (s_fds s))).
Proof. intros H. unfold sys_dup2, with_fds. now rewrite H. Qed.

Lemma pipes_within_lookup allowed fds :
  pipes_within allowed fds
  <-> forall fd ep, fd_lookup fds fd = Some ep -> is_pipe ep = true ->
                    fd ∈ allowed.
Proof.
  unfold pipes_within.
  split; intros H fd ep Hfd; apply H; now apply fd_lookup_Some.
Qed.

Lemma term_fds_lookup fds :
  term_fds fds
  <-> fd_lookup fds 0 = Some TermIn /\ fd_lookup fds 1 = Some TermOut
      /\ fd_lookup fds 2 = Some TermErr.
Proof. unfold term_fds. now rewrite !fd_lookup_Some. Qed.

(** [pipe] in a process whose descriptors 0, 1 and 2 are open: the two
    ends come on two other descriptors. *)
Lemma sys_pipe_ends allowed s :
  (forall j, (j < 3)%nat -> fd_lookup (s_fds s) j <> None) ->
  pipes_within allowed (s_fds s) ->
  exists r w fds',
    sys_pipe s
    = Ok ((r, w),
          {| s_cwd := s_cwd s; s_fds := fds'; s_args := s_args s;
             s_world :=
               {| w_in := w_in (s_world s); w_out := w_out (s_world s);
                  w_err := w_err (s_world s);
                  w_pipes := w_pipes (s_world s) ++ [EmptyString];
                  w_forks := w_forks (s_world s);
                  w_procs := w_procs (s_world s) |} |})
    /\ (3 <= r)%nat /\ (3 <= w)%nat /\ r <> w
    /\ fd_lookup fds' r = Some (PipeR (length (w_pipes (s_world s))))
    /\ fd_lookup fds' w = Some (PipeW (length (w_pipes (s_world s))))
    /\ (forall j, j <> r -> j <> w -> fd_lookup fds' j = fd_lookup (s_fds s) j)
    /\ pipes_within (r :: w :: allowed) fds'.
Proof.
  intros Hopen Hin. unfold sys_pipe.
  set (k := length (w_pipes (s_world s))).
  set (r := free_fd (s_fds s)).
  set (fds1 := fd_set r (Some (PipeR k)) (s_fds s)).
  set (w := free_fd fds1).
  assert (Hr : (3 <= r)%nat) by (apply free_fd_ge, Hopen).
  assert (Hw : (3 <= w)%nat).
  { apply free_fd_ge. intros j Hj. unfold fds1.
    rewrite fd_lookup_set_ne by lia. now apply Hopen. }
  assert (Hrw : r <> w).
  { intros Heq. pose proof (free_fd_lookup fds1) as Hf. fold w in Hf.
    rewrite <- Heq in Hf. unfold fds1 in Hf.
    now rewrite fd_lookup_set_eq in Hf. }
  exists r, w, (fd_set w (Some (PipeW k)) fds1).
  split; [reflexivity|]. repeat split; auto.
  - rewrite fd_lookup_set_ne by exact Hrw. apply fd_lookup_set_eq.
  - apply fd_lookup_set_eq.
  - intros j Hjr Hjw. rewrite fd_lookup_set_ne by exact Hjw.
    now apply fd_lookup_set_ne.
  - apply pipes_within_lookup. intros fd ep Hfd Hp.
    rewrite !elem_of_cons.
    apply fd_lookup_set_Some in Hfd as [[-> _]|[_ Hfd]]; [tauto|].
    apply fd_lookup_set_Some in Hfd as [[-> _]|[_ Hfd]]; [tauto|].
    apply fd_lookup_Some in Hfd. specialize (Hin _ _ Hfd Hp). tauto.
Qed.

(** The wiring of the first stage. *)
Lemma wire_first pc pfd s r w ep :
  pfd !! O = Some (r, w) -> (2 <= r)%nat -> (2 <= w)%nat ->
  fd_lookup (s_fds s) w = Some ep ->
  pipes_within [r; w] (s_fds s) ->
  exists fds',
    wire_stage O pc pfd s = Ok (tt, with_pfds s fds')
    /\ fd_lookup fds' 0 = fd_lookup (s_fds s) 0
    /\ fd_lookup fds' 1 = Some ep
    /\ pipes_below 2 fds'
    /\ forall j, (2 <= j)%nat -> j <> r -> j <> w ->
                 fd_lookup fds' j = fd_lookup (s_fds s) j.
Proof.
  intros Hp Hr Hw Hep Hin. unfold wire_stage.
  rewrite decide_True by reflexivity.
  rewrite (bind_Ok _ _ _ _ _ (at_index_Ok _ _ _ _ Hp)). cbn [fst snd].
  rewrite (bind_Ok _ _ _ _ _ (sys_dup2_open _ _ _ _ Hep)).
  rewrite (bind_Ok _ _ _ _ _ (sys_close_closed _ _)).
  rewrite sys_close_closed. cbn [with_pfds s_fds s_cwd s_args s_world].
  eexists. split; [reflexivity|]. split; [|split; [|split]].
  4:{ intros j Hj Hjr Hjw.
      rewrite !fd_lookup_closed_ne, fd_lookup_set_ne by lia. reflexivity. }
  - rewrite !fd_lookup_closed_ne, fd_lookup_set_ne by lia. reflexivity.
  - rewrite !fd_lookup_closed_ne by lia. apply fd_lookup_set_eq.
  - intros fd e Hfd Hpipe.
    apply fd_lookup_closed_Some in Hfd as [Hne1 Hfd].
    apply fd_lookup_closed_Some in Hfd as [Hne2 Hfd].
    apply fd_lookup_set_Some in Hfd as [[-> _]|[_ Hfd]]; [lia|].
    apply fd_lookup_Some in Hfd. specialize (Hin _ _ Hfd Hpipe).
    rewrite !elem_of_cons, elem_of_nil in Hin. tauto.
Qed.

(** The wiring of the last stage. *)
Lemma wire_last pc pfd s r w ep :
  (0 < pc)%nat ->
  pfd !! (pc - 1)%nat = Some (r, w) -> (2 <= r)%nat -> (2 <= w)%nat ->
  fd_lookup (s_fds s) r = Some ep ->
  pipes_within [r; w] (s_fds s) ->
  exists fds',
    wire_stage pc pc pfd s = Ok (tt, with_pfds s fds')
    /\ fd_lookup fds' 0 = Some ep
    /\ fd_lookup fds' 1 = fd_lookup (s_fds s) 1
    /\ pipes_below 1 fds'
    /\ forall j, (2 <= j)%nat -> j <> r -> j <> w ->
                 fd_lookup fds' j = fd_lookup (s_fds s) j.
Proof.
  intros Hpc Hp Hr Hw Hep Hin. unfold wire_stage.
  rewrite decide_False by lia. rewrite decide_True by reflexivity.
  rewrite (bind_Ok _ _ _ _ _ (at_index_Ok _ _ _ _ Hp)). cbn [fst snd].
  rewrite (bind_Ok _ _ _ _ _ (sys_dup2_open _ _ _ _ Hep)).
  rewrite (bind_Ok _ _ _ _ _ (sys_close_closed _ _)).
  rewrite sys_close_closed. cbn [with_pfds s_fds s_cwd s_args s_world].
  eexists. split; [reflexivity|]. split; [|split; [|split]].
  4:{ intros j Hj Hjr Hjw.
      rewrite !fd_lookup_closed_ne, fd_lookup_set_ne by lia. reflexivity. }
  - rewrite !fd_lookup_closed_ne by lia. apply fd_lookup_set_eq.
  - rewrite !fd_lookup_closed_ne, fd_lookup_set_ne by lia. reflexivity.
  - intros fd e Hfd Hpipe.
    apply fd_lookup_closed_Some in Hfd as [Hne1 Hfd].
    apply fd_lookup_closed_Some in Hfd as [Hne2 Hfd].
    apply fd_lookup_set_Some in Hfd as [[-> _]|[_ Hfd]]; [lia|].
    apply fd_lookup_Some in Hfd. specialize (Hin _ _ Hfd Hpipe).
    rewrite !elem_of_cons, elem_of_nil in Hin. tauto.
Qed.

(** The wiring of a stage between two others. *)
Lemma wire_middle i pc pfd s r w r' w' ep ep' :
  (0 < i < pc)%nat ->
  pfd !! (i - 1)%nat = Some (r, w) -> pfd !! i = Some (r', w') ->
  (2 <= r)%nat -> (2 <= w)%nat -> (2 <= r')%nat -> (2 <= w')%nat ->
  fd_lookup (s_fds s) r = Some ep -> fd_lookup (s_fds s) w' = Some ep' ->
  pipes_within [r; w; r'; w'] (s_fds s) ->
  exists fds',
    wire_stage i pc pfd s = Ok (tt, with_pfds s fds')
    /\ fd_lookup fds' 0 = Some ep
    /\ fd_lookup fds' 1 = Some ep'
    /\ pipes_below 2 fds'
    /\ forall j, (2 <= j)%nat -> j <> r -> j <> w -> j <> r' -> j <> w' ->
                 fd_lookup fds' j = fd_lookup (s_fds s) j.
Proof.
  intros Hi Hp Hp' Hr Hw Hr' Hw' Hep Hep' Hin. unfold wire_stage.
  rewrite !decide_False by lia.
  rewrite (bind_Ok _ _ _ _ _ (at_index_Ok _ _ _ _ Hp)).
  rewrite (bind_Ok _ _ _ _ _ (at_index_Ok _ _ _ _ Hp')). cbn [fst snd].
  rewrite (bind_Ok _ _ _ _ _ (sys_dup2_open _ _ _ _ Hep)).
  erewrite bind_Ok.
  2:{ apply (sys_dup2_open _ _ ep'). cbn [with_pfds s_fds].
      rewrite fd_lookup_set_ne by lia. exact Hep'. }
  rewrite !(bind_Ok _ _ _ _ _ (sys_close_closed _ _)).
  rewrite sys_close_closed. cbn [with_pfds s_fds s_cwd s_args s_world].
  eexists. split; [reflexivity|]. split; [|split; [|split]].
  4:{ intros j Hj Hjr Hjw Hjr' Hjw'.
      rewrite !fd_lookup_closed_ne, !fd_lookup_set_ne by lia. reflexivity. }
  - rewrite !fd_lookup_closed_ne, fd_lookup_set_ne by lia.
    apply fd_lookup_set_eq.
  - rewrite !fd_lookup_closed_ne by lia. apply fd_lookup_set_eq.
  - intros fd e Hfd Hpipe.
    apply fd_lookup_closed_Some in Hfd as [Hne1 Hfd].
    apply fd_lookup_closed_Some in Hfd as [Hne2 Hfd].
    apply fd_lookup_closed_Some in Hfd as [Hne3 Hfd].
    apply fd_lookup_closed_Some in Hfd as [Hne4 Hfd].
    apply fd_lookup_set_Some in Hfd as [[-> _]|[_ Hfd]]; [lia|].
    apply fd_lookup_set_Some in Hfd as [[-> _]|[_ Hfd]]; [lia|].
    apply fd_lookup_Some in Hfd. specialize (Hin _ _ Hfd Hpipe).
    rewrite !elem_of_cons, elem_of_nil in Hin. tauto.
Qed.

(** X23: what the child of a stage does to its descriptors before it
    launches the stage, the process that forked it holding the ends of the
    channels next to the stage on descriptors from 2 on and no other end.
    The first stage gets the write end of its channel as standard output
    and keeps its standard input; the last gets the read end of the
    channel before it as standard input and keeps its standard output; a
    stage between two others gets both.  Every other end is closed. *)
Theorem stage_wiring pc pfd s :
  (forall r w ep,
     pfd !! O = Some (r, w) -> (2 <= r)%nat -> (2 <= w)%nat ->
     fd_lookup (s_fds s) w = Some ep ->
     pipes_within [r; w] (s_fds s) ->
     exists fds',
       wire_stage O pc pfd s = Ok (tt, with_pfds s fds')
       /\ fd_lookup fds' 0 = fd_lookup (s_fds s) 0
       /\ fd_lookup fds' 1 = Some ep
       /\ pipes_below 2 fds'
       /\ forall j, (2 <= j)%nat -> j <> r -> j <> w ->
                    fd_lookup fds' j = fd_lookup (s_fds s) j)
  /\ (forall r w ep,
        (0 < pc)%nat ->
        pfd !! (pc - 1)%nat = Some (r, w) -> (2 <= r)%nat -> (2 <= w)%nat ->
        fd_lookup (s_fds s) r = Some ep ->
        pipes_within [r; w] (s_fds s) ->
        exists fds',
          wire_stage pc pc pfd s = Ok (tt, with_pfds s fds')
          /\ fd_lookup fds' 0 = Some ep
          /\ fd_lookup fds' 1 = fd_lookup (s_fds s) 1
          /\ pipes_below 1 fds'
          /\ forall j, (2 <= j)%nat -> j <> r -> j <> w ->
                       fd_lookup fds' j = fd_lookup (s_fds s) j)
  /\ (forall i r w r' w' ep ep',
        (0 < i < pc)%nat ->
        pfd !! (i - 1)%nat = Some (r, w) -> pfd !! i = Some (r', w') ->
        (2 <= r)%nat -> (2 <= w)%nat -> (2 <= r')%nat -> (2 <= w')%nat ->
        fd_lookup (s_fds s) r = Some ep ->
        fd_lookup (s_fds s) w' = Some ep' ->
        pipes_within [r; w; r'; w'] (s_fds s) ->
        exists fds',
          wire_stage i pc pfd s = Ok (tt, with_pfds s fds')
          /\ fd_lookup fds' 0 = Some ep
          /\ fd_lookup fds' 1 = Some ep'
          /\ pipes_below 2 fds'
          /\ forall j, (2 <= j)%nat ->
                       j <> r -> j <> w -> j <> r' -> j <> w' ->
                       fd_lookup fds' j = fd_lookup (s_fds s) j).
Proof.
  split; [|split].
  - intros r w ep. apply wire_first.
  - intros r w ep. apply wire_last.
  - intros i r w r' w' ep ep'. apply wire_middle.
Qed.

Lemma stage_wiring_witness :
  exists fds',
    wire_stage 1 2 [(3, 4); (5, 6)]%nat
      (with_pfds (booted "/" [] EmptyString)
         [Some TermIn; Some TermOut; Some TermErr;
          Some (PipeR 0); Some (PipeW 0); Some (PipeR 1); Some (PipeW 1)])
    = Ok (tt, with_pfds
                (with_pfds (booted "/" [] EmptyString)
                   [Some TermIn; Some TermOut; Some TermErr;
                    Some (PipeR 0); Some (PipeW 0);
                    Some (PipeR 1); Some (PipeW 1)]) fds')
    /\ fd_lookup fds' 0 = Some (PipeR 0)
    /\ fd_lookup fds' 1 = Some (PipeW 1)
    /\ pipes_below 2 fds'
    /\ forall j, (2 <= j)%nat ->
                 j <> 3%nat -> j <> 4%nat -> j <> 5%nat -> j <> 6%nat ->
                 fd_lookup fds' j
                 = fd_lookup [Some TermIn; Some TermOut; Some TermErr;
                              Some (PipeR 0); Some (PipeW 0);
                              Some (PipeR 1); Some (PipeW 1)] j.
Proof.
  apply (proj2 (proj2 (stage_wiring 2 [(3, 4); (5, 6)]%nat
           (with_pfds (booted "/" [] EmptyString)
              [Some TermIn; Some TermOut; Some TermErr;
               Some (PipeR 0); Some (PipeW 0);
               Some (PipeR 1); Some (PipeW 1)])))
           1%nat 3%nat 4%nat 5%nat 6%nat (PipeR 0) (PipeW 1));
    try reflexivity; try lia.
  intros fd ep Hfd Hp. rewrite !elem_of_cons.
  do 7 (destruct fd as [|fd];
        [injection Hfd as <-; first [discriminate Hp|tauto]|]).
  discriminate.
Defined.

(** ** A pipeline of two built-ins *)

Lemma pipe_positions_none toks : forall i j,
  pipe_positions i toks = [] -> pipe_positions j toks = [].
Proof.
  induction toks as [|t toks IH]; intros i j; [reflexivity|].
  cbn [pipe_positions]. destruct (strcmp t "|" =? 0); [discriminate|].
  apply IH.
Qed.

Lemma pipe_positions_app l1 l2 : forall i,
  pipe_positions i (l1 ++ l2)
  = (pipe_positions i l1 ++ pipe_positions (i + length l1) l2)%list.
Proof.
  induction l1 as [|t l1 IH]; intros i.
  - cbn [app length pipe_positions]. now rewrite Nat.add_0_r.
  - cbn [app length pipe_positions]. rewrite IH.
    replace (S i + length l1)%nat with (i + S (length l1))%nat by lia.
    now destruct (strcmp t "|" =? 0).
Qed.

Lemma two_stage_positions l1 l2 :
  pipes_of l1 = O -> pipes_of l2 = O ->
  pipe_positions O (l1 ++ "|" :: l2) = [length l1].
Proof.
  intros H1 H2. apply length_zero_iff_nil in H1, H2.
  rewrite pipe_positions_app, H1. cbn [app pipe_positions Nat.add].
  change (strcmp "|" "|" =? 0) with true. cbv iota.
  now rewrite (pipe_positions_none l2 O _ H2).
Qed.

Lemma two_stage_cut l1 l2 :
  pipes_of l1 = O -> pipes_of l2 = O ->
  cut <$> (l1 ++ "|" :: l2)%list
  = ((Some <$> l1) ++ None :: (Some <$> l2))%list.
Proof.
  intros H1 H2. apply length_zero_iff_nil in H1, H2.
  rewrite fmap_app, fmap_cons.
  now rewrite (cut_no_pipes l1 O H1), (cut_no_pipes l2 O H2).
Qed.

(** The child of a stage whose command is a built-in: the handler reads
    from descriptor 0 and writes to descriptors 1 and 2 as the wiring left
    them. *)
Lemma stage_child_builtin E i pc loc pfd s fds' z name f r h' ep0 ep1 ep2 :
  wire_stage i pc pfd s = Ok (tt, with_pfds s fds') ->
  loc !! i = Some z ->
  s_args s !! Z.to_nat (z + 1) = Some (Some name) ->
  find_builtin name builtin_str (builtin_func E) = Some f ->
  fd_lookup fds' 0 = Some ep0 -> fd_lookup fds' 1 = Some ep1 ->
  fd_lookup fds' 2 = Some ep2 ->
  f (fresh (s_cwd s) (drop (Z.to_nat (z + 1)) (s_args s))
       (ep_avail ep0 (s_world s))) = Ok (r, h') ->
  exists s',
    stage_child E i pc loc pfd s = Ok (0, s')
    /\ s_world s'
       = ep_write ep2 (h_err h')
           (ep_write ep1 (h_out h')
              (ep_set_avail ep0 (h_in h') (s_world s))).
Proof.
  intros Hw Hz Hn Hf H0 H1 H2 Hrun. unfold stage_child.
  rewrite (bind_Ok _ _ _ _ _ Hw).
  rewrite (bind_Ok _ _ _ _ _ (at_index_Ok _ _ _ _ Hz)).
  unfold bind at 1. unfold lsh_launch. cbn [with_pfds s_args].
  rewrite Hn, Hf. unfold call_builtin.
  cbn [with_pfds s_cwd s_fds s_args s_world].
  unfold fd_avail. rewrite H0. unfold fresh in Hrun. rewrite Hrun.
  unfold fd_write, fd_set_avail. rewrite H0, H1, H2.
  eexists. split; reflexivity.
Qed.

Lemma spawn_stages_S E n i pc loc pfd :
  spawn_stages E (S n) i pc loc pfd
  = (pfd' <- (if decide (i <> pc) then
                ends <- sys_pipe ;;
                if decide (i < length pfd)%nat then ret (<[i:=ends]> pfd)
                else raise OutOfBounds
              else ret pfd) ;;
     fork E (stage_child E i pc loc pfd') ;;;
     (if decide (0 < i)%nat then
        pp <- at_index pfd' (i - 1) ;;
        sys_close (fst pp) ;;; sys_close (snd pp)
      else ret tt) ;;;
     spawn_stages E n (S i) pc loc pfd')%sh.
Proof. reflexivity. Qed.

(** The child of a stage whose command is no built-in: the program
    [execvp] starts, in a process of its own, reads from descriptor 0 and
    writes to descriptors 1 and 2 as the wiring left them. *)
Lemma stage_child_external E i pc loc pfd s fds' z name run ep0 ep1 ep2 :
  wire_stage i pc pfd s = Ok (tt, with_pfds s fds') ->
  loc !! i = Some z ->
  s_args s !! Z.to_nat (z + 1) = Some (Some name) ->
  find_builtin name builtin_str (builtin_func E) = None ->
  fork_ok E (w_forks (s_world s)) = true ->
  fd_lookup fds' 0 = Some ep0 -> fd_lookup fds' 1 = Some ep1 ->
  fd_lookup fds' 2 = Some ep2 ->
  sys_exec E (s_cwd s) (argv_of (drop (Z.to_nat (z + 1)) (s_args s)))
    (ep_avail ep0 (s_world s)) = inr run ->
  exists s',
    stage_child E i pc loc pfd s = Ok (0, s')
    /\ s_world s'
       = ep_write ep2 (r_err run)
           (ep_write ep1 (r_out run)
              (ep_set_avail ep0 (r_rest run)
                 (count_fork true (s_world s)))).
Proof.
  intros Hw Hz Hn Hf Hok H0 H1 H2 Hrun. unfold stage_child.
  rewrite (bind_Ok _ _ _ _ _ Hw).
  rewrite (bind_Ok _ _ _ _ _ (at_index_Ok _ _ _ _ Hz)).
  unfold bind at 1. unfold lsh_launch. cbn [with_pfds s_args].
  rewrite Hn, Hf. unfold bind at 1.
  rewrite fork_ok_spec by exact Hok.
  unfold exec_child. cbn [with_pfds with_w s_cwd s_fds s_args s_world].
  unfold fd_avail. rewrite H0.
  replace (ep_avail ep0 (count_fork true (s_world s)))
    with (ep_avail ep0 (s_world s)) by now destruct ep0.
  rewrite Hrun. unfold fd_write, fd_set_avail. rewrite H0, H1, H2.
  eexists. split; reflexivity.
Qed.

(** A line of two stages in a shell on its terminal: a channel is made,
    the child of the first stage is wired to its write end and the child of
    the second to its read end, and the world the second leaves is the one
    [lsh_execute] ends in. *)
Lemma two_stage_frame E s a xs b ys junk wA wB :
  term_fds (s_fds s) -> pipe_free (s_fds s) ->
  fork_ok E (w_forks (s_world s)) = true ->
  s_args s = ((Some <$> (a :: xs) ++ "|" :: b :: ys) ++ None :: junk)%list ->
  pipes_of (a :: xs) = O -> pipes_of (b :: ys) = O ->
  (forall s1 fds pfd loc,
     loc !! O = Some (-1) -> s_cwd s1 = s_cwd s ->
     s_args s1 = ((Some <$> a :: xs) ++ None
                  :: (Some <$> b :: ys) ++ None :: junk)%list ->
     s_world s1
     = count_fork true
         {| w_in := w_in (s_world s); w_out := w_out (s_world s);
            w_err := w_err (s_world s);
            w_pipes := (w_pipes (s_world s) ++ [EmptyString])%list;
            w_forks := w_forks (s_world s);
            w_procs := w_procs (s_world s) |} ->
     wire_stage O 1 pfd s1 = Ok (tt, with_pfds s1 fds) ->
     fd_lookup fds 0 = Some TermIn ->
     fd_lookup fds 1 = Some (PipeW (length (w_pipes (s_world s)))) ->
     fd_lookup fds 2 = Some TermErr ->
     exists sa, stage_child E O 1 loc pfd s1 = Ok (0, sa) /\ s_world sa = wA) ->
  fork_ok E (w_forks wA) = true ->
  (forall s1 fds pfd loc,
     loc !! 1%nat = Some (Z.of_nat (length (a :: xs))) ->
     s_cwd s1 = s_cwd s ->
     s_args s1 = ((Some <$> a :: xs) ++ None
                  :: (Some <$> b :: ys) ++ None :: junk)%list ->
     s_world s1 = count_fork true wA ->
     wire_stage 1 1 pfd s1 = Ok (tt, with_pfds s1 fds) ->
     fd_lookup fds 0 = Some (PipeR (length (w_pipes (s_world s)))) ->
     fd_lookup fds 1 = Some TermOut ->
     fd_lookup fds 2 = Some TermErr ->
     exists sb, stage_child E 1 1 loc pfd s1 = Ok (0, sb) /\ s_world sb = wB) ->
  exists s', lsh_execute E s = Ok (1, s') /\ s_world s' = wB.
Proof.
  intros Hfds Hfree Hok1 Ha Hka Hkb HA Hok2 HB.
  pose proof (two_stage_positions _ _ Hka Hkb) as Hpos.
  pose proof (two_stage_cut _ _ Hka Hkb) as Hcut.
  change ((a :: xs) ++ "|" :: b :: ys)%list
    with (a :: (xs ++ "|" :: b :: ys))%list in Ha, Hpos, Hcut.
  rewrite (lsh_execute_scan E s a (xs ++ "|" :: b :: ys) junk Ha)
    by (unfold pipes_of; rewrite Hpos; simpl; lia).
  unfold pipes_of. rewrite Hpos, Hcut. cbn [length].
  rewrite decide_False by lia. cbn [Nat.add record].
  set (p := length (a :: xs)) in *.
  set (args' := (((Some <$> a :: xs) ++ None :: (Some <$> b :: ys))
                 ++ None :: junk)%list).
  assert (Hargs' : args' = ((Some <$> a :: xs) ++ None
                            :: (Some <$> b :: ys) ++ None :: junk)%list)
    by (unfold args'; now rewrite <- app_assoc).
  set (loc := <[1%nat:=Z.of_nat p]> pipe_locate0).
  set (s0 := with_pargs s args').
  apply term_fds_lookup in Hfds as (H0 & H1 & H2).
  (* the channel *)
  destruct (sys_pipe_ends [] s0)
    as (r & w & fds2 & Hpipe & Hr & Hw & Hrw & Hlr & Hlw & Hoth & Hwithin).
  { intros j Hj. cbn [s0 with_pargs s_fds].
    destruct j as [|[|[|j]]]; [congruence..|lia]. }
  { now apply pipes_within_nil. }
  cbn [s0 with_pargs s_cwd s_fds s_args s_world] in Hpipe, Hlr, Hlw, Hoth.
  set (k := length (w_pipes (s_world s))) in *.
  set (pfd := <[O:=(r, w)]> pfd0).
  enough (Hs : exists s',
             spawn_stages E 2 O 1 loc pfd0 s0 = Ok (tt, s')
             /\ s_world s' = wB).
  { destruct Hs as (s' & Hs & Hw').
    rewrite (bind_Ok _ _ _ _ _ Hs). exists s'. split; [reflexivity|exact Hw']. }
  rewrite spawn_stages_S. rewrite decide_True by lia.
  erewrite bind_Ok.
  2:{ erewrite bind_Ok by exact Hpipe.
      rewrite decide_True by (simpl; lia). reflexivity. }
  fold pfd.
  set (w1 := {| w_in := w_in (s_world s); w_out := w_out (s_world s);
                w_err := w_err (s_world s);
                w_pipes := (w_pipes (s_world s) ++ [EmptyString])%list;
                w_forks := w_forks (s_world s);
                w_procs := w_procs (s_world s) |}) in *.
  set (s1 := {| s_cwd := s_cwd s; s_fds := fds2; s_args := args';
                s_world := w1 |}).
  assert (Hwithin2 : pipes_within [r; w] fds2) by exact Hwithin.
  (* the first stage *)
  destruct (wire_first 1 pfd (with_w s1 (count_fork true w1)) r w (PipeW k))
    as (fdsa & Hwa & Ha0 & Ha1 & _ & Ha2); auto; try lia.
  specialize (Ha2 2%nat ltac:(lia) ltac:(lia) ltac:(lia)).
  cbn [with_w s1 s_fds] in Ha0, Ha2.
  rewrite Hoth, H0 in Ha0 by lia. rewrite Hoth, H2 in Ha2 by lia.
  destruct (HA (with_w s1 (count_fork true w1)) fdsa pfd loc
              eq_refl eq_refl Hargs' eq_refl Hwa Ha0 Ha1 Ha2)
    as (sa & Hsa & Hwsa).
  assert (Hf1 : fork E (stage_child E O 1 loc pfd) s1
                = Ok (Some (Exited 0), with_w s1 wA)).
  { rewrite fork_ok_spec by exact Hok1.
    change (s_world s1) with w1. now rewrite Hsa, Hwsa. }
  rewrite (bind_Ok _ _ _ _ _ Hf1).
  rewrite decide_False by lia. erewrite bind_Ok by reflexivity.
  rewrite spawn_stages_S. rewrite decide_False by lia.
  erewrite bind_Ok by reflexivity.
  (* the second stage *)
  destruct (wire_last 1 pfd (with_w (with_w s1 wA) (count_fork true wA))
              r w (PipeR k))
    as (fdsb & Hwb & Hb0 & Hb1 & _ & Hb2); auto; try lia.
  specialize (Hb2 2%nat ltac:(lia) ltac:(lia) ltac:(lia)).
  cbn [with_w s1 s_fds] in Hb1, Hb2.
  rewrite Hoth, H1 in Hb1 by lia. rewrite Hoth, H2 in Hb2 by lia.
  destruct (HB (with_w (with_w s1 wA) (count_fork true wA)) fdsb pfd loc
              eq_refl eq_refl Hargs' eq_refl Hwb Hb0 Hb1 Hb2)
    as (sb & Hsb & Hwsb).
  assert (Hf2 : fork E (stage_child E 1 1 loc pfd) (with_w s1 wA)
                = Ok (Some (Exited 0), with_w (with_w s1 wA) wB)).
  { rewrite fork_ok_spec by exact Hok2.
    change (s_world (with_w s1 wA)) with wA. now rewrite Hsb, Hwsb. }
  rewrite (bind_Ok _ _ _ _ _ Hf2).
  rewrite decide_True by lia.
  erewrite bind_Ok by (erewrite bind_Ok by reflexivity;
                       erewrite bind_Ok by reflexivity; reflexivity).
  cbn [spawn_stages]. unfold ret.
  eexists. split; reflexivity.
Qed.

Lemma second_stage_args (pre : list string) (tail : list cell) :
  drop (S (length pre)) ((Some <$> pre) ++ None :: tail)%list = tail
  /\ ((Some <$> pre) ++ None :: tail)%list !! S (length pre) = head tail.
Proof.
  rewrite (cons_middle None), app_assoc.
  assert (Hl : length ((Some <$> pre) ++ [None])%list = S (length pre))
    by (rewrite length_app, length_fmap; simpl; lia).
  split.
  - now apply drop_app_length'.
  - rewrite lookup_app_r by lia. rewrite Hl, Nat.sub_diag. now destruct tail.
Qed.

Lemma channel_holds (pipes : list string) t :
  default EmptyString
    (alter (fun b => b ++ t) (length pipes) (pipes ++ [EmptyString])%list
     !! length pipes) = t.
Proof.
  rewrite list_lookup_alter, list_lookup_middle by reflexivity.
  rewrite decide_True by reflexivity. reflexivity.
Qed.

(** X24: a pipeline of two built-ins typed into a shell on its terminal.
    The first handler reads the terminal; what it writes to its standard
    output is what the second finds on its standard input, and what the
    second writes to its standard output goes to the terminal.  Each runs
    on the array from its own name on: the first sees a null pointer where
    the separator was. *)
Theorem pipe_feeds_second_stage E s a xs b ys junk fa fb ra ha rb hb :
  term_fds (s_fds s) -> pipe_free (s_fds s) ->
  fork_ok E (w_forks (s_world s)) = true ->
  fork_ok E (S (w_forks (s_world s))) = true ->
  s_args s = ((Some <$> (a :: xs) ++ "|" :: b :: ys) ++ None :: junk)%list ->
  pipes_of (a :: xs) = O -> pipes_of (b :: ys) = O ->
  find_builtin a builtin_str (builtin_func E) = Some fa ->
  find_builtin b builtin_str (builtin_func E) = Some fb ->
  fa (fresh (s_cwd s)
        ((Some <$> a :: xs) ++ None :: (Some <$> b :: ys) ++ None :: junk)
        (w_in (s_world s))) = Ok (ra, ha) ->
  fb (fresh (s_cwd s) ((Some <$> b :: ys) ++ None :: junk) (h_out ha))
  = Ok (rb, hb) ->
  exists s',
    lsh_execute E s = Ok (1, s')
    /\ w_in (s_world s') = h_in ha
    /\ w_out (s_world s') = w_out (s_world s) ++ h_out hb
    /\ w_procs (s_world s') = (w_procs (s_world s) + 2)%nat.
Proof.
  intros Hfds Hfree Hok1 Hok2 Ha Hka Hkb Hfa Hfb Hra Hrb.
  destruct (second_stage_args (a :: xs) ((Some <$> b :: ys) ++ None :: junk))
    as [Hdrop Hlook].
  edestruct (two_stage_frame E s a xs b ys junk) as (s' & Hrun & Hw);
    [exact Hfds|exact Hfree|exact Hok1|exact Ha|exact Hka|exact Hkb| | | |].
  - intros s1 fds pfd loc Hloc Hcwd Hargs Hworld Hwire H0 H1 H2.
    destruct (stage_child_builtin E O 1 loc pfd s1 fds (-1) a fa ra ha
                TermIn (PipeW (length (w_pipes (s_world s)))) TermErr
                Hwire Hloc) as (sa & Hsa & Hwsa); auto.
    + now rewrite Hargs.
    + rewrite Hcwd, Hargs, Hworld. exact Hra.
    + exists sa. split; [exact Hsa|]. rewrite Hwsa, Hworld. reflexivity.
  - cbn [ep_write ep_set_avail count_fork w_forks]. exact Hok2.
  - intros s1 fds pfd loc Hloc Hcwd Hargs Hworld Hwire H0 H1 H2.
    assert (Hoff : Z.to_nat (Z.of_nat (length (a :: xs)) + 1)
                   = S (length (a :: xs))) by lia.
    destruct (stage_child_builtin E 1 1 loc pfd s1 fds _ b fb rb hb
                (PipeR (length (w_pipes (s_world s)))) TermOut TermErr
                Hwire Hloc) as (sb & Hsb & Hwsb); auto.
    + now rewrite Hoff, Hargs, Hlook.
    + rewrite Hoff, Hcwd, Hargs, Hdrop, Hworld.
      cbn [ep_avail ep_write ep_set_avail count_fork w_pipes].
      rewrite channel_holds. exact Hrb.
    + exists sb. split; [exact Hsb|]. rewrite Hwsb, Hworld. reflexivity.
  - exists s'. split; [exact Hrun|]. rewrite Hw.
    cbn [ep_write ep_set_avail count_fork w_in w_out w_err w_pipes w_forks
         w_procs].
    repeat split. lia.
Qed.

Lemma pipe_feeds_second_stage_witness :
  exists s',
    lsh_execute lab
      (booted "/" [Some "cat"; Some "f"; Some "|"; Some "sort"; None; None]
         EmptyString)
    = Ok (1, s')
    /\ w_in (s_world s') = EmptyString
    /\ w_out (s_world s') = EmptyString ++ "[1]: hello" ++ nl
    /\ w_procs (s_world s') = 2%nat.
Proof.
  apply (pipe_feeds_second_stage lab
           (booted "/" [Some "cat"; Some "f"; Some "|"; Some "sort"; None; None]
              EmptyString)
           "cat" ["f"] "sort" [] [None] (lsh_cat lab) lsh_sort
           1 (with_out (fresh "/" [Some "cat"; Some "f"; None; Some "sort";
                                   None; None] EmptyString) "hello")
           1 {| h_cwd := "/"; h_args := [Some "sort"; Some "hello"; None];
                h_in := EmptyString; h_out := "[1]: hello" ++ nl;
                h_err := EmptyString |});
    try reflexivity.
  - repeat split.
  - apply booted_pipe_free.
Defined.

(** X25: a program piped into a built-in, as in [ls | sort].  The
    program is run by a process of its own, the child of the first stage's
    child, and inherits that child's wiring: what it writes to its standard
    output is what the built-in of the second stage finds on its standard
    input, and what the built-in writes goes to the terminal.  Three
    processes are created. *)
Theorem program_feeds_second_stage E s a xs b ys junk run fb rb hb :
  term_fds (s_fds s) -> pipe_free (s_fds s) ->
  fork_ok E (w_forks (s_world s)) = true ->
  fork_ok E (S (w_forks (s_world s))) = true ->
  fork_ok E (S (S (w_forks (s_world s)))) = true ->
  s_args s = ((Some <$> (a :: xs) ++ "|" :: b :: ys) ++ None :: junk)%list ->
  pipes_of (a :: xs) = O -> pipes_of (b :: ys) = O ->
  find_builtin a builtin_str (builtin_func E) = None ->
  find_builtin b builtin_str (builtin_func E) = Some fb ->
  sys_exec E (s_cwd s) (a :: xs) (w_in (s_world s)) = inr run ->
  fb (fresh (s_cwd s) ((Some <$> b :: ys) ++ None :: junk) (r_out run))
  = Ok (rb, hb) ->
  exists s',
    lsh_execute E s = Ok (1, s')
    /\ w_in (s_world s') = r_rest run
    /\ w_out (s_world s') = w_out (s_world s) ++ h_out hb
    /\ w_procs (s_world s') = (w_procs (s_world s) + 3)%nat.
Proof.
  intros Hfds Hfree Hok1 Hok2 Hok3 Ha Hka Hkb Hfa Hfb Hra Hrb.
  destruct (second_stage_args (a :: xs) ((Some <$> b :: ys) ++ None :: junk))
    as [Hdrop Hlook].
  edestruct (two_stage_frame E s a xs b ys junk) as (s' & Hrun & Hw);
    [exact Hfds|exact Hfree|exact Hok1|exact Ha|exact Hka|exact Hkb| | | |].
  - intros s1 fds pfd loc Hloc Hcwd Hargs Hworld Hwire H0 H1 H2.
    destruct (stage_child_external E O 1 loc pfd s1 fds (-1) a run
                TermIn (PipeW (length (w_pipes (s_world s)))) TermErr
                Hwire Hloc) as (sa & Hsa & Hwsa); auto.
    + now rewrite Hargs.
    + rewrite Hworld. exact Hok2.
    + rewrite Hcwd, Hargs, Hworld.
      change (Z.to_nat (-1 + 1)) with O. rewrite drop_0, argv_of_tokens.
      exact Hra.
    + exists sa. split; [exact Hsa|]. rewrite Hwsa, Hworld. reflexivity.
  - cbn [ep_write ep_set_avail count_fork w_forks]. exact Hok3.
  - intros s1 fds pfd loc Hloc Hcwd Hargs Hworld Hwire H0 H1 H2.
    assert (Hoff : Z.to_nat (Z.of_nat (length (a :: xs)) + 1)
                   = S (length (a :: xs))) by lia.
    destruct (stage_child_builtin E 1 1 loc pfd s1 fds _ b fb rb hb
                (PipeR (length (w_pipes (s_world s)))) TermOut TermErr
                Hwire Hloc) as (sb & Hsb & Hwsb); auto.
    + now rewrite Hoff, Hargs, Hlook.
    + rewrite Hoff, Hcwd, Hargs, Hdrop, Hworld.
      cbn [ep_avail ep_write ep_set_avail count_fork w_pipes].
      rewrite channel_holds. exact Hrb.
    + exists sb. split; [exact Hsb|]. rewrite Hwsb, Hworld. reflexivity.
  - exists s'. split; [exact Hrun|]. rewrite Hw.
    cbn [ep_write ep_set_avail count_fork w_in w_out w_err w_pipes w_forks
         w_procs].
    repeat split. lia.
Qed.

Lemma program_feeds_second_stage_witness :
  exists s',
    lsh_execute lab
      (booted "/" [Some "ls"; Some "|"; Some "sort"; None; None; None]
         EmptyString)
    = Ok (1, s')
    /\ w_in (s_world s') = EmptyString
    /\ w_out (s_world s')
       = EmptyString ++ "[1]: a" ++ nl ++ "[2]: b" ++ nl
    /\ w_procs (s_world s') = 3%nat.
Proof.
  apply (program_feeds_second_stage lab
           (booted "/" [Some "ls"; Some "|"; Some "sort"; None; None; None]
              EmptyString)
           "ls" [] "sort" [] [None; None]
           {| r_rest := EmptyString; r_out := "b" ++ nl ++ "a" ++ nl;
              r_err := EmptyString; r_code := 0 |}
           lsh_sort
           1 {| h_cwd := "/";
                h_args := [Some "sort"; Some "a"; Some "b"; None];
                h_in := EmptyString;
                h_out := "[1]: a" ++ nl ++ "[2]: b" ++ nl;
                h_err := EmptyString |});
    try reflexivity.
  - repeat split.
  - apply booted_pipe_free.
Defined.

(** ** The standard descriptors of the interactive process *)

Lemma fork_fds E child s a s' :
  fork E child s = Ok (a, s') -> s_fds s' = s_fds s.
Proof.
  unfold fork. destruct (fork_ok E _); [destruct (child _) as [[c s1]|]|];
    now intros [= _ <-].
Qed.

Lemma term_fds_closed fds x : (3 <= x)%nat -> term_fds fds -> term_fds (closed x fds).
Proof.
  intros Hx. rewrite !term_fds_lookup.
  now rewrite !fd_lookup_closed_ne by lia.
Qed.

Lemma term_fds_open fds j : term_fds fds -> (j < 3)%nat -> fd_lookup fds j <> None.
Proof.
  intros (H0 & H1 & H2)%term_fds_lookup Hj.
  destruct j as [|[|[|j]]]; [congruence..|lia].
Qed.

(** [pipe] in a process with its three standard descriptors open. *)
Lemma sys_pipe_term s :
  term_fds (s_fds s) ->
  exists r w s',
    sys_pipe s = Ok ((r, w), s') /\ (3 <= r)%nat /\ (3 <= w)%nat
    /\ term_fds (s_fds s').
Proof.
  intros Ht.
  destruct (sys_pipe_ends (seq O (length (s_fds s))) s)
    as (r & w & fds' & Hp & Hr & Hw & _ & _ & _ & Hoth & _).
  - intros j. now apply term_fds_open.
  - intros fd ep Hfd _. apply elem_of_seq. apply lookup_lt_Some in Hfd. lia.
  - eexists r, w, _. split; [exact Hp|].
    split; [exact Hr|split; [exact Hw|]]. cbn [s_fds].
    apply term_fds_lookup. rewrite !Hoth by lia. now apply term_fds_lookup.
Qed.

Lemma spawn_stages_term E pc loc n : forall i pfd s a s',
  (i + n = pc + 1)%nat ->
  term_fds (s_fds s) ->
  ((0 < i)%nat ->
   exists pr pw, pfd !! (i - 1)%nat = Some (pr, pw)
                 /\ (3 <= pr)%nat /\ (3 <= pw)%nat) ->
  spawn_stages E n i pc loc pfd s = Ok (a, s') ->
  term_fds (s_fds s').
Proof.
  induction n as [|n IH]; intros i pfd s a s' Hn Ht Hprev Hrun.
  - injection Hrun as _ <-. exact Ht.
  - rewrite spawn_stages_S in Hrun.
    assert (Hstep : exists pfd' s1,
               (if decide (i <> pc) then
                  ends <- sys_pipe ;;
                  if decide (i < length pfd)%nat then ret (<[i:=ends]> pfd)
                  else raise OutOfBounds
                else ret pfd) s = Ok (pfd', s1)
               /\ term_fds (s_fds s1)
               /\ ((0 < i)%nat -> pfd' !! (i - 1)%nat = pfd !! (i - 1)%nat)
               /\ ((0 < n)%nat ->
                   exists r w, pfd' !! i = Some (r, w)
                               /\ (3 <= r)%nat /\ (3 <= w)%nat)).
    { destruct (decide (i <> pc)) as [Hne|Heq].
      - destruct (sys_pipe_term s Ht) as (r & w & s1 & Hp & Hr & Hw & Ht1).
        destruct (decide (i < length pfd)%nat) as [Hi|Hi].
        + exists (<[i:=(r, w)]> pfd), s1. split.
          * rewrite (bind_Ok _ _ _ _ _ Hp). reflexivity.
          * split; [exact Ht1|]. split.
            -- intros H0. apply list_lookup_insert_ne. lia.
            -- intros _. exists r, w. split; [|auto].
               now apply list_lookup_insert_eq.
        + exfalso. unfold bind at 1 in Hrun.
          rewrite (bind_Ok _ _ _ _ _ Hp) in Hrun. discriminate.
      - exists pfd, s. split; [reflexivity|]. split; [exact Ht|].
        split; [reflexivity|]. intros H0. exfalso.
        destruct (decide (i = pc)); lia. }
    destruct Hstep as (pfd' & s1 & Hstep & Ht1 & Hsame & Hnext).
    rewrite (bind_Ok _ _ _ _ _ Hstep) in Hrun.
    unfold bind at 1 in Hrun.
    destruct (fork E _ s1) as [[st s2]|] eqn:Hf; [|discriminate].
    apply fork_fds in Hf.
    assert (Hclose : exists s3,
               (if decide (0 < i)%nat then
                  pp <- at_index pfd' (i - 1) ;;
                  sys_close (fst pp) ;;; sys_close (snd pp)
                else ret tt) s2 = Ok (tt, s3)
               /\ term_fds (s_fds s3)).
    { destruct (decide (0 < i)%nat) as [Hi|Hi].
      - destruct (Hprev Hi) as (pr & pw & Hpp & Hpr & Hpw).
        rewrite <- (Hsame Hi) in Hpp.
        rewrite (bind_Ok _ _ _ _ _ (at_index_Ok _ _ _ _ Hpp)).
        rewrite (bind_Ok _ _ _ _ _ (sys_close_closed _ _)).
        rewrite sys_close_closed. eexists. split; [reflexivity|].
        cbn [with_pfds s_fds fst snd]. rewrite Hf.
        now apply term_fds_closed, term_fds_closed.
      - exists s2. split; [reflexivity|]. now rewrite Hf. }
    destruct Hclose as (s3 & Hc & Ht3).
    rewrite (bind_Ok _ _ _ _ _ Hc) in Hrun.
    destruct n as [|n].
    + injection Hrun as _ <-. exact Ht3.
    + apply (IH (S i) pfd' s3 a s'); auto; [lia|].
      intros _. replace (S i - 1)%nat with i by lia. apply Hnext. lia.
Qed.

Lemma pcount_args_state fuel : forall len s a s',
  pcount_args fuel len s = Ok (a, s') -> s' = s.
Proof.
  induction fuel as [|fuel IH]; intros len s a s'; cbn [pcount_args];
    [discriminate|].
  unfold bind, parg. destruct (s_args s !! len) as [[t|]|]; try discriminate.
  - apply IH.
  - now intros [= _ <-].
Qed.

Lemma scan_pipes_fds fuel : forall i pc loc s a s',
  scan_pipes fuel i pc loc s = Ok (a, s') -> s_fds s' = s_fds s.
Proof.
  induction fuel as [|fuel IH]; intros i pc loc s a s'; cbn [scan_pipes];
    [discriminate|].
  unfold bind at 1. unfold parg.
  destruct (s_args s !! i) as [[t|]|]; try discriminate.
  - destruct (strcmp t "|" =? 0); [|apply IH].
    destruct (decide _); [|discriminate].
    unfold bind, pset_arg. destruct (decide _); [|discriminate].
    intros H. apply IH in H. exact H.
  - now intros [= _ <-].
Qed.

Lemma keeps_term_lsh_execute E : keeps_term (lsh_execute E).
Proof.
  intros s a s' Ht. unfold lsh_execute.
  unfold bind at 1. unfold parg.
  destruct (s_args s !! O) as [[t|]|]; try discriminate.
  2:{ now intros [= _ <-]. }
  unfold bind at 1. unfold pargs_size.
  unfold bind at 1.
  destruct (pcount_args _ _ s) as [[len s1]|] eqn:Hc; [|discriminate].
  apply pcount_args_state in Hc as ->.
  unfold bind at 1.
  destruct (scan_pipes _ _ _ _ s) as [[[pc loc] s2]|] eqn:Hs; [|discriminate].
  apply scan_pipes_fds in Hs.
  destruct (decide (pc = 0)%nat) as [->|Hpc].
  - unfold bind.
    destruct (fork E _ s2) as [[[st|] s3]|] eqn:Hf; try discriminate.
    apply fork_fds in Hf. intros [= _ <-]. now rewrite Hf, Hs.
  - unfold bind at 1.
    destruct (spawn_stages E _ _ _ _ _ s2) as [[[] s3]|] eqn:Hsp;
      [|discriminate].
    intros [= _ <-].
    apply (spawn_stages_term E pc loc (pc + 1) O pfd0 s2 tt s3);
      auto; [now rewrite Hs|lia].
Qed.

(** X26: the interactive process keeps its standard descriptors: when
    the shell is started with descriptors 0, 1 and 2 on the terminal, they
    are still there after any number of lines, whatever pipelines were run
    and whether the forks succeeded or not. *)
Theorem shell_keeps_its_terminal E fuel : forall s r s',
  term_fds (s_fds s) -> lsh_loop E fuel s = Ok (r, s') -> term_fds (s_fds s').
Proof.
  induction fuel as [|fuel IH]; intros s r s' Ht; cbn [lsh_loop].
  - now intros [= _ <-].
  - destruct (lsh_read_line _) as [[line rest]|].
    + unfold bind.
      destruct (lsh_execute E _) as [[status s1]|] eqn:Hx; [|discriminate].
      apply keeps_term_lsh_execute in Hx; [|exact Ht].
      destruct (status =? 0).
      * now intros [= _ <-].
      * intros H. now apply IH in H.
    + now intros [= _ <-].
Qed.

Lemma shell_keeps_its_terminal_witness :
  exists r s',
    lsh_loop lab 4
      (booted "/" [] ("pwd | sort | cat f" ++ nl ++ "pwd" ++ nl))
    = Ok (r, s')
    /\ s_fds s' = [Some TermIn; Some TermOut; Some TermErr;
                   None; None; None; None]
    /\ term_fds (s_fds s').
Proof.
  eexists _, _. split; [vm_compute; reflexivity|]. split; [reflexivity|].
  refine (shell_keeps_its_terminal lab 4
            (booted "/" [] ("pwd | sort | cat f" ++ nl ++ "pwd" ++ nl))
            (Some EndOfInput) _ _ _).
  - repeat split.
  - vm_compute. reflexivity.
Defined.

(** ** What the handlers return *)

Lemma returns_bind {A B} (v : B) (m : M A) (k : A -> M B) :
  (forall a, returns v (k a)) -> returns v (bind m k).
Proof.
  intros Hk h r h' H. unfold bind in H.
  destruct (m h) as [[a h1]|]; [|discriminate]. eapply Hk, H.
Qed.

Lemma returns_ret {A} (v : A) : returns v (ret v).
Proof. intros h r h' [= <- _]. reflexivity. Qed.

(** X27: every built-in but [exit] returns 1, whatever its arguments
    and its input and whatever it could or could not do, and [exit]
    returns 0: [exit] is the only one whose result ends the loop. *)
Theorem handlers_return_one E name f h r h' :
  find_builtin name builtin_str (builtin_func E) = Some f ->
  f h = Ok (r, h') ->
  r = if String.eqb name "exit" then 0 else 1.
Proof.
  intros Hf Hrun. revert h r h' Hrun.
  change (returns (if String.eqb name "exit" then 0 else 1) f).
  apply find_builtin_cases in Hf
    as [[-> ->]|[[-> ->]|[[-> ->]|[[-> ->]|[[-> ->]|[[-> ->]|[-> ->]]]]]]];
    cbn [String.eqb Ascii.eqb Bool.eqb].
  - unfold lsh_cd. apply returns_bind. intros [p|].
    + apply returns_bind. intros e. apply returns_bind. intros _.
      apply returns_ret.
    + apply returns_bind. intros _. apply returns_ret.
  - unfold lsh_cat. apply returns_bind. intros len.
    destruct (decide _); apply returns_bind; intros _; apply returns_ret.
  - unfold lsh_echo. apply returns_bind. intros [p|].
    + apply returns_bind. intros n. apply returns_bind. intros _.
      apply returns_ret.
    + apply returns_bind. intros _. apply returns_ret.
  - unfold lsh_help. do 6 (apply returns_bind; intros _). apply returns_ret.
  - apply returns_ret.
  - unfold lsh_pwd. apply returns_bind. intros [p|].
    + apply returns_bind. intros d. apply returns_bind. intros _.
      apply returns_ret.
    + apply returns_bind. intros _. apply returns_ret.
  - unfold lsh_sort. do 5 (apply returns_bind; intros ?). apply returns_ret.
Qed.

Lemma handlers_return_one_witness :
  exists r h',
    lsh_cd lab (fresh "/" [Some "cd"; Some "/nowhere"; None] EmptyString)
    = Ok (r, h')
    /\ h_err h' = "lsh: No such file or directory" ++ nl
    /\ r = 1.
Proof.
  eexists _, _. split; [vm_compute; reflexivity|]. split; [reflexivity|].
  refine (handlers_return_one lab "cd" (lsh_cd lab)
            (fresh "/" [Some "cd"; Some "/nowhere"; None] EmptyString)
            _ _ eq_refl _).
  vm_compute. reflexivity.
Defined.

(** ** Separators *)



(** ** [exit] with arguments *)

(** X29: [exit] does not look at its arguments: typed with any tokens
    behind it (and no separator), it ends the loop as [exit] alone does,
    and the tokens have no effect. *)
Theorem exit_ignores_arguments E fuel s line rest xs :
  shell_fds (s_fds s) ->
  fork_ok E (w_forks (s_world s)) = true ->
  lsh_read_line (w_in (s_world s)) = Some (line, rest) ->
  strtok_all (cstr line) EmptyString = "exit" :: xs ->
  pipes_of xs = O ->
  exists s',
    lsh_loop E (S fuel) s = Ok (Some LoopLeft, s')
    /\ w_in (s_world s') = rest
    /\ w_out (s_world s') = w_out (s_world s) ++ "shsh!% "
    /\ w_err (s_world s') = w_err (s_world s).
Proof.
  intros Hfds Hok Hread Htok Hk.
  rewrite (lsh_loop_step E fuel s line rest Hfds Hread).
  pose proof (prompted_args E s line rest _ Htok) as Ha.
  assert (Hx : lsh_execute E (prompted E s line rest)
               = Ok (0, with_w (prompted E s line rest)
                          (count_fork true (s_world (prompted E s line rest))))).
  { rewrite (single_command E (prompted E s line rest) "exit" xs _ Ha)
      by (auto; now rewrite pipes_of_cons_word).
    assert (Hl : s_args (prompted E s line rest) !! O = Some (Some "exit"))
      by now rewrite Ha.
    unfold lsh_launch. cbn [with_w s_args]. rewrite Hl.
    change (find_builtin "exit" builtin_str (builtin_func E))
      with (Some lsh_exit).
    unfold call_builtin, lsh_exit, ret.
    cbn [h_cwd h_args h_in h_out h_err with_w s_cwd s_fds s_args s_world].
    rewrite !fd_write_nothing, fd_set_avail_same. reflexivity. }
  rewrite (bind_Ok _ _ _ _ _ Hx). cbn [Z.eqb].
  eexists. split; [reflexivity|]. repeat split.
Qed.

Lemma exit_ignores_arguments_witness :
  exists s',
    lsh_loop lab 2 (booted "/" [] ("exit 3 now" ++ nl ++ "pwd" ++ nl))
    = Ok (Some LoopLeft, s')
    /\ w_in (s_world s') = "pwd" ++ nl
    /\ w_out (s_world s') = EmptyString ++ "shsh!% "
    /\ w_err (s_world s') = EmptyString.
Proof.
  apply (exit_ignores_arguments lab 1
           (booted "/" [] ("exit 3 now" ++ nl ++ "pwd" ++ nl))
           "exit 3 now" ("pwd" ++ nl) ["3"; "now"]); try reflexivity.
  split; [reflexivity|split; [reflexivity|apply booted_pipe_free]].
Defined.

(** ** The stages of a pipeline, one after the other *)

Lemma sys_pipe_fresh s r w s' :
  sys_pipe s = Ok ((r, w), s') ->
  fd_lookup (s_fds s) r = None /\ fd_lookup (s_fds s) w = None.
Proof.
  unfold sys_pipe. intros [= <- <- _].
  split; [apply free_fd_lookup|].
  set (r := free_fd (s_fds s)).
  set (fds1 := fd_set r (Some (PipeR (length (w_pipes (s_world s))))) (s_fds s)).
  pose proof (free_fd_lookup fds1) as Hw.
  destruct (decide (free_fd fds1 = r)) as [Heq|Hne].
  - rewrite Heq in Hw. unfold fds1 in Hw.
    now rewrite fd_lookup_set_eq in Hw.
  - unfold fds1 in Hw at 1. now rewrite fd_lookup_set_ne in Hw.
Qed.

Lemma pipes_within_incl l1 l2 fds :
  (forall fd, fd ∈ l1 -> fd ∈ l2) -> pipes_within l1 fds -> pipes_within l2 fds.
Proof. intros Hin H fd ep Hfd Hp. eapply Hin, H; eauto. Qed.

Lemma pipes_within_closed x l fds :
  pipes_within (x :: l) fds -> pipes_within l (closed x fds).
Proof.
  intros H. apply pipes_within_lookup. intros fd ep Hfd Hp.
  apply fd_lookup_closed_Some in Hfd as [Hne Hfd].
  apply fd_lookup_Some in Hfd. specialize (H _ _ Hfd Hp).
  apply elem_of_cons in H as [->|H]; [congruence|exact H].
Qed.

Section Flow.
Variable E : env.
Variables (pc : nat) (loc : list Z) (cwd : string) (args : list cell).
Variables (w0 : world) (W : nat -> world).

Hypothesis Hpc : (1 <= pc <= 9)%nat.

(** No stage makes or loses a channel. *)
Hypothesis Hlen : forall j, (j <= pc)%nat ->
  length (w_pipes (W j)) = length (w_pipes (world_before pc w0 W j)).

(** The [fork] for stage [j] succeeds, and the child of the stage, wired
    as the stage is to be, leaves the world [W j]. *)
Hypothesis Hstage : forall j, (j <= pc)%nat ->
  fork_ok E (w_forks (world_before pc w0 W j)) = true
  /\ forall s1 fds pfd,
       s_cwd s1 = cwd -> s_args s1 = args ->
       s_world s1 = count_fork true (world_before pc w0 W j) ->
       wire_stage j pc pfd s1 = Ok (tt, with_pfds s1 fds) ->
       fd_lookup fds 0 = Some (stage_in (length (w_pipes w0)) j) ->
       fd_lookup fds 1 = Some (stage_out (length (w_pipes w0)) pc j) ->
       fd_lookup fds 2 = Some TermErr ->
       exists sj, stage_child E j pc loc pfd s1 = Ok (0, sj)
                  /\ s_world sj = W j.

Lemma channels_before i :
  (i <= pc)%nat ->
  length (w_pipes (match i with O => w0 | S i' => W i' end))
  = (length (w_pipes w0) + i)%nat.
Proof.
  induction i as [|i IH]; intros Hi; [lia|].
  rewrite Hlen by lia. unfold world_before.
  rewrite decide_False by lia. cbn [with_channel w_pipes].
  rewrite length_app, IH by lia. simpl. lia.
Qed.

Lemma spawn_stages_flow n : forall i pfd s,
  (i + n = pc + 1)%nat -> (0 < n)%nat -> length pfd = 9%nat ->
  s_cwd s = cwd -> s_args s = args ->
  s_world s = match i with O => w0 | S i' => W i' end ->
  term_fds (s_fds s) ->
  (i = O -> pipe_free (s_fds s)) ->
  ((0 < i)%nat ->
   exists pr pw,
     pfd !! (i - 1)%nat = Some (pr, pw) /\ (3 <= pr)%nat /\ (3 <= pw)%nat
     /\ fd_lookup (s_fds s) pr = Some (PipeR (length (w_pipes w0) + (i - 1)))
     /\ fd_lookup (s_fds s) pw = Some (PipeW (length (w_pipes w0) + (i - 1)))
     /\ pipes_within [pr; pw] (s_fds s)) ->
  exists s', spawn_stages E n i pc loc pfd s = Ok (tt, s')
             /\ s_world s' = W pc.
Proof.
  induction n as [|n IH]; intros i pfd s Hn Hpos Hpfd Hcwd Hargs Hworld Ht H0 Hprev;
    [lia|].
  rewrite spawn_stages_S.
  pose proof Ht as (T0 & T1 & T2)%term_fds_lookup.
  destruct (Hstage i ltac:(lia)) as [Hok Hchild].
  destruct (decide (i <> pc)) as [Hne|Heq].
  - (* a stage before the last *)
    destruct (sys_pipe_ends
                (if decide (0 < i)%nat
                 then match pfd !! (i - 1)%nat with
                      | Some (pr, pw) => [pr; pw]
                      | None => []
                      end
                 else []) s)
      as (r & w & fds1 & Hpipe & Hr & Hw & Hrw & Hlr & Hlw & Hoth & Hwithin).
    { intros j. now apply term_fds_open. }
    { destruct (decide (0 < i)%nat) as [Hi|Hi].
      - destruct (Hprev Hi) as (pr & pw & -> & _ & _ & _ & _ & Hin). exact Hin.
      - apply pipes_within_nil, H0. lia. }
    destruct (sys_pipe_fresh _ _ _ _ Hpipe) as [Hfr Hfw].
    assert (Hk : length (w_pipes (s_world s)) = (length (w_pipes w0) + i)%nat)
      by (rewrite Hworld; apply channels_before; lia).
    rewrite Hk in Hlr, Hlw.
    erewrite bind_Ok.
    2:{ erewrite bind_Ok by exact Hpipe.
        rewrite decide_True by lia. reflexivity. }
    set (pfd' := <[i:=(r, w)]> pfd).
    set (s1 := {| s_cwd := s_cwd s; s_fds := fds1; s_args := s_args s;
                  s_world := _ |}) in *.
    assert (Hw1 : s_world s1 = world_before pc w0 W i).
    { unfold world_before. rewrite decide_False by exact Hne.
      cbn [s1 s_world]. unfold with_channel. rewrite <- Hworld. reflexivity. }
    assert (Hpi : pfd' !! i = Some (r, w))
      by (apply list_lookup_insert_eq; lia).
    (* the child *)
    assert (Hfork : fork E (stage_child E i pc loc pfd') s1
                    = Ok (Some (Exited 0), with_w s1 (W i))).
    { rewrite fork_ok_spec by (rewrite Hw1; exact Hok).
      assert (Hwire : exists fds,
                 wire_stage i pc pfd' (with_w s1 (count_fork true (s_world s1)))
                 = Ok (tt, with_pfds (with_w s1 (count_fork true (s_world s1)))
                             fds)
                 /\ fd_lookup fds 0 = Some (stage_in (length (w_pipes w0)) i)
                 /\ fd_lookup fds 1
                    = Some (stage_out (length (w_pipes w0)) pc i)
                 /\ fd_lookup fds 2 = Some TermErr).
      { unfold stage_out. rewrite decide_False by exact Hne.
        destruct i as [|i].
        - destruct (wire_first pc pfd' (with_w s1 (count_fork true (s_world s1)))
                      r w (PipeW (length (w_pipes w0) + 0)))
            as (fds & Hwr & F0 & F1 & _ & F2); auto; try lia.
          exists fds. split; [exact Hwr|]. split; [|split; [exact F1|]].
          + rewrite F0. cbn [with_w s1 s_fds]. rewrite Hoth by lia. exact T0.
          + rewrite F2 by lia. cbn [with_w s1 s_fds].
            rewrite Hoth by lia. exact T2.
        - destruct (Hprev ltac:(lia))
            as (pr & pw & Hpp & Hpr & Hpw & Hlpr & Hlpw & Hin).
          rewrite Hpp in Hwithin. rewrite decide_True in Hwithin by lia.
          assert (r <> pr /\ w <> pr /\ r <> pw /\ w <> pw)
            as (Hrp & Hwp & Hrp' & Hwp') by (repeat split; congruence).
          destruct (wire_middle (S i) pc pfd'
                      (with_w s1 (count_fork true (s_world s1)))
                      pr pw r w
                      (PipeR (length (w_pipes w0) + (S i - 1)))
                      (PipeW (length (w_pipes w0) + S i)))
            as (fds & Hwr & F0 & F1 & _ & F2); auto; try lia.
          + unfold pfd'. rewrite list_lookup_insert_ne by lia. exact Hpp.
          + cbn [with_w s1 s_fds]. rewrite Hoth by auto. exact Hlpr.
          + cbn [with_w s1 s_fds]. eapply pipes_within_incl; [|exact Hwithin].
            intros fd. rewrite !elem_of_cons. tauto.
          + exists fds. split; [exact Hwr|].
            split; [|split; [exact F1|]].
            * rewrite F0. cbn [stage_in]. do 2 f_equal. lia.
            * rewrite F2 by lia. cbn [with_w s1 s_fds].
              rewrite Hoth by lia. exact T2. }
      destruct Hwire as (fds & Hwr & F0 & F1 & F2).
      destruct (Hchild (with_w s1 (count_fork true (s_world s1))) fds pfd')
        as (sj & Hsj & Hwj); auto.
      { cbn [with_w s_world]. now rewrite Hw1. }
      now rewrite Hsj, Hwj. }
    rewrite (bind_Ok _ _ _ _ _ Hfork).
    (* the interactive process closes the channel before *)
    assert (Hclose : exists fds3,
               (if decide (0 < i)%nat then
                  pp <- at_index pfd' (i - 1) ;;
                  sys_close (fst pp) ;;; sys_close (snd pp)
                else ret tt) (with_w s1 (W i))
               = Ok (tt, with_pfds (with_w s1 (W i)) fds3)
               /\ term_fds fds3
               /\ fd_lookup fds3 r = Some (PipeR (length (w_pipes w0) + i))
               /\ fd_lookup fds3 w = Some (PipeW (length (w_pipes w0) + i))
               /\ pipes_within [r; w] fds3).
    { destruct (decide (0 < i)%nat) as [Hi|Hi].
      - destruct (Hprev Hi) as (pr & pw & Hpp & Hpr & Hpw & Hlpr & Hlpw & Hin).
        rewrite Hpp in Hwithin.
        assert (Hpp' : pfd' !! (i - 1)%nat = Some (pr, pw))
          by (unfold pfd'; rewrite list_lookup_insert_ne by lia; exact Hpp).
        rewrite (bind_Ok _ _ _ _ _ (at_index_Ok _ _ _ _ Hpp')).
        rewrite (bind_Ok _ _ _ _ _ (sys_close_closed _ _)).
        rewrite sys_close_closed. eexists. split; [reflexivity|].
        cbn [with_pfds with_w s1 s_fds fst snd].
        assert (r <> pr /\ w <> pr /\ r <> pw /\ w <> pw)
          as (Hrp & Hwp & Hrp' & Hwp') by (repeat split; congruence).
        split; [|split; [|split]].
        + apply term_fds_closed; [lia|]. apply term_fds_closed; [lia|].
          apply term_fds_lookup. rewrite !Hoth by lia. auto.
        + rewrite !fd_lookup_closed_ne by auto. exact Hlr.
        + rewrite !fd_lookup_closed_ne by auto. exact Hlw.
        + apply pipes_within_closed, pipes_within_closed.
          eapply pipes_within_incl; [|exact Hwithin].
          intros fd. rewrite !elem_of_cons. tauto.
      - exists fds1. split; [reflexivity|]. split; [|split; [|split]].
        + apply term_fds_lookup. rewrite !Hoth by lia. auto.
        + exact Hlr.
        + exact Hlw.
        + exact Hwithin. }
    destruct Hclose as (fds3 & Hc & Ht3 & Hlr3 & Hlw3 & Hw3).
    rewrite (bind_Ok _ _ _ _ _ Hc).
    apply (IH (S i) pfd'); auto; try lia.
    + unfold pfd'. now rewrite length_insert.
    + intros _. exists r, w. replace (S i - 1)%nat with i by lia.
      repeat split; auto.
  - (* the last stage *)
    assert (i = pc) as -> by (destruct (decide (pc = i)); lia).
    assert (n = O) as -> by lia.
    erewrite bind_Ok by reflexivity.
    destruct (Hprev ltac:(lia))
      as (pr & pw & Hpp & Hpr & Hpw & Hlpr & Hlpw & Hin).
    assert (Hw1 : s_world s = world_before pc w0 W pc).
    { unfold world_before. rewrite decide_True by reflexivity. exact Hworld. }
    destruct (wire_last pc pfd (with_w s (count_fork true (s_world s)))
                pr pw (PipeR (length (w_pipes w0) + (pc - 1))))
      as (fds & Hwr & F0 & F1 & _ & F2); auto; try lia.
    destruct (Hchild (with_w s (count_fork true (s_world s))) fds pfd)
      as (sj & Hsj & Hwj); auto.
    { cbn [with_w s_world]. now rewrite Hw1. }
    { rewrite F0. destruct pc as [|pc']; [lia|]. cbn [stage_in].
      do 2 f_equal. lia. }
    { rewrite F1. unfold stage_out. rewrite decide_True by reflexivity.
      exact T1. }
    { rewrite F2 by lia. exact T2. }
    assert (Hfork : fork E (stage_child E pc pc loc pfd) s
                    = Ok (Some (Exited 0), with_w s (W pc))).
    { rewrite fork_ok_spec by (rewrite Hw1; exact Hok). now rewrite Hsj, Hwj. }
    rewrite (bind_Ok _ _ _ _ _ Hfork).
    rewrite decide_True by lia.
    erewrite bind_Ok.
    2:{ rewrite (bind_Ok _ _ _ _ _ (at_index_Ok _ _ _ _ Hpp)).
        rewrite (bind_Ok _ _ _ _ _ (sys_close_closed _ _)).
        apply sys_close_closed. }
    eexists. split; reflexivity.
Qed.

End Flow.

(** ** A pipeline of three built-ins *)

(** A line with separators in a shell on its terminal, the children of
    its stages leaving the worlds [W 0], [W 1], ...: the stages are run in
    order, each wired to the channels next to it, and [lsh_execute] ends
    in the world the last stage leaves. *)
Lemma pipeline_flow E s t toks junk W :
  term_fds (s_fds s) -> pipe_free (s_fds s) ->
  s_args s = ((Some <$> t :: toks) ++ None :: junk)%list ->
  (1 <= pipes_of (t :: toks) <= 9)%nat ->
  (forall j, (j <= pipes_of (t :: toks))%nat ->
     length (w_pipes (W j))
     = length (w_pipes (world_before (pipes_of (t :: toks)) (s_world s) W j))) ->
  (forall j, (j <= pipes_of (t :: toks))%nat ->
     fork_ok E (w_forks (world_before (pipes_of (t :: toks)) (s_world s) W j))
     = true
     /\ forall s1 fds pfd,
          s_cwd s1 = s_cwd s ->
          s_args s1 = ((cut <$> t :: toks) ++ None :: junk)%list ->
          s_world s1
          = count_fork true
              (world_before (pipes_of (t :: toks)) (s_world s) W j) ->
          wire_stage j (pipes_of (t :: toks)) pfd s1
          = Ok (tt, with_pfds s1 fds) ->
          fd_lookup fds 0
          = Some (stage_in (length (w_pipes (s_world s))) j) ->
          fd_lookup fds 1
          = Some (stage_out (length (w_pipes (s_world s)))
                    (pipes_of (t :: toks)) j) ->
          fd_lookup fds 2 = Some TermErr ->
          exists sj,
            stage_child E j (pipes_of (t :: toks))
              (record 1 (pipe_positions O (t :: toks)) pipe_locate0) pfd s1
            = Ok (0, sj)
            /\ s_world sj = W j) ->
  exists s',
    lsh_execute E s = Ok (1, s')
    /\ s_world s' = W (pipes_of (t :: toks)).
Proof.
  intros Ht Hfree Ha Hk Hlen Hstage.
  rewrite (lsh_execute_scan E s t toks junk Ha) by lia.
  rewrite decide_False by lia.
  destruct (spawn_stages_flow E (pipes_of (t :: toks))
              (record 1 (pipe_positions O (t :: toks)) pipe_locate0)
              (s_cwd s) ((cut <$> t :: toks) ++ None :: junk)%list
              (s_world s) W Hk Hlen Hstage
              (pipes_of (t :: toks) + 1) O pfd0
              (with_pargs s ((cut <$> t :: toks) ++ None :: junk)%list))
    as (s' & Hrun & Hw); auto; try lia.
  rewrite (bind_Ok _ _ _ _ _ Hrun). exists s'. split; [reflexivity|exact Hw].
Qed.

Lemma three_stage_positions l1 l2 l3 :
  pipes_of l1 = O -> pipes_of l2 = O -> pipes_of l3 = O ->
  pipe_positions O (l1 ++ "|" :: l2 ++ "|" :: l3)
  = [length l1; S (length l1 + length l2)].
Proof.
  intros H1 H2 H3. apply length_zero_iff_nil in H1, H2, H3.
  rewrite pipe_positions_app, H1. cbn [app pipe_positions Nat.add].
  change (strcmp "|" "|" =? 0) with true. cbv iota.
  rewrite pipe_positions_app, (pipe_positions_none l2 O _ H2).
  cbn [app pipe_positions].
  change (strcmp "|" "|" =? 0) with true. cbv iota.
  rewrite (pipe_positions_none l3 O _ H3).
  reflexivity.
Qed.

Lemma three_stage_cut l1 l2 l3 :
  pipes_of l1 = O -> pipes_of l2 = O -> pipes_of l3 = O ->
  cut <$> (l1 ++ "|" :: l2 ++ "|" :: l3)%list
  = ((Some <$> l1) ++ None :: (Some <$> l2) ++ None :: (Some <$> l3))%list.
Proof.
  intros H1 H2 H3. apply length_zero_iff_nil in H1, H2, H3.
  rewrite fmap_app, fmap_cons, fmap_app, fmap_cons.
  now rewrite (cut_no_pipes l1 O H1), (cut_no_pipes l2 O H2),
    (cut_no_pipes l3 O H3).
Qed.

Lemma third_stage_args (l1 l2 : list string) (tail : list cell) :
  drop (S (S (length l1 + length l2)))
    ((Some <$> l1) ++ None :: (Some <$> l2) ++ None :: tail)%list = tail
  /\ ((Some <$> l1) ++ None :: (Some <$> l2) ++ None :: tail)%list
     !! S (S (length l1 + length l2)) = head tail.
Proof.
  destruct (second_stage_args l1 ((Some <$> l2) ++ None :: tail)) as [Hd _].
  destruct (second_stage_args l2 tail) as [Hd' Hl'].
  replace (S (S (length l1 + length l2)))
    with (S (length l1) + S (length l2))%nat by lia.
  split.
  - now rewrite <- drop_drop, Hd, Hd'.
  - rewrite <- Hl', <- (lookup_drop _ (S (length l1))), Hd. reflexivity.
Qed.

(** X30: a pipeline of three built-ins typed into a shell on its
    terminal.  The first handler reads the terminal and the third writes
    to it; the second finds on its standard input what the first wrote to
    its standard output, and the third what the second wrote.  Each runs on
    the array from its own name on, with null pointers where the
    separators were, and three processes are created. *)
Theorem pipe_feeds_through_middle_stage
    E s a xs b ys c zs junk fa fb fc ra ha rb hb rc hc :
  term_fds (s_fds s) -> pipe_free (s_fds s) ->
  fork_ok E (w_forks (s_world s)) = true ->
  fork_ok E (S (w_forks (s_world s))) = true ->
  fork_ok E (S (S (w_forks (s_world s)))) = true ->
  s_args s
  = ((Some <$> (a :: xs) ++ "|" :: (b :: ys) ++ "|" :: c :: zs)
     ++ None :: junk)%list ->
  pipes_of (a :: xs) = O -> pipes_of (b :: ys) = O ->
  pipes_of (c :: zs) = O ->
  find_builtin a builtin_str (builtin_func E) = Some fa ->
  find_builtin b builtin_str (builtin_func E) = Some fb ->
  find_builtin c builtin_str (builtin_func E) = Some fc ->
  fa (fresh (s_cwd s)
        ((Some <$> a :: xs) ++ None :: (Some <$> b :: ys) ++ None
         :: (Some <$> c :: zs) ++ None :: junk)
        (w_in (s_world s))) = Ok (ra, ha) ->
  fb (fresh (s_cwd s)
        ((Some <$> b :: ys) ++ None :: (Some <$> c :: zs) ++ None :: junk)
        (h_out ha)) = Ok (rb, hb) ->
  fc (fresh (s_cwd s) ((Some <$> c :: zs) ++ None :: junk) (h_out hb))
  = Ok (rc, hc) ->
  exists s',
    lsh_execute E s = Ok (1, s')
    /\ w_in (s_world s') = h_in ha
    /\ w_out (s_world s') = w_out (s_world s) ++ h_out hc
    /\ w_procs (s_world s') = (w_procs (s_world s) + 3)%nat.
Proof.
  intros Hfds Hfree Hok1 Hok2 Hok3 Ha Hka Hkb Hkc Hfa Hfb Hfc Hra Hrb Hrc.
  pose proof (three_stage_positions _ _ _ Hka Hkb Hkc) as Hpos.
  pose proof (three_stage_cut _ _ _ Hka Hkb Hkc) as Hcut.
  change ((a :: xs) ++ "|" :: (b :: ys) ++ "|" :: c :: zs)%list
    with (a :: (xs ++ "|" :: (b :: ys) ++ "|" :: c :: zs))%list
    in Ha, Hpos, Hcut.
  set (toks := (xs ++ "|" :: (b :: ys) ++ "|" :: c :: zs)%list) in *.
  assert (Hpc : pipes_of (a :: toks) = 2%nat)
    by (unfold pipes_of; now rewrite Hpos).
  set (args' := ((Some <$> a :: xs) ++ None :: (Some <$> b :: ys) ++ None
                 :: (Some <$> c :: zs) ++ None :: junk)%list) in *.
  assert (Hargs' : ((cut <$> a :: toks) ++ None :: junk)%list = args').
  { rewrite Hcut. unfold args'.
    rewrite <- !app_assoc. cbn [app]. now rewrite <- !app_assoc. }
  destruct (second_stage_args (a :: xs)
              ((Some <$> b :: ys) ++ None :: (Some <$> c :: zs)
               ++ None :: junk)) as [Hdrop1 Hlook1].
  destruct (third_stage_args (a :: xs) (b :: ys)
              ((Some <$> c :: zs) ++ None :: junk)) as [Hdrop2 Hlook2].
  fold args' in Hdrop1, Hlook1, Hdrop2, Hlook2.
  set (w := s_world s) in *.
  set (k := length (w_pipes w)).
  set (wA := ep_write TermErr (h_err ha)
               (ep_write (PipeW k) (h_out ha)
                  (ep_set_avail TermIn (h_in ha)
                     (count_fork true (with_channel w))))).
  set (wB := ep_write TermErr (h_err hb)
               (ep_write (PipeW (k + 1)) (h_out hb)
                  (ep_set_avail (PipeR k) (h_in hb)
                     (count_fork true (with_channel wA))))).
  set (wC := ep_write TermErr (h_err hc)
               (ep_write TermOut (h_out hc)
                  (ep_set_avail (PipeR (k + 1)) (h_in hc)
                     (count_fork true wB)))).
  assert (HkA : length (w_pipes wA) = S k).
  { unfold wA. cbn [ep_write ep_set_avail count_fork with_channel w_pipes].
    rewrite length_alter, length_app. simpl. fold k. lia. }
  assert (HkB : length (w_pipes wB) = S (S k)).
  { unfold wB. cbn [ep_write ep_set_avail count_fork with_channel w_pipes].
    rewrite length_alter, length_insert, length_app, HkA. simpl. lia. }
  destruct (pipeline_flow E s a toks junk
              (fun j => match j with
                        | O => wA
                        | S O => wB
                        | _ => wC
                        end) Hfds Hfree Ha) as (s' & Hrun & Hw).
  - rewrite Hpc. lia.
  - rewrite Hpc. unfold world_before. fold w.
    intros [|[|[|j]]] Hj; [| | |lia].
    + rewrite decide_False by lia. cbn [with_channel w_pipes].
      rewrite HkA, length_app. simpl. fold k. lia.
    + rewrite decide_False by lia. cbn [with_channel w_pipes].
      rewrite HkB, length_app, HkA. simpl. lia.
    + rewrite decide_True by lia. unfold wC.
      cbn [ep_write ep_set_avail count_fork w_pipes].
      now rewrite length_insert.
  - rewrite Hpc, Hargs', Hpos. unfold world_before. fold w. fold k.
    set (loc := record 1 _ pipe_locate0).
    intros [|[|[|j]]] Hj; [| | |lia].
    + rewrite decide_False by lia. split; [exact Hok1|].
      intros s1 fds pfd Hcwd Hargs Hworld Hwire H0 H1 H2.
      unfold stage_in in H0. unfold stage_out in H1.
      rewrite decide_False, Nat.add_0_r in H1 by lia.
      destruct (stage_child_builtin E O 2 loc pfd s1 fds (-1) a fa ra ha
                  TermIn (PipeW k) TermErr Hwire eq_refl)
        as (sa & Hsa & Hwsa); auto.
      * now rewrite Hargs.
      * rewrite Hcwd, Hargs, Hworld. exact Hra.
      * exists sa. split; [exact Hsa|]. now rewrite Hwsa, Hworld.
    + rewrite decide_False by lia. split.
      { unfold wA.
        cbn [ep_write ep_set_avail count_fork with_channel w_forks].
        exact Hok2. }
      intros s1 fds pfd Hcwd Hargs Hworld Hwire H0 H1 H2.
      unfold stage_in in H0. unfold stage_out in H1.
      rewrite decide_False in H1 by lia. rewrite Nat.add_0_r in H0.
      assert (Hoff : Z.to_nat (Z.of_nat (length (a :: xs)) + 1)
                     = S (length (a :: xs))) by lia.
      destruct (stage_child_builtin E 1 2 loc pfd s1 fds _ b fb rb hb
                  (PipeR k) (PipeW (k + 1)) TermErr Hwire eq_refl)
        as (sb & Hsb & Hwsb); auto.
      * now rewrite Hoff, Hargs, Hlook1.
      * rewrite Hoff, Hcwd, Hargs, Hdrop1, Hworld.
        replace (ep_avail (PipeR k) (count_fork true (with_channel wA)))
          with (h_out ha); [exact Hrb|].
        unfold wA.
        cbn [ep_avail ep_write ep_set_avail count_fork with_channel w_pipes].
        rewrite lookup_app_l by (rewrite length_alter, length_app; simpl; lia).
        unfold k. now rewrite channel_holds.
      * exists sb. split; [exact Hsb|]. now rewrite Hwsb, Hworld.
    + rewrite decide_True by lia. split.
      { unfold wB, wA.
        cbn [ep_write ep_set_avail count_fork with_channel w_forks].
        exact Hok3. }
      intros s1 fds pfd Hcwd Hargs Hworld Hwire H0 H1 H2.
      unfold stage_in in H0. unfold stage_out in H1.
      rewrite decide_True in H1 by lia.
      assert (Hoff : Z.to_nat (Z.of_nat (S (length (a :: xs)
                                            + length (b :: ys))) + 1)
                     = S (S (length (a :: xs) + length (b :: ys)))) by lia.
      destruct (stage_child_builtin E 2 2 loc pfd s1 fds _ c fc rc hc
                  (PipeR (k + 1)) TermOut TermErr Hwire eq_refl)
        as (sc & Hsc & Hwsc); auto.
      * now rewrite Hoff, Hargs, Hlook2.
      * rewrite Hoff, Hcwd, Hargs, Hdrop2, Hworld.
        replace (ep_avail (PipeR (k + 1)) (count_fork true wB))
          with (h_out hb); [exact Hrc|].
        unfold wB.
        cbn [ep_avail ep_write ep_set_avail count_fork with_channel w_pipes].
        rewrite list_lookup_alter, decide_True by reflexivity.
        rewrite list_lookup_insert_ne by lia.
        rewrite lookup_app_r by lia. rewrite HkA.
        replace (k + 1 - S k)%nat with O by lia. reflexivity.
      * exists sc. split; [exact Hsc|]. now rewrite Hwsc, Hworld.
  - exists s'. split; [exact Hrun|]. rewrite Hw, Hpc. unfold wC, wB, wA.
    cbn [ep_write ep_set_avail count_fork with_channel w_in w_out w_err
         w_pipes w_forks w_procs].
    fold w. repeat split. lia.
Qed.

Lemma pipe_feeds_through_middle_stage_witness :
  exists s',
    lsh_execute lab
      (booted "/" [Some "cat"; Some "f"; Some "|"; Some "sort"; Some "|";
                   Some "sort"; None; None; None] EmptyString)
    = Ok (1, s')
    /\ w_in (s_world s') = EmptyString
    /\ w_out (s_world s')
       = EmptyString ++ "[1]: [1]: hello" ++ nl ++ "[2]: [2]: sort" ++ nl
    /\ w_procs (s_world s') = 3%nat.
Proof.
  apply (pipe_feeds_through_middle_stage lab
           (booted "/" [Some "cat"; Some "f"; Some "|"; Some "sort";
                        Some "|"; Some "sort"; None; None; None] EmptyString)
           "cat" ["f"] "sort" [] "sort" [] [None; None]
           (lsh_cat lab) lsh_sort lsh_sort
           1 {| h_cwd := "/";
                h_args := [Some "cat"; Some "f"; None; Some "sort"; None;
                           Some "sort"; None; None; None];
                h_in := EmptyString; h_out := "hello";
                h_err := EmptyString |}
           1 {| h_cwd := "/";
                h_args := [Some "sort"; Some "hello"; Some "sort"; None;
                           None; None];
                h_in := EmptyString;
                h_out := "[1]: hello" ++ nl ++ "[2]: sort" ++ nl;
                h_err := EmptyString |}
           1 {| h_cwd := "/";
                h_args := [Some "sort"; Some "[1]: hello";
                           Some "[2]: sort"; None];
                h_in := EmptyString;
                h_out := "[1]: [1]: hello" ++ nl ++ "[2]: [2]: sort" ++ nl;
                h_err := EmptyString |});
    try reflexivity.
  - repeat split.
  - apply booted_pipe_free.
Defined.
